(* ===== verification/_CoqProject ===== *)
-Q . S2P
Prelude.v
JsNumber.v
JsNumberDigits.v
JsFraction.v
JsValue.v
Chalk.v
Runtime.v
DateFormat.v
Winston.v
NodePath.v
Helper.v
LoggerPlugin.v
Reentrancy.v
Invariants.v
