(* ===== verification/Prelude.v ===== *)
(** * A verification of tree-config-logger (src/index.js)

    The program is one CommonJS module, [src/index.js], exporting the
    constructor [LoggerPlugin].  A plugin wraps a configuration object
    (tree-config) and, on its first log call, builds a winston logger from
    the configuration's [log] tree: each transport whose [timestamp] is a
    string pattern gets that string replaced by a closure that formats the
    current time (dateformat) and colours it gray (chalk) when the
    transport's [colorize] is ['true']; the logger is registered in
    winston's container under [config.id + time] and cached in
    [this._logger].  The six leveled methods prepend their level and
    forward to the logger.  A constant [helper] object formats paths,
    file names, numbers and strings.

    ** Files (in dependency order)
    - [Prelude] (this file): the state-and-exception monad [st] (a throw
      keeps the state reached, as JavaScript keeps the writes done before
      it), its notation [let! x := m in k] and [m ;; k] in [tcl_scope],
      [st_iter] for loops, [st_keeps] (an action keeps a preorder
      between the state before and after: frames and invariants,
      [preserves P]); association lists for the own properties of an
      object (insertion order, in-place update); string lemmas; the hint
      databases [tcl] and [tcl_rw] and the tactics [st_unfold],
      [st_split].
    - [JsNumber]: the numbers of the module as doubles: [jsnum]
      (integers, fractions [m / 2^k], [NaN], the infinities),
      [round_pos_rat] (nearest double to a fraction), [round_double]
      (nearest double, ties to even, [Infinity] from [2^1024]),
      [num_add] (binary [+] on numbers, line 63), [num_to_string]
      ([Number::toString], line 23: the shortest digits that read back,
      exponent form beyond 21 digits) and the exact numeral [Z_to_dec].
      [round_double] is [round_at] (to nearest at a fixed precision) at
      the precision [2^round_sh] of the magnitude; doubles with a
      fraction print with a decimal point, as [0.000...] or with a
      negative exponent ([frac_to_js_string], [format_digits]).
    - [JsNumberDigits]: rounding is monotone ([round_mag_mono],
      [round_double_between]), [Number::toString]'s digits are the
      fewest that read back ([ecma_digits], ECMAScript's definition),
      and the numeral of [a * 10^(dec_len t) + t] is that of [a]
      followed by that of [t] ([Z_to_dec_prepend]).
    - [JsFraction]: the rounding of fractions agrees with the rounding of
      integers ([round_pos_rat_int]).
    - [JsValue]: JavaScript values (numbers, strings, heap
      objects, the timestamp closure [VTsFun], backend loggers), the heap
      ([gmap] from locations to objects), and the operators of the source:
      [js_typeof], [js_strict_eq], [js_truthy], [js_to_string], [js_add]
      (binary [+]), [js_get]/[js_set] (strict mode), [for_in_keys].
    - [Chalk]: the [Styler] interface and chalk 1.x [applyStyle] with the
      ANSI codes ([chalk1 enabled]).
    - [Runtime]: the [world] (heap, clock, working directory, winston's
      registry and loggers, the trace of log calls), the monad [M], the
      primitive actions, and the collaborators as interfaces:
      [DateFormat], [Backend] with its laws [BackendLaws], [PathLib]
      (with Node's argument checks [validate_string] in
      [path_relative_js] and [path_basename_js]), and the [config]
      record ([id] and [get]).
    - [DateFormat]: dateformat's time-of-day masks, an instance used by the
      witnesses.
    - [Winston]: winston's container as the spec describes it
      (retrieve-or-create under [ToString(id)], unknown transport names
      rejected, log calls recorded), written as winston 2.x's
      [Container.add] is: the test [this.loggers[id]] ([winston_find]),
      then on a miss the construction and store ([winston_create]); and
      the proof of [BackendLaws].
    - [NodePath]: Node's POSIX [path.resolve], [path.relative] and
      [path.basename] on segment lists, with the round trip
      [resolve_relative].
    - [Helper]: the object [helper] ([helper_obj]) and its functions
      [helper.path], [helper.file], [helper.number], [helper.string]
      (lines 12-30).
    - [LoggerPlugin]: the plugin (lines 32-110).  Methods run in [PM],
      whose state is [this] and the world.  [rewrite_transport] and
      [rewrite_timestamps] are lines 46-61, [call_timestamp] the closure
      of lines 52-59, [log_id] line 63, [_getLogger] lines 38-67, [log]
      lines 69-74, [leveled] and the six methods lines 76-110.
    - [Reentrancy]: [_getLogger] read step by step between its calls into
      other modules ([gl_frame], [gl_step]: the guard, [config.get], one
      loop turn, the clock read, the registry test of
      [winston.loggers.add], its construction branch with the write of
      [this._logger]), and a stack machine of nested activations over one
      plugin and one world ([rstep]: step, return, re-enter from inside
      [get] or from the construction of the transports in
      [loggers.add]; [rstep_clock]: the clock moves).
    - [Invariants]: a plugin's sequential life over winston (the
      [plugin_step] runs of [LoggerPlugin]).

    ** What the theorems show
    - Memoisation and the plugin's life ([getLogger_memo],
      [getLogger_first], [cached_logger_stable]): the
      first successful call caches a registered logger; nothing ever
      changes it afterwards, along any run of [plugin_step].
    - The rewrite loop ([rewrite_timestamps_spec] and its corollaries):
      exactly the transports with a string timestamp get a closure over
      their pattern and themselves, each once, whatever the key order and
      the aliasing; other objects are untouched; the loop is idempotent
      (two plugins sharing a tree), does nothing on a non-object, and on a
      [null] transport throws after the earlier rewrites
      ([getLogger_null_transport]).
    - The closure ([call_timestamp_spec], [colorized_timestamp_gray])
      and the refinement of the
      spec's [TimestampPolicy] ([timestamp_refines_policy]), which holds
      while [colorize] is unchanged ([timestamp_policy_follows_colorize]).
    - [helper.number]: every number, fractions, [NaN] and infinities
      included, printed by [Number::toString] between cyan's codes
      ([helper_number_colored]); below [2^53] that is the exact numeral,
      which reads back ([helper_number_safe]).  The number model's own
      lemmas: on every positive double [Number::toString] chooses the
      digits ECMAScript specifies ([shortest_ecma_digits]); the rounding
      of fractions is that of integers on integers
      ([round_pos_rat_int]).
    - The logger identifier: distinct times give distinct names for a
      string or integer id while the numbers stay below [2^53], but
      numeric ids are added, and from [2^53] on the sum is rounded so two
      consecutive milliseconds share a name ([log_id_rounding_collision]),
      string ids are not delimited ([log_id_string_collision], for every
      string and time), a missing id gives ["NaN"] ([log_id_*]); a
      nonnegative integer id gives identifiers that never decrease with
      the time ([log_id_monotone]); any such
      collision makes a later plugin share the earlier plugin's logger
      ([name_collision_shares_logger], [same_id_same_ms_share_logger]).
    - Errors: a configuration error propagates out of a leveled call,
      nothing is logged and the plugin stays uncached, so the next call
      retries ([config_error_propagates]).
    - The leveled methods ([leveled_methods]), the spec's example of a
      first [info] call ([first_info_logs]) and the helpers
      ([helper_*_spec], the coloured forms, [helper_path_roundtrip]).
    - The step-by-step [_getLogger] is justified by lemmas: it computes
      [_getLogger] ([gl_reaches_getLogger]), every activation terminates
      ([gl_sn_all]), and nested activations all finish once no new call
      starts ([activations_finish]).
    - The spec's section 5 (reentrancy): for every configuration whose
      [get] returns a valid transport object and every world whose
      registry lacks the name, a transport constructor calling the plugin
      back from inside the first [loggers.add] makes one plugin register
      and hand out two loggers within one millisecond, the second stored
      over the first ([reentrant_build_two_loggers]).
    - Sequentially, a plugin adds at most one logger to winston's
      container over its whole life
      ([facade_creates_at_most_one_logger]).

    ** Bounds and fuel
    Numbers are doubles: [JInt z] stands for the double [z], [JFrac m k]
    for [m / 2^k]; a sum of integers goes through [round_double], a sum
    with a fraction through [round_pos_rat] (which agrees with
    [round_double] on integers, [round_pos_rat_int]); both keep
    the 53 leading bits of the exact sum (below [2^53], [js_safe], it is
    exact: [round_double_exact]) and overflows to [Infinity] at
    [2^1024].  [Number::toString] searches the fewest digits with fuel
    the number of decimal digits of the number, enough since at that
    many digits the number itself reads back ([shortest_from_reads]);
    for a fraction the search is given 30 steps, more than the 17 digits
    that always identify a double, and the decimal exponent of a fraction
    400 steps, more than the 324 decimal places of [2^-1074].
    [replace_all] (chalk's re-opening of
    nested styles) runs on fuel [String.length s], enough because each
    step consumes a character; [replace_all_fuel_no_esc] holds for every
    fuel.  [gl_iter] and [run_n] take a number of steps: an activation
    that reaches [GLLoop logOptions ks] needs [List.length ks + 2] more
    steps and [GLAdd] one or two more ([gl_reaches_getLogger] states
    that some number suffices, [gl_iter_stable] that more change
    nothing).  All other recursion is structural.

    ** Not modelled
    The writes of winston's transports (only the calls that reach the
    logger are recorded), tree-config's deep merge (its [get] is any
    action returning a value), prototype-chain lookups, the sign of
    [-0], dateformat's calendar masks, Node's character-level path
    loops (modelled on segments), and [require]/[module.exports].
    Prototype chains are left out because the module reads only own
    properties of plain objects: [timestamp] and [colorize] are not keys
    of [Object.prototype], and [for .. in] over a plain object visits no
    inherited key.  Objects built with [Object.create] and enumerable
    inherited keys would change [for_in_keys]; tree-config does not
    produce them.  [-0] prints as ["0"] and is [===] to [0], so the
    module cannot tell it apart.  The digits of [num_to_string] on an
    integer are compared with every candidate [s' * 10^e'] with
    [e' >= 0], which loses nothing since a candidate with a fraction that
    reads back as an integer has more digits than that integer; on a
    fraction, that the digits read back and are the fewest is checked on
    examples ([frac_examples]), not proved.

    Reentrancy is modelled for [_getLogger] activations (what a call
    back through [info] or [log] does before it reaches the backend); a
    timestamp closure runs only when winston logs, after line 64 has set
    [this._logger], so it cannot re-enter before the cache is set.  A
    call back from a transport constructor re-enters before
    [winston_create] checks the transport names; in winston the checks
    and the constructions alternate key by key, which changes only which
    error a later unknown key raises.

    ** Plan for later sittings
    dateformat's calendar masks; Node's [basename] loop proved equal to
    the segment model. *)

From stdpp Require Export base list gmap strings.
From Stdlib Require Export ZArith String.

Declare Scope tcl_scope.
Delimit Scope tcl_scope with tcl.

(** ** The state-and-exception monad

    A computation reads and writes a state [S] and may throw an exception
    of type [E].  As in JavaScript, a throw does not undo the writes done
    before it: the state reached at the throw is returned with it. *)

Definition st (S E A : Type) : Type := S -> (E + A) * S.

Section Monad.
Context {S E : Type}.

Definition st_ret {A} (a : A) : st S E A := fun s => (inr a, s).

Definition st_bind {A B} (m : st S E A) (k : A -> st S E B) : st S E B :=
  fun s => match m s with
           | (inr a, s') => k a s'
           | (inl e, s') => (inl e, s')
           end.

Definition st_throw {A} (e : E) : st S E A := fun s => (inl e, s).
Definition st_get : st S E S := fun s => (inr s, s).
Definition st_put (s' : S) : st S E unit := fun _ => (inr tt, s').
Definition st_modify (f : S -> S) : st S E unit := fun s => (inr tt, f s).

(** Iterate an action over a list, left to right, stopping at the first
    exception. *)
Fixpoint st_iter {A} (f : A -> st S E unit) (l : list A) : st S E unit :=
  match l with
  | [] => st_ret tt
  | x :: l' => st_bind (f x) (fun _ => st_iter f l')
  end.
End Monad.

Notation "'let!' x := m 'in' k" := (st_bind m (fun x => k))
  (at level 10, x name, m at level 100, k at level 200) : tcl_scope.
Notation "m ;; k" := (st_bind m (fun _ => k))
  (at level 100, k at level 200, right associativity) : tcl_scope.

Open Scope tcl_scope.

Create HintDb tcl discriminated.
Create Rewrite HintDb tcl_rw.

Section MonadLemmas.
Context {S E : Type}.

Lemma st_bind_ok {A B} (m : st S E A) (k : A -> st S E B) s a s' :
  m s = (inr a, s') -> st_bind m k s = k a s'.
Proof. intros H. unfold st_bind. by rewrite H. Qed.

Lemma st_bind_err {A B} (m : st S E A) (k : A -> st S E B) s e s' :
  m s = (inl e, s') -> st_bind m k s = (inl e, s').
Proof. intros H. unfold st_bind. by rewrite H. Qed.

Lemma st_bind_ret_l {A B} (a : A) (k : A -> st S E B) s :
  st_bind (st_ret a) k s = k a s.
Proof. reflexivity. Qed.

Lemma st_bind_assoc {A B C} (m : st S E A) (k : A -> st S E B)
      (h : B -> st S E C) s :
  st_bind (st_bind m k) h s = st_bind m (fun a => st_bind (k a) h) s.
Proof. unfold st_bind. by destruct (m s) as [[e|a] s']. Qed.

Lemma st_iter_app {A} (f : A -> st S E unit) l1 l2 s :
  st_iter f (l1 ++ l2) s = st_bind (st_iter f l1) (fun _ => st_iter f l2) s.
Proof.
  revert s. induction l1 as [|x l1 IH]; intros s; [done|].
  simpl. rewrite st_bind_assoc. unfold st_bind.
  destruct (f x s) as [[e|[]] s']; [done|]. apply IH.
Qed.
End MonadLemmas.

#[export] Hint Rewrite @st_bind_ret_l @st_bind_assoc : tcl_rw.

(** Unfold the monad's plumbing on a concrete program. *)
Ltac st_unfold :=
  unfold st_bind, st_ret, st_throw, st_get, st_put, st_modify in *.

(** ** Association lists: the own properties of a JavaScript object

    A property write replaces the value in place when the key is present
    and appends it otherwise, so the keys keep their insertion order (the
    order [for .. in] visits them in). *)

Section Alist.
Context {A : Type}.

Fixpoint alist_get (k : string) (o : list (string * A)) : option A :=
  match o with
  | [] => None
  | (k', v) :: o' => if String.eqb k k' then Some v else alist_get k o'
  end.

Fixpoint alist_set (k : string) (v : A) (o : list (string * A))
  : list (string * A) :=
  match o with
  | [] => [(k, v)]
  | (k', v') :: o' =>
      if String.eqb k k' then (k', v) :: o' else (k', v') :: alist_set k v o'
  end.

Definition alist_keys (o : list (string * A)) : list string := map fst o.

Lemma alist_get_set_eq k v o : alist_get k (alist_set k v o) = Some v.
Proof.
  induction o as [|[k' v'] o IH]; simpl.
  - by rewrite String.eqb_refl.
  - destruct (String.eqb k k') eqn:E; simpl; rewrite ?E; [done|].
    exact IH.
Qed.

Lemma alist_get_set_ne k k2 v o :
  k <> k2 -> alist_get k2 (alist_set k v o) = alist_get k2 o.
Proof.
  intros Hne. induction o as [|[k' v'] o IH]; simpl.
  - destruct (String.eqb_spec k2 k); [congruence|done].
  - destruct (String.eqb_spec k k') as [->|]; simpl.
    + destruct (String.eqb_spec k2 k'); [congruence|done].
    + by rewrite IH.
Qed.

Lemma alist_keys_set_present k v o :
  is_Some (alist_get k o) -> alist_keys (alist_set k v o) = alist_keys o.
Proof.
  induction o as [|[k' v'] o IH]; simpl; intros [w Hw]; [done|].
  destruct (String.eqb k k'); simpl; [done|].
  rewrite IH; eauto.
Qed.

Lemma alist_set_id k v o :
  alist_get k o = Some v -> alist_set k v o = o.
Proof.
  induction o as [|[k' v'] o IH]; simpl; [done|].
  destruct (String.eqb_spec k k') as [->|]; intros H.
  - by simplify_eq.
  - by rewrite IH.
Qed.

Lemma alist_set_set k v1 v2 o :
  alist_set k v2 (alist_set k v1 o) = alist_set k v2 o.
Proof.
  induction o as [|[k' v'] o IH]; simpl.
  - by rewrite String.eqb_refl.
  - destruct (String.eqb k k') eqn:E; simpl; rewrite E; [done|].
    by rewrite IH.
Qed.
End Alist.

#[export] Hint Rewrite @alist_get_set_eq @alist_set_set : tcl_rw.
#[export] Hint Resolve alist_get_set_ne alist_set_id : tcl.

(** ** Strings *)

(** [str_contains s t]: [t] occurs in [s] as a contiguous substring. *)
Definition str_contains (s t : string) : Prop :=
  exists pre suf, s = (pre ++ t ++ suf)%string.

Lemma str_contains_middle pre t suf : str_contains (pre ++ t ++ suf)%string t.
Proof. by exists pre, suf. Qed.

#[export] Hint Resolve str_contains_middle : tcl.

Lemma alist_get_keys {A} (o : list (string * A)) n :
  n ∈ alist_keys o -> is_Some (alist_get n o).
Proof.
  induction o as [|[k v] o IH]; simpl; [by intros ?%elem_of_nil|].
  intros [->|Hn]%elem_of_cons.
  - rewrite String.eqb_refl. eauto.
  - destruct (String.eqb n k); eauto.
Qed.

Lemma omap_ext_pw {A B} (f g : A -> option B) (l : list A) :
  (forall x, f x = g x) -> omap f l = omap g l.
Proof.
  intros Hfg. induction l as [|x l IH]; [done|].
  change (omap f (x :: l)) with (match f x with Some y => y :: omap f l | None => omap f l end).
  change (omap g (x :: l)) with (match g x with Some y => y :: omap g l | None => omap g l end).
  rewrite Hfg, IH. done.
Qed.

Lemma alist_get_in_keys {A} (o : list (string * A)) n v :
  alist_get n o = Some v -> n ∈ alist_keys o.
Proof.
  induction o as [|[k w] o IH]; simpl; [done|].
  destruct (String.eqb_spec n k) as [->|]; intros Hv.
  - apply elem_of_cons. by left.
  - apply elem_of_cons. right. eauto.
Qed.

(** An iteration whose every step succeeds without effect has no effect. *)
Lemma st_iter_noop {S E A} (f : A -> st S E unit) (l : list A) (s : S) :
  (forall x, x ∈ l -> f x s = (inr tt, s)) -> st_iter f l s = (inr tt, s).
Proof.
  induction l as [|x l IH]; intros Hf; [done|]. simpl. unfold st_bind.
  rewrite Hf by (apply elem_of_cons; by left).
  apply IH. intros y Hy. apply Hf, elem_of_cons. by right.
Qed.

Lemma string_get_lt s i : i < String.length s -> is_Some (String.get i s).
Proof.
  revert i. induction s as [|c s IH]; intros [|i] Hi; simpl in *; try lia; eauto.
  apply IH. lia.
Qed.

(** Split a hypothesis [st_bind m k s = r] on the outcome of [m s]. *)
Ltac st_split H :=
  lazymatch type of H with
  | st_bind ?m ?k ?s = _ =>
      let E := fresh "E" in
      destruct (m s) as [[?e|?a] ?s'] eqn:E;
      [rewrite (st_bind_err m k s _ _ E) in H
      |rewrite (st_bind_ok m k s _ _ E) in H; cbv beta in H]
  end.

Lemma string_app_inv_l (s a b : string) : (s ++ a)%string = (s ++ b)%string -> a = b.
Proof. induction s as [|c s IH]; simpl; [done|]. intros [=]. auto. Qed.

Lemma alist_get_In {A} (o : list (string * A)) n v :
  alist_get n o = Some v -> In (n, v) o.
Proof.
  induction o as [|[k w] o IH]; simpl; [done|].
  destruct (String.eqb_spec n k) as [->|]; intros Hv; [left; congruence|auto].
Qed.

Lemma string_app_nil_r (s : string) : (s ++ "")%string = s.
Proof.
  induction s as [|c s IH]; [done|].
  change (String c (s ++ "") = String c s). by rewrite IH.
Qed.

(** [String.append] does not unfold by [simpl] under stdpp. *)
Lemma string_app_cons c (s t : string) : (String c s ++ t)%string = String c (s ++ t).
Proof. reflexivity. Qed.

#[export] Hint Rewrite string_app_nil_r : tcl_rw.

Lemma string_app_assoc (a b c : string) : ((a ++ b) ++ c)%string = (a ++ b ++ c)%string.
Proof.
  induction a as [|x a IH]; [done|]. rewrite !string_app_cons. by rewrite IH.
Qed.

(** ** Actions that keep a relation between the state before and after

    [st_keeps R m]: whatever [m] returns or throws, the state it ends in
    is [R]-related to the state it started from.  For a preorder [R] this
    goes through [st_bind] and [st_iter], so a frame property (what an
    action leaves alone) or an invariant ([fun s s' => P s -> P s']) of a
    whole method follows from the one of each statement. *)
Definition st_keeps {S E A} (R : relation S) (m : st S E A) : Prop :=
  forall s r s', m s = (r, s') -> R s s'.

Section Keeps.
Context {S E : Type} (R : relation S) `{!PreOrder R}.

Lemma st_keeps_ret {A} (a : A) : st_keeps (E:=E) R (st_ret a).
Proof. intros s r s' [= _ <-]. reflexivity. Qed.

Lemma st_keeps_throw {A} (e : E) : st_keeps (A:=A) R (st_throw e).
Proof. intros s r s' [= _ <-]. reflexivity. Qed.

Lemma st_keeps_bind {A B} (m : st S E A) (k : A -> st S E B) :
  st_keeps R m -> (forall a, st_keeps R (k a)) -> st_keeps R (st_bind m k).
Proof.
  intros Hm Hk s r s'. unfold st_bind. destruct (m s) as [[e|a] s1] eqn:Hms.
  - intros [= _ <-]. by eapply Hm.
  - intros H. transitivity s1; [by eapply Hm|by eapply Hk].
Qed.

Lemma st_keeps_iter {A} (f : A -> st S E unit) l :
  (forall a, st_keeps R (f a)) -> st_keeps R (st_iter f l).
Proof.
  intros Hf. induction l as [|x l IH]; simpl; [apply st_keeps_ret|].
  by apply st_keeps_bind.
Qed.
End Keeps.

#[export] Hint Resolve st_keeps_ret st_keeps_throw st_keeps_bind st_keeps_iter : tcl.
#[export] Hint Extern 1 (PreOrder _) => typeclasses eauto : tcl.

(** One statement of a [st_keeps] goal: return, throw, bind or loop. *)
Ltac st_keeps_step :=
  first [ apply st_keeps_ret; typeclasses eauto
        | apply st_keeps_throw; typeclasses eauto
        | apply st_keeps_bind; [typeclasses eauto| |]
        | apply st_keeps_iter; [typeclasses eauto|] ].

(** ** Membership in a stack and a list of finished entries *)

Lemma elem_of_push {A} (x y : A) l1 l2 : x ∈ l1 ++ l2 -> x ∈ (y :: l1) ++ l2.
Proof. intros H. cbn. apply elem_of_cons. by right. Qed.

Lemma elem_of_pop {A} (x y : A) l1 l2 : x ∈ l1 ++ l2 ++ [y] -> x ∈ (y :: l1) ++ l2.
Proof.
  intros H. cbn. rewrite elem_of_cons, elem_of_app.
  rewrite !elem_of_app, list_elem_of_singleton in H. tauto.
Qed.

#[export] Hint Resolve elem_of_push elem_of_pop : tcl.

(** An invariant [P] as a relation between the states before and after. *)
Definition preserves {S} (P : S -> Prop) : relation S := fun s s' => P s -> P s'.

#[export] Instance preserves_preorder {S} (P : S -> Prop) : PreOrder (preserves P).
Proof. split; [by intros s ?|]. intros s1 s2 s3 H12 H23 H1. auto. Qed.

Lemma string_length_app (s t : string) :
  String.length (s ++ t) = (String.length s + String.length t)%nat.
Proof. induction s as [|c s IH]; [done|]. rewrite string_app_cons. cbn. by rewrite IH. Qed.
