(* ===== verification/JsNumber.v ===== *)
(** * JavaScript numbers: doubles, their sum and their text

    The module adds and prints numbers at two places: [this.config.id +
    (new Date()).getTime()] (line 63) and [n + ''] (line 23).  A number
    of JavaScript is an IEEE-754 double: [JInt z] is the double [z] (an
    integer), [JFrac m k] the double [m / 2^k] with a fraction ([m] odd,
    down to the subnormal [2^-1074]), and [NaN] and the infinities.  The
    sign of [-0] is not kept: neither [n + ''] nor [===] tells it apart.
    - [round_div], [round_at]: rounding to nearest, a tie to even;
      [round_double z], the double nearest to the integer [z] ([Infinity]
      from [2^1024]); [round_pos_rat N D], the double nearest to the
      fraction [N / D], subnormals included; [round_dyadic] with a sign.
    - [num_add]: [+] on two numbers, the exact sum rounded.
    - [int_to_js_string]: [Number::toString] on an integer-valued double:
      the fewest decimal digits [s] and exponent [e] such that [s * 10^e]
      reads back as the number (the closer of two candidates, a tie to
      the even one), printed as the digits followed by [e] zeros while the
      number has at most 21 digits, in exponent form ([1.5e+21]) beyond.
    - [frac_to_js_string]: the same search on a double with a fraction,
      laid out by [format_digits] as ECMAScript does: [123.456],
      [0.000001], [1e-7].
    - [Z_to_dec]: the exact decimal numeral of the Standard Library, which
      [Number::toString] produces on every integer below [2^53] in
      absolute value ([int_to_js_string_safe]).
    The theorems: the equivalence below [2^53] ([num_to_string_safe]),
    the round trip of the printed digits on every positive integer-valued
    double ([shortest_reads]), and the rounding of sums in the binade
    [[2^53, 2^54)] ([round_double_exact], [round_double_tie]); the
    examples evaluate the printing of fractions ([frac_examples]). *)

From S2P Require Import Prelude.
From Stdlib Require Import NArith Ascii Decimal DecimalString DecimalZ DecimalPos.

Inductive jsnum : Type :=
| JInt (z : Z)
  (** the double [m / 2^k] that is not an integer, [m] odd *)
| JFrac (m : Z) (k : positive)
| JNaN
| JInf (neg : bool).

#[export] Instance jsnum_eq_dec : EqDecision jsnum.
Proof. solve_decision. Defined.

Definition js_max_safe : Z := 2 ^ 53 - 1.
Definition js_safe (z : Z) : Prop := (- js_max_safe <= z <= js_max_safe)%Z.

(** The exact decimal numeral: an optional minus sign and the digits
    without leading zeros. *)
Definition Z_to_dec (z : Z) : string := NilEmpty.string_of_int (Z.to_int z).

(** The inverse reading of a decimal numeral. *)
Definition dec_to_Z (s : string) : option Z :=
  option_map Z.of_int (NilEmpty.int_of_string s).

(** ** Doubles *)

Local Open Scope Z_scope.

(** [num / den] rounded to an integer: to the nearest, a tie to the
    even one. *)
Definition round_div (num den : Z) : Z :=
  let q := num / den in
  let r := num mod den in
  if (2 * r <? den) || ((2 * r =? den) && Z.even q) then q else q + 1.

(** [z] rounded to a multiple of [p]. *)
Definition round_at (p z : Z) : Z := round_div z p * p.

(** The number of low bits of [a] a double cannot hold: all but the 53
    leading ones. *)
Definition round_sh (a : Z) : Z := Z.max 0 (Z.log2 a - 52).

(** The magnitude of the double nearest to [a >= 0]. *)
Definition round_mag (a : Z) : Z := round_at (2 ^ round_sh a) a.

(** The double nearest to [z]: keep the 53 leading bits of [|z|], round
    the bits shifted out to nearest, a tie to an even significand;
    [Infinity] from [2^1024] on. *)
Definition round_double (z : Z) : jsnum :=
  let m := round_mag (Z.abs z) in
  if 2 ^ 1024 <=? m then JInf (z <? 0) else JInt (Z.sgn z * m).

(** ** Doubles with a fraction *)

Fixpoint pos_ctz (p : positive) : nat :=
  match p with xO q => S (pos_ctz q) | _ => O end.

(** The number of trailing zero bits of [z <> 0]. *)
Definition Z_ctz (z : Z) : Z :=
  match z with Zpos p | Zneg p => Z.of_nat (pos_ctz p) | Z0 => 0 end.

(** The number [M / 2^k] ([k >= 0]) in lowest terms. *)
Definition mk_num (M k : Z) : jsnum :=
  if M =? 0 then JInt 0 else
  let t := Z.min (Z_ctz M) k in
  match k - t with
  | Zpos k' => JFrac (M / 2 ^ t) k'
  | _ => JInt (M / 2 ^ t)
  end.

(** [N / D >= 2^e], for [D > 0]. *)
Definition ge_pow2 (N D e : Z) : bool :=
  if 0 <=? e then D * 2 ^ e <=? N else D <=? N * 2 ^ (- e).

(** The double nearest to [N / D] ([N >= 0], [D > 0]): [fl] is
    [floor (log2 (N / D))], the last bit kept is [2^q] with 53 bits kept
    and [q >= -1074] (the subnormals), the bits below are rounded to
    nearest, a tie to an even significand; [Infinity] from [2^1024]. *)
Definition round_pos_rat (N D : Z) : jsnum :=
  if N =? 0 then JInt 0 else
  let lg := Z.log2 N - Z.log2 D in
  let fl := if ge_pow2 N D lg then lg else lg - 1 in
  let q := Z.max (fl - 52) (-1074) in
  let num := if 0 <=? q then N else N * 2 ^ (- q) in
  let den := if 0 <=? q then D * 2 ^ q else D in
  let s' := round_div num den in
  if 0 <=? q then
    (if 2 ^ 1024 <=? s' * 2 ^ q then JInf false else JInt (s' * 2 ^ q))
  else mk_num s' (- q).

Definition num_neg (x : jsnum) : jsnum :=
  match x with
  | JInt z => JInt (- z)
  | JFrac m k => JFrac (- m) k
  | JInf b => JInf (negb b)
  | JNaN => JNaN
  end.

(** The double nearest to [M / 2^k]. *)
Definition round_dyadic (M : Z) (k : positive) : jsnum :=
  let r := round_pos_rat (Z.abs M) (2 ^ Z.pos k) in
  if M <? 0 then num_neg r else r.

(** Binary [+] on two numbers: the exact sum, rounded. *)
Definition num_add (a b : jsnum) : jsnum :=
  match a, b with
  | JInt x, JInt y => round_double (x + y)
  | JInt x, JFrac m k | JFrac m k, JInt x => round_dyadic (x * 2 ^ Z.pos k + m) k
  | JFrac m1 k1, JFrac m2 k2 =>
      round_dyadic (m1 * 2 ^ Z.pos k2 + m2 * 2 ^ Z.pos k1) (k1 + k2)
  | JInf s, (JInt _ | JFrac _ _) | (JInt _ | JFrac _ _), JInf s => JInf s
  | JInf s, JInf t => if Bool.eqb s t then JInf s else JNaN
  | _, _ => JNaN
  end.

(** ** [Number::toString] *)

(** [s * 10^e] reads back as the double [x]. *)
Definition reads_as (s e x : Z) : bool :=
  match round_double (s * 10 ^ e) with JInt y => Z.eqb y x | _ => false end.

(** The number of decimal digits of a positive integer. *)
Definition dec_len (x : Z) : Z := Z.of_nat (String.length (Z_to_dec x)).

(** Try [k] significant digits, then [k + 1], ...: the two [k]-digit
    candidates around [x] (of [d] digits) are [x / 10^(d-k)] and the next
    one. *)
Fixpoint shortest_from (fuel : nat) (k d x : Z) : Z * Z :=
  match fuel with
  | O => (x, 0)
  | S fuel' =>
      let e := d - k in
      let lo := x / 10 ^ e in
      let hi := lo + 1 in
      match reads_as lo e x, reads_as hi e x with
      | true, true =>
          let dl := x - lo * 10 ^ e in
          let dh := hi * 10 ^ e - x in
          if (dl <? dh) || ((dl =? dh) && Z.even lo) then (lo, e) else (hi, e)
      | true, false => (lo, e)
      | false, true => (hi, e)
      | false, false => shortest_from fuel' (k + 1) d x
      end
  end.

(** The shortest digits and exponent of a positive double; the one
    candidate with a carry ([10] at one digit) is written [1] with one
    more zero. *)
Definition shortest (x : Z) : Z * Z :=
  let d := dec_len x in
  let '(s, e) := shortest_from (Z.to_nat d) 1 d x in
  if s mod 10 =? 0 then (s / 10, e + 1) else (s, e).

Fixpoint zeros (n : nat) : string :=
  match n with O => "" | S n' => String "0"%char (zeros n') end.

Definition int_to_js_string (z : Z) : string :=
  if z =? 0 then "0" else
  let '(s, e) := shortest (Z.abs z) in
  let ds := Z_to_dec s in
  let n := Z.of_nat (String.length ds) + e in
  ((if (z <? 0)%Z then "-" else "") ++
   if (n <=? 21)%Z then ds ++ zeros (Z.to_nat e)
   else match ds with
        | String c rest =>
            String c ((if String.eqb rest "" then "" else "." ++ rest) ++
                      "e+" ++ Z_to_dec (n - 1)%Z)
        | EmptyString => ""
        end)%string.

(** ** [Number::toString] on a double with a fraction *)

(** [n] with [10^(n-1) <= P / Q < 10^n], for [P / Q < 1]: the first
    [j >= 1] with [P * 10^j >= Q] gives [n = 1 - j]; a double is at least
    [2^-1074 > 10^-324], so 400 steps reach it. *)
Fixpoint frac_exp_from (fuel : nat) (j P Q : Z) : Z :=
  match fuel with
  | O => 1 - j
  | S f => if Q <=? P * 10 ^ j then 1 - j else frac_exp_from f (j + 1) P Q
  end.

Definition dec_exp (P Q : Z) : Z :=
  if Q <=? P then dec_len (P / Q) else frac_exp_from 400 1 P Q.

(** [s * 10^e] as a fraction. *)
Definition dec_val (s e : Z) : Z * Z :=
  if 0 <=? e then (s * 10 ^ e, 1) else (s, 10 ^ (- e)).

(** [s * 10^e] reads back as the double [P / Q]. *)
Definition reads_as_frac (s e P Q : Z) : bool :=
  let '(N, D) := dec_val s e in
  match round_pos_rat N D with
  | JFrac m k => m * Q =? P * 2 ^ Z.pos k
  | JInt z => z * Q =? P
  | _ => false
  end.

(** [floor (P / Q / 10^e)] *)
Definition scale_floor (P Q e : Z) : Z :=
  if 0 <=? e then P / (Q * 10 ^ e) else P * 10 ^ (- e) / Q.

(** The distances from [P / Q] down to [lo * 10^e] and up to
    [(lo + 1) * 10^e], over a common denominator. *)
Definition frac_dists (P Q lo e : Z) : Z * Z :=
  if 0 <=? e then (P - lo * Q * 10 ^ e, (lo + 1) * Q * 10 ^ e - P)
  else (P * 10 ^ (- e) - lo * Q, (lo + 1) * Q - P * 10 ^ (- e)).

(** As [shortest_from]: [k] significant digits, then [k + 1], ... *)
Fixpoint frac_digits_from (fuel : nat) (k n P Q : Z) : Z * Z :=
  match fuel with
  | O => (scale_floor P Q (n - k), n - k)
  | S f =>
      let e := n - k in
      let lo := scale_floor P Q e in
      let hi := lo + 1 in
      match reads_as_frac lo e P Q, reads_as_frac hi e P Q with
      | true, true =>
          let '(dl, dh) := frac_dists P Q lo e in
          if (dl <? dh) || ((dl =? dh) && Z.even lo) then (lo, e) else (hi, e)
      | true, false => (lo, e)
      | false, true => (hi, e)
      | false, false => frac_digits_from f (k + 1) n P Q
      end
  end.

(** The shortest digits of the positive double [P / Q]: 17 digits
    always identify a double, the fuel leaves room to spare. *)
Definition frac_shortest (P Q : Z) : Z * Z :=
  let '(s, e) := frac_digits_from 30 1 (dec_exp P Q) P Q in
  if s mod 10 =? 0 then (s / 10, e + 1) else (s, e).

(** The layout of [Number::toString] for the digits [ds] ([k] of them)
    of a number with [10^(n-1) <= |x| < 10^n]: integer form, point
    inside the digits, [0.00...] form, or exponent form. *)
Definition format_digits (ds : string) (n : Z) : string :=
  let k := Z.of_nat (String.length ds) in
  if (k <=? n) && (n <=? 21) then (ds ++ zeros (Z.to_nat (n - k)))%string
  else if (0 <? n) && (n <=? 21) then
    (substring 0%nat (Z.to_nat n) ds ++ "." ++ substring (Z.to_nat n) (Z.to_nat (k - n)%Z) ds)%string
  else if (-6 <? n) && (n <=? 0) then ("0." ++ zeros (Z.to_nat (- n)) ++ ds)%string
  else
    let es := ((if (0 <=? n - 1)%Z then "+" else "-") ++ Z_to_dec (Z.abs (n - 1)%Z))%string in
    match ds with
    | String c rest =>
        String c ((if String.eqb rest "" then "" else "." ++ rest) ++ "e" ++ es)%string
    | EmptyString => ""
    end.

Definition frac_to_js_string (m : Z) (k : positive) : string :=
  let '(s, e) := frac_shortest (Z.abs m) (2 ^ Z.pos k) in
  let ds := Z_to_dec s in
  ((if (m <? 0)%Z then "-" else "") ++ format_digits ds (Z.of_nat (String.length ds) + e)%Z)%string.

(** [Number::toString] *)
Definition num_to_string (n : jsnum) : string :=
  match n with
  | JInt z => int_to_js_string z
  | JFrac m k => frac_to_js_string m k
  | JNaN => "NaN"
  | JInf false => "Infinity"
  | JInf true => "-Infinity"
  end.

Example num_to_string_examples :
  num_to_string (JInt 45296789) = "45296789" /\
  num_to_string (JInt (- 2 ^ 53)) = "-9007199254740992" /\
  num_to_string (JInt (2 ^ 60)) = "1152921504606847000" /\
  num_to_string (JInt (2 ^ 70)) = "1.1805916207174113e+21" /\
  num_to_string (JInt (10 ^ 21)) = "1e+21" /\
  num_to_string (JInt (2 ^ 1023)) = "8.98846567431158e+307".
Proof. vm_compute. repeat split. Qed.

(** Doubles with a fraction: [0.1 + 0.2], the layouts, the subnormals,
    ties and overflow. *)
Example frac_examples :
  let d01 := round_pos_rat 1 10 in
  let d02 := round_pos_rat 2 10 in
  d01 = JFrac 3602879701896397 55 /\
  num_to_string (num_add d01 d02) = "0.30000000000000004" /\
  num_to_string (JFrac 3 1) = "1.5" /\
  num_to_string (JFrac (-1) 1) = "-0.5" /\
  num_to_string (JFrac 1 1074) = "5e-324" /\
  num_to_string (round_pos_rat 1 (10 ^ 7)) = "1e-7" /\
  num_to_string (round_pos_rat 1 (10 ^ 6)) = "0.000001" /\
  num_to_string (round_pos_rat 123456 1000) = "123.456" /\
  num_to_string (round_pos_rat 1 3) = "0.3333333333333333" /\
  num_to_string (num_add (JInt 1700000000000) (JFrac 1 1)) = "1700000000000.5" /\
  num_add (JInt (2 ^ 53)) (JFrac 1 1) = JInt (2 ^ 53) /\
  num_add (JFrac 1 1) (JFrac 1 1) = JInt 1 /\
  round_pos_rat 1 (2 ^ 1075) = JInt 0 /\
  round_pos_rat (2 ^ 1024 - 2 ^ 970) 1 = JInf false.
Proof. vm_compute. repeat split. Qed.

Example num_add_examples :
  num_add (JInt (2 ^ 53)) (JInt 1) = JInt (2 ^ 53) /\
  num_add (JInt (2 ^ 53)) (JInt 3) = JInt (2 ^ 53 + 4) /\
  num_add (JInt ((2 ^ 53 - 1) * 2 ^ 971)) (JInt (2 ^ 970)) = JInf false /\
  num_add (JInf false) (JInf true) = JNaN.
Proof. vm_compute. repeat split. Qed.

(** ** The decimal numeral *)

(** The decimal numeral of an integer reads back as that integer. *)
Lemma dec_to_Z_Z_to_dec z : dec_to_Z (Z_to_dec z) = Some z.
Proof.
  unfold dec_to_Z, Z_to_dec. rewrite NilEmpty.isi. simpl.
  by rewrite DecimalZ.of_to.
Qed.

Lemma Z_to_dec_inj z1 z2 : Z_to_dec z1 = Z_to_dec z2 -> z1 = z2.
Proof.
  intros H. apply (f_equal dec_to_Z) in H.
  rewrite !dec_to_Z_Z_to_dec in H. by simplify_eq.
Qed.

(** ... and is never empty. *)
Lemma Z_to_dec_nonempty z : Z_to_dec z <> "".
Proof.
  intros He. pose proof (dec_to_Z_Z_to_dec z) as Hz. rewrite He in Hz.
  simpl in Hz. injection Hz as <-. vm_compute in He. discriminate He.
Qed.

Lemma Z_to_dec_neg p : Z_to_dec (Z.neg p) = ("-" ++ Z_to_dec (Z.pos p))%string.
Proof. reflexivity. Qed.

Lemma to_lu_add p k :
  DecimalPos.Unsigned.to_lu (10 * N.pos p + N.of_nat k)%N =
  Nat.iter k Little.succ (D0 (DecimalPos.Unsigned.to_lu (N.pos p))).
Proof.
  induction k as [|k IH].
  - rewrite N.add_0_r. apply DecimalPos.Unsigned.to_ldec_tenfold.
  - rewrite Nat2N.inj_succ, N.add_succ_r, DecimalPos.Unsigned.to_lu_succ, IH.
    reflexivity.
Qed.

Lemma string_of_revapp u d :
  NilEmpty.string_of_uint (revapp u d) =
  (NilEmpty.string_of_uint (revapp u Nil) ++ NilEmpty.string_of_uint d)%string.
Proof.
  revert d. induction u as [|u IH|u IH|u IH|u IH|u IH|u IH|u IH|u IH|u IH|u IH];
    intros d; [reflexivity|..]; cbn [revapp]; rewrite IH, (IH (_ Nil));
    rewrite string_app_assoc; reflexivity.
Qed.

(** Appending a digit: the numeral of [10 q + r] is the numeral of [q]
    followed by the digit [r]. *)
Lemma Z_to_dec_snoc q r :
  0 < q -> 0 <= r < 10 -> Z_to_dec (10 * q + r) = (Z_to_dec q ++ Z_to_dec r)%string.
Proof.
  intros Hq Hr. destruct q as [|p|p]; try lia.
  destruct (Z_of_nat_complete r ltac:(lia)) as [k ->].
  assert (k < 10)%nat as Hk by lia.
  assert (exists p', 10 * Z.pos p + Z.of_nat k = Z.pos p' /\
                     (10 * N.pos p + N.of_nat k)%N = N.pos p') as (p' & Hz & Hn).
  { destruct (10 * N.pos p + N.of_nat k)%N as [|p'] eqn:E;
      apply (f_equal Z.of_N) in E as Ez; rewrite N2Z.inj_add, N2Z.inj_mul, nat_N_Z in Ez;
      cbn in Ez; [lia|]. exists p'. split; [lia|done]. }
  rewrite Hz. unfold Z_to_dec. cbn [Z.to_int NilEmpty.string_of_int].
  unfold Pos.to_uint.
  change (Pos.to_little_uint p') with (DecimalPos.Unsigned.to_lu (N.pos p')).
  change (Pos.to_little_uint p) with (DecimalPos.Unsigned.to_lu (N.pos p)).
  rewrite <- Hn, to_lu_add. set (u := DecimalPos.Unsigned.to_lu (N.pos p)).
  unfold rev.
  do 10 (destruct k as [|k]; [cbn [Nat.iter nat_rect Little.succ revapp];
    match goal with |- context [revapp u (?D Nil)] => rewrite (string_of_revapp u (D Nil)) end;
    reflexivity|]). lia.
Qed.

Lemma zeros_snoc n : (zeros n ++ "0")%string = zeros (S n).
Proof. induction n as [|n IH]; [done|]. cbn [zeros]. rewrite string_app_cons. by rewrite IH. Qed.

(** The numeral of [s * 10^e] is the numeral of [s] followed by [e]
    zeros. *)
Lemma Z_to_dec_shift s n :
  0 < s -> Z_to_dec (s * 10 ^ Z.of_nat n) = (Z_to_dec s ++ zeros n)%string.
Proof.
  intros Hs. induction n as [|n IH].
  - cbn. rewrite Z.mul_1_r. by rewrite string_app_nil_r.
  - rewrite Nat2Z.inj_succ, Z.pow_succ_r by lia.
    replace (s * (10 * 10 ^ Z.of_nat n)) with (10 * (s * 10 ^ Z.of_nat n) + 0) by lia.
    rewrite Z_to_dec_snoc, IH by (try apply Z.mul_pos_pos; lia).
    rewrite string_app_assoc. change (Z_to_dec 0) with "0". by rewrite zeros_snoc.
Qed.

Lemma len_digit r : 0 <= r < 10 -> String.length (Z_to_dec r) = 1%nat.
Proof.
  intros Hr. assert (r = 0 \/ r = 1 \/ r = 2 \/ r = 3 \/ r = 4 \/ r = 5 \/ r = 6 \/
                     r = 7 \/ r = 8 \/ r = 9) as Hc by lia.
  repeat destruct Hc as [->|Hc]; try reflexivity. subst. reflexivity.
Qed.

(** A positive integer below [10^m] has at most [m] digits. *)
Lemma dec_len_le x m : 0 < x < 10 ^ Z.of_nat m -> dec_len x <= Z.of_nat m.
Proof.
  revert x. induction m as [|m IH]; intros x Hx; [cbn in Hx; lia|].
  destruct (decide (x < 10)) as [Hlt|Hge].
  { unfold dec_len. rewrite len_digit by lia. lia. }
  rewrite Nat2Z.inj_succ, Z.pow_succ_r in Hx by lia.
  rewrite (Z.div_mod x 10) by lia. unfold dec_len.
  rewrite Z_to_dec_snoc by (try apply Z.div_str_pos; try apply Z.mod_pos_bound; lia).
  rewrite string_length_app.
  assert (0 < x / 10 < 10 ^ Z.of_nat m) as Hq.
  { split; [apply Z.div_str_pos; lia|]. apply Z.div_lt_upper_bound; lia. }
  specialize (IH _ Hq). unfold dec_len in IH.
  rewrite (len_digit (x mod 10)); [lia|]. apply Z.mod_pos_bound. lia.
Qed.

(** ** Rounding to doubles *)

Lemma sgn_mul_abs z : Z.sgn z * Z.abs z = z.
Proof. by destruct z. Qed.

(** Below [2^53] every integer is a double. *)
Lemma round_double_exact z : Z.abs z < 2 ^ 53 -> round_double z = JInt z.
Proof.
  intros Hz. unfold round_double, round_mag, round_at, round_div, round_sh.
  assert (Z.max 0 (Z.log2 (Z.abs z) - 52) = 0) as ->.
  { destruct (decide (Z.abs z = 0)) as [->|Hne]; [done|].
    apply Z.log2_lt_pow2 in Hz; lia. }
  rewrite Z.pow_0_r, Z.div_1_r, Z.mod_1_r, Z.mul_1_r.
  replace (2 * 0 <? 1) with true by reflexivity. cbn [orb].
  rewrite (proj2 (Z.leb_gt _ _)) by lia. by rewrite sgn_mul_abs.
Qed.

(** From [2^53] on, the double nearest to a positive integer is at least
    [2^53]. *)
Lemma round_double_big z y : 2 ^ 53 <= z -> round_double z = JInt y -> 2 ^ 53 <= y.
Proof.
  intros Hz. unfold round_double, round_mag, round_at, round_div, round_sh.
  rewrite Z.abs_eq by lia.
  assert (53 <= Z.log2 z) as Hl by (apply Z.log2_le_pow2; lia).
  rewrite Z.max_r by lia. set (sh := Z.log2 z - 52).
  assert (2 ^ 52 <= z / 2 ^ sh) as Hq.
  { apply Z.div_le_lower_bound; [apply Z.pow_pos_nonneg; lia|].
    rewrite <- Z.pow_add_r by lia. replace (sh + 52) with (Z.log2 z) by lia.
    apply Z.log2_spec. lia. }
  assert (0 < 2 ^ sh) by (apply Z.pow_pos_nonneg; lia).
  assert (2 ^ 53 <= 2 ^ 52 * 2 ^ sh) as Hs.
  { rewrite <- Z.pow_add_r by lia. apply Z.pow_le_mono_r; lia. }
  set (q := z / 2 ^ sh).
  match goal with |- context [if ?b then q else q + 1] => destruct b end;
    (destruct (2 ^ 1024 <=? _); [done|]); rewrite Z.sgn_pos by lia; intros [= <-]; nia.
Qed.

(** A double below [2^53] is read back from [c * 10^e] exactly when
    [c * 10^e] is that integer. *)
Lemma reads_as_safe c e x :
  0 < x < 2 ^ 53 -> 0 <= c -> 0 <= e -> reads_as c e x = true <-> c * 10 ^ e = x.
Proof.
  intros Hx Hc He. assert (0 <= 10 ^ e) by (apply Z.pow_nonneg; lia).
  unfold reads_as. split.
  - destruct (decide (c * 10 ^ e < 2 ^ 53)) as [Hlt|Hge].
    + rewrite round_double_exact by (rewrite Z.abs_eq; nia). by intros ?%Z.eqb_eq.
    + destruct (round_double (c * 10 ^ e)) as [y| | |] eqn:E; try done.
      apply round_double_big in E; [|lia]. intros ?%Z.eqb_eq. lia.
  - intros <-. rewrite round_double_exact by (rewrite Z.abs_eq; nia). apply Z.eqb_refl.
Qed.

(** ** The shortest digits of a safe integer are its digits *)

Lemma shortest_from_safe fuel k d x :
  0 < x < 2 ^ 53 -> 1 <= k <= d -> (Z.to_nat (d - k) < fuel)%nat ->
  let '(s, e) := shortest_from fuel k d x in 0 < s /\ 0 <= e /\ s * 10 ^ e = x.
Proof.
  revert k. induction fuel as [|fuel IH]; intros k Hx Hk Hf; [lia|].
  cbn [shortest_from].
  assert (0 < 10 ^ (d - k)) by (apply Z.pow_pos_nonneg; lia).
  assert (0 <= x / 10 ^ (d - k)) by (apply Z.div_pos; lia).
  assert (reads_as (x / 10 ^ (d - k) + 1) (d - k) x = false) as ->.
  { apply not_true_iff_false. rewrite reads_as_safe by lia.
    pose proof (Z.mul_succ_div_gt x (10 ^ (d - k)) ltac:(lia)). nia. }
  destruct (reads_as (x / 10 ^ (d - k)) (d - k) x) eqn:Hlo.
  - apply reads_as_safe in Hlo; [|lia|lia|lia]. split_and!; [nia|lia|done].
  - destruct (decide (k = d)) as [->|Hne].
    + exfalso. revert Hlo. rewrite Z.sub_diag, Z.pow_0_r, Z.div_1_r.
      rewrite (proj2 (reads_as_safe x 0 x Hx ltac:(lia) ltac:(lia))); [done|lia].
    + apply IH; [done|lia|lia].
Qed.

Lemma dec_len_pos x : 1 <= dec_len x.
Proof.
  unfold dec_len. pose proof (Z_to_dec_nonempty x).
  destruct (Z_to_dec x); [done|]. cbn. lia.
Qed.

Lemma shortest_safe x :
  0 < x < 2 ^ 53 -> let '(s, e) := shortest x in 0 < s /\ 0 <= e /\ s * 10 ^ e = x.
Proof.
  intros Hx. unfold shortest. pose proof (dec_len_pos x) as Hlen.
  pose proof (shortest_from_safe (Z.to_nat (dec_len x)) 1 (dec_len x) x Hx
                ltac:(lia) ltac:(lia)) as Hsf.
  destruct (shortest_from _ _ _ _) as [s e]. destruct Hsf as (Hs & He & Hse).
  destruct (Z.eqb_spec (s mod 10) 0) as [H0|_]; [|done].
  pose proof (Z.div_mod s 10 ltac:(lia)) as Hdm. rewrite H0 in Hdm.
  split_and!; [nia|lia|]. rewrite Z.pow_add_r by lia. nia.
Qed.

Lemma zeros_length n : String.length (zeros n) = n.
Proof. induction n as [|n IH]; [done|]. cbn. by rewrite IH. Qed.

(** Equivalence of [Number::toString] with the decimal numeral on the
    integers of absolute value below [2^53]. *)
Lemma int_to_js_string_safe z : js_safe z -> int_to_js_string z = Z_to_dec z.
Proof.
  intros Hz. unfold js_safe, js_max_safe in Hz. unfold int_to_js_string.
  destruct (Z.eqb_spec z 0) as [->|Hz0]; [done|].
  pose proof (shortest_safe (Z.abs z) ltac:(lia)) as Hs.
  destruct (shortest (Z.abs z)) as [s e]. destruct Hs as (Hs & He & Hse).
  assert (Z_to_dec (Z.abs z) = (Z_to_dec s ++ zeros (Z.to_nat e))%string) as Hd.
  { rewrite <- Z_to_dec_shift by lia. f_equal. rewrite Z2Nat.id; lia. }
  assert (Z.of_nat (String.length (Z_to_dec s)) + e <= 21) as Hn.
  { assert (dec_len (Z.abs z) <= Z.of_nat 16) as Hl by (apply dec_len_le; cbn; lia).
    unfold dec_len in Hl. rewrite Hd, string_length_app, zeros_length in Hl. lia. }
  rewrite (proj2 (Z.leb_le _ _) Hn), <- Hd.
  destruct z as [|p|p]; [done|reflexivity|reflexivity].
Qed.

(** [n + ''] on a number [n] that is an integer below [2^53] in
    absolute value: the exact decimal numeral of [n], which reads back as
    [n]. *)
Lemma num_to_string_safe z :
  js_safe z ->
  num_to_string (JInt z) = Z_to_dec z /\ dec_to_Z (num_to_string (JInt z)) = Some z.
Proof.
  intros Hz. cbn [num_to_string]. rewrite int_to_js_string_safe by done.
  split; [done|apply dec_to_Z_Z_to_dec].
Qed.

Lemma int_to_js_string_inj_safe z1 z2 :
  js_safe z1 -> js_safe z2 -> int_to_js_string z1 = int_to_js_string z2 -> z1 = z2.
Proof.
  intros H1 H2. rewrite !int_to_js_string_safe by done. apply Z_to_dec_inj.
Qed.

(** ** Rounding in the binade [[2^53, 2^54)], where doubles are the even integers *)

Lemma log2_binade53 x : 2 ^ 53 <= x < 2 ^ 54 -> Z.log2 x = 53.
Proof. intros. apply Z.log2_unique; [lia|]. cbn. lia. Qed.

Lemma round_double_binade53 x q r :
  2 ^ 53 <= x < 2 ^ 54 - 2 -> x = 2 * q + r -> 0 <= r < 2 ->
  round_double x = JInt (if (2 * r <? 2) || ((2 * r =? 2) && Z.even q) then 2 * q else 2 * q + 2).
Proof.
  intros Hx -> Hr. unfold round_double, round_mag, round_at, round_div, round_sh.
  assert (2 ^ 54 < 2 ^ 1024) by (apply Z.pow_lt_mono_r; lia).
  rewrite Z.abs_eq, log2_binade53 by lia.
  change (Z.max 0 (53 - 52)) with 1. change (2 ^ 1) with 2.
  assert ((2 * q + r) / 2 = q) as -> by (symmetry; apply (Z.div_unique _ _ _ r); lia).
  assert ((2 * q + r) mod 2 = r) as -> by (symmetry; apply (Z.mod_unique _ _ q); lia).
  destruct (_ || _); rewrite (proj2 (Z.leb_gt _ _)) by lia;
    rewrite Z.sgn_pos by lia; f_equal; lia.
Qed.

(** The double nearest to an odd integer of the binade is reached by the
    ties-to-even rule: [4k] and [4k+1] both round to [4k]. *)
Lemma round_double_tie x :
  2 ^ 53 <= x < 2 ^ 54 - 2 -> x mod 4 = 0 ->
  round_double x = JInt x /\ round_double (x + 1) = JInt x.
Proof.
  intros Hx H4. pose proof (Z.div_mod x 4 ltac:(lia)) as Hd. rewrite H4 in Hd.
  assert (Z.even (2 * (x / 4)) = true) as He by (rewrite Z.even_mul; done).
  assert (2 ^ 54 = 4 * 2 ^ 52) by reflexivity.
  rewrite (round_double_binade53 x (2 * (x / 4)) 0),
          (round_double_binade53 (x + 1) (2 * (x / 4)) 1) by lia.
  rewrite He. change (2 * 0 <? 2) with true. change (2 * 1 <? 2) with false.
  change (2 * 1 =? 2) with true. cbn [orb andb]. split; f_equal; lia.
Qed.

(** ** The digits of [Number::toString] read back, on every double *)

Lemma reads_as_spec s e x : reads_as s e x = true <-> round_double (s * 10 ^ e) = JInt x.
Proof.
  unfold reads_as. destruct (round_double _); [|split; congruence..].
  rewrite Z.eqb_eq. split; congruence.
Qed.

Lemma reads_as_self x : round_double x = JInt x -> reads_as x 0 x = true.
Proof. intros H. apply reads_as_spec. by rewrite Z.pow_0_r, Z.mul_1_r. Qed.

Lemma reads_as_shift s e x :
  s mod 10 = 0 -> 0 <= e -> reads_as (s / 10) (e + 1) x = reads_as s e x.
Proof.
  intros H0 He. unfold reads_as.
  replace (s / 10 * 10 ^ (e + 1)) with (s * 10 ^ e); [done|].
  rewrite Z.pow_add_r, Z.pow_1_r by lia. pose proof (Z.div_mod s 10). lia.
Qed.

(** The search stops at the latest when [k] reaches the digit count of
    [x], where [x] itself is the candidate. *)
Lemma shortest_from_reads fuel k d x :
  round_double x = JInt x -> 0 <= x -> k <= d -> (Z.to_nat (d - k) < fuel)%nat ->
  let '(s, e) := shortest_from fuel k d x in 0 <= s /\ 0 <= e /\ reads_as s e x = true.
Proof.
  revert k. induction fuel as [|fuel IH]; intros k Hx Hx0 Hk Hf; [lia|].
  cbn [shortest_from].
  assert (0 < 10 ^ (d - k)) by (apply Z.pow_pos_nonneg; lia).
  assert (0 <= x / 10 ^ (d - k)) by (apply Z.div_pos; lia).
  destruct (reads_as (x / 10 ^ (d - k)) (d - k) x) eqn:Hlo,
           (reads_as (x / 10 ^ (d - k) + 1) (d - k) x) eqn:Hhi;
    [destruct (_ || _)| | |]; try (split_and!; [lia|lia|done]).
  destruct (decide (k = d)) as [->|Hne].
  - rewrite Z.sub_diag, Z.pow_0_r, Z.div_1_r, reads_as_self in Hlo by done. done.
  - apply IH; [done|lia|lia|lia].
Qed.

(** On every positive integer-valued double [x], the digits [s] and the
    exponent [e] that [Number::toString] prints ([s] followed by [e]
    zeros, or in exponent form) denote a number that reads back as [x]. *)
Lemma shortest_reads x :
  0 < x -> round_double x = JInt x ->
  let '(s, e) := shortest x in 0 < s /\ 0 <= e /\ round_double (s * 10 ^ e) = JInt x.
Proof.
  intros Hx Hd. unfold shortest. pose proof (dec_len_pos x) as Hlen.
  pose proof (shortest_from_reads (Z.to_nat (dec_len x)) 1 (dec_len x) x Hd
                ltac:(lia) ltac:(lia) ltac:(lia)) as Hsf.
  destruct (shortest_from _ _ _ _) as [s e]. destruct Hsf as (Hs & He & Hr).
  assert (s <> 0) as Hs0.
  { intros ->. apply reads_as_spec in Hr. rewrite Z.mul_0_l in Hr.
    assert (round_double 0 = JInt 0) as H0 by reflexivity. rewrite H0 in Hr. injection Hr. lia. }
  destruct (Z.eqb_spec (s mod 10) 0) as [H0|_].
  - rewrite <- reads_as_shift in Hr by done. apply reads_as_spec in Hr.
    pose proof (Z.div_mod s 10). split_and!; [lia|lia|done].
  - apply reads_as_spec in Hr. split_and!; [lia|done|done].
Qed.

