(* ===== verification/JsNumberDigits.v ===== *)
(** * Monotone rounding, and the fewest digits of [Number::toString]

    Two facts of IEEE-754 arithmetic that the model of JsNumber.v has
    to satisfy, proved on its definitions:
    - rounding to the nearest double is monotone ([round_mag_mono]): the
      sum [config.id + time] of line 63 never decreases when the time
      grows ([num_add_monotone]), and every integer between two integers
      that round to the double [x] rounds to [x] as well
      ([round_double_between]);
    - the digits [n + ''] prints (line 23) are those ECMAScript's
      [Number::toString] specifies: they read back as the number, and no
      candidate [s' * 10^e'] with fewer digits reads back
      ([shortest_ecma_digits]).  Candidates with a fraction need not be
      considered: one that reads back as an integer [x] has more digits
      than [x] itself.

    The proofs reason on the two parts of [round_double]: [round_at],
    monotone at a fixed precision, and the precision [2^round_sh a],
    which grows with [a]. *)

From S2P Require Import Prelude JsNumber.
From Stdlib Require Import Zwf.

Local Open Scope Z_scope.

(** ** Rounding at a fixed precision *)

Lemma round_at_mono p z1 z2 : 0 < p -> z1 <= z2 -> round_at p z1 <= round_at p z2.
Proof.
  intros Hp Hz. unfold round_at, round_div.
  pose proof (Z.div_le_mono z1 z2 p Hp Hz) as Hq.
  pose proof (Z.mod_pos_bound z1 p Hp). pose proof (Z.mod_pos_bound z2 p Hp).
  destruct (Z.eq_dec (z1 / p) (z2 / p)) as [E|NE].
  - assert (z1 mod p <= z2 mod p) by (rewrite !Z.mod_eq by lia; nia).
    rewrite E. destruct (Z.even (z2 / p));
      destruct (Z.ltb_spec (2 * (z1 mod p)) p), (Z.eqb_spec (2 * (z1 mod p)) p),
               (Z.ltb_spec (2 * (z2 mod p)) p), (Z.eqb_spec (2 * (z2 mod p)) p);
      cbn [orb andb]; nia.
  - repeat match goal with |- context [if ?b then _ else _] => destruct b end; nia.
Qed.

Lemma round_at_mult p k : 0 < p -> round_at p (k * p) = k * p.
Proof.
  intros Hp. unfold round_at, round_div.
  rewrite Z.div_mul, Z.mod_mul by lia.
  by rewrite (proj2 (Z.ltb_lt (2 * 0) p)) by lia.
Qed.

Lemma round_at_nonneg p z : 0 < p -> 0 <= z -> 0 <= round_at p z.
Proof.
  intros Hp Hz. transitivity (round_at p (0 * p)).
  - rewrite round_at_mult; lia.
  - apply round_at_mono; lia.
Qed.

(** ** Monotonicity of the rounded magnitude *)

Lemma round_sh_mono a1 a2 : 0 <= a1 <= a2 -> round_sh a1 <= round_sh a2.
Proof.
  intros Ha. unfold round_sh. pose proof (Z.log2_le_mono a1 a2 ltac:(lia)). lia.
Qed.

(** Below [2^(53 + round_sh a)]: the precision leaves 53 bits. *)
Lemma round_sh_upper a : 0 <= a -> a <= 2 ^ (53 + round_sh a).
Proof.
  intros Ha. unfold round_sh.
  destruct (Z.eq_dec a 0) as [->|Hne]; [apply Z.pow_nonneg; lia|].
  pose proof (Z.log2_spec a ltac:(lia)) as [_ Hup].
  enough (2 ^ Z.succ (Z.log2 a) <= 2 ^ (53 + Z.max 0 (Z.log2 a - 52))) by lia.
  apply Z.pow_le_mono_r; lia.
Qed.

(** Above [2^(52 + round_sh a)] as soon as bits are dropped. *)
Lemma round_sh_lower a : 0 < round_sh a -> 2 ^ (52 + round_sh a) <= a.
Proof.
  unfold round_sh. intros Hs.
  assert (0 < a).
  { destruct (Z.le_gt_cases a 0) as [Ha|]; [|done].
    rewrite Z.log2_nonpos in Hs by lia. lia. }
  replace (52 + Z.max 0 (Z.log2 a - 52)) with (Z.log2 a) by lia.
  by apply Z.log2_spec.
Qed.

Lemma round_mag_mono z1 z2 : 0 <= z1 <= z2 -> round_mag z1 <= round_mag z2.
Proof.
  intros Hz. unfold round_mag.
  pose proof (round_sh_mono z1 z2 Hz) as Hsh.
  assert (0 <= round_sh z1) by (unfold round_sh; lia).
  destruct (Z.eq_dec (round_sh z1) (round_sh z2)) as [<-|Hne].
  { apply round_at_mono; [apply Z.pow_pos_nonneg|]; lia. }
  pose proof (round_sh_upper z1 ltac:(lia)) as Hu. pose proof (round_sh_lower z2 ltac:(lia)) as Hl.
  set (s1 := round_sh z1) in *. set (s2 := round_sh z2) in *.
  assert (0 < 2 ^ s1) by (apply Z.pow_pos_nonneg; lia).
  assert (0 < 2 ^ s2) by (apply Z.pow_pos_nonneg; lia).
  assert (2 ^ (53 + s1) = 2 ^ 53 * 2 ^ s1) as E1 by (apply Z.pow_add_r; lia).
  assert (2 ^ (52 + s2) = 2 ^ 52 * 2 ^ s2) as E2 by (apply Z.pow_add_r; lia).
  assert (2 ^ (53 + s1) <= 2 ^ (52 + s2)) by (apply Z.pow_le_mono_r; lia).
  transitivity (2 ^ (53 + s1)).
  { rewrite E1, <- (round_at_mult (2 ^ s1) (2 ^ 53)) by done. apply round_at_mono; lia. }
  transitivity (2 ^ (52 + s2)); [done|].
  rewrite E2, <- (round_at_mult (2 ^ s2) (2 ^ 52)) by done. apply round_at_mono; lia.
Qed.

(** On a nonnegative integer [round_double] is the rounded magnitude,
    unless that reaches [2^1024]. *)
Lemma round_double_nonneg z :
  0 <= z ->
  round_double z = if 2 ^ 1024 <=? round_mag z then JInf false else JInt (round_mag z).
Proof.
  intros Hz. unfold round_double. rewrite Z.abs_eq by done.
  destruct (Z.eq_dec z 0) as [->|Hne]; [reflexivity|].
  by rewrite Z.sgn_pos, Z.mul_1_l, (proj2 (Z.ltb_ge z 0)) by lia.
Qed.

Lemma round_double_nonneg_int z x : 0 <= z -> round_double z = JInt x -> round_mag z = x.
Proof.
  intros Hz. rewrite round_double_nonneg by done.
  destruct (_ <=? _); congruence.
Qed.

(** Every integer between two nonnegative integers that round to the
    double [x] rounds to [x]. *)
Lemma round_double_between z1 z2 z3 x :
  0 <= z1 <= z2 -> z2 <= z3 ->
  round_double z1 = JInt x -> round_double z3 = JInt x -> round_double z2 = JInt x.
Proof.
  intros H12 H23 H1 H3.
  pose proof (round_mag_mono z1 z2 ltac:(lia)). pose proof (round_mag_mono z2 z3 ltac:(lia)).
  pose proof H3 as H3'. rewrite round_double_nonneg in H3' by lia.
  destruct (Z.leb_spec (2 ^ 1024) (round_mag z3)); [done|]. injection H3' as H3'.
  apply round_double_nonneg_int in H1; [|lia].
  rewrite round_double_nonneg by lia.
  rewrite (proj2 (Z.leb_gt _ _)) by lia. f_equal. lia.
Qed.

(** ** Digit counts *)

Lemma dec_len_div10 x : 10 <= x -> dec_len x = dec_len (x / 10) + 1.
Proof.
  intros Hx. unfold dec_len at 1. rewrite (Z.div_mod x 10) at 1 by lia.
  rewrite Z_to_dec_snoc by (try apply Z.div_str_pos; try apply Z.mod_pos_bound; lia).
  rewrite string_length_app, (len_digit (x mod 10)) by (apply Z.mod_pos_bound; lia).
  unfold dec_len. lia.
Qed.

(** [dec_len x] is the [k] with [10^(k-1) <= x < 10^k]. *)
Lemma dec_len_spec x : 0 < x -> 10 ^ (dec_len x - 1) <= x < 10 ^ dec_len x.
Proof.
  induction x as [x IH] using (well_founded_induction (Zwf_well_founded 0)).
  intros Hx. destruct (Z.lt_ge_cases x 10) as [Hlt|Hge].
  { unfold dec_len. rewrite len_digit by lia. cbn. lia. }
  rewrite dec_len_div10 by done.
  destruct (IH (x / 10)) as [Hl Hu].
  { split; [lia|]. apply Z.div_lt; lia. }
  { apply Z.div_str_pos. lia. }
  pose proof (dec_len_pos (x / 10)).
  pose proof (Z.div_mod x 10 ltac:(lia)). pose proof (Z.mod_pos_bound x 10 ltac:(lia)).
  assert (10 ^ dec_len (x / 10) = 10 * 10 ^ (dec_len (x / 10) - 1)) as E.
  { rewrite <- Z.pow_succ_r by lia. f_equal. lia. }
  replace (dec_len (x / 10) + 1 - 1) with (dec_len (x / 10)) by lia.
  rewrite Z.pow_add_r, Z.pow_1_r by lia. lia.
Qed.

(** Writing the digits of [t] after those of [a]: the numeral of
    [a * 10^(dec_len t) + t]. *)
Lemma Z_to_dec_prepend a t :
  0 < a -> 0 < t -> Z_to_dec (a * 10 ^ dec_len t + t) = (Z_to_dec a ++ Z_to_dec t)%string.
Proof.
  revert a. induction t as [t IH] using (well_founded_induction (Zwf_well_founded 0)).
  intros a Ha Ht. destruct (Z.lt_ge_cases t 10) as [Hlt|Hge].
  { unfold dec_len at 1. rewrite len_digit by lia.
    replace (a * 10 ^ Z.of_nat 1 + t) with (10 * a + t) by lia.
    apply Z_to_dec_snoc; lia. }
  rewrite dec_len_div10 by done. pose proof (dec_len_pos (t / 10)).
  pose proof (Z.div_mod t 10 ltac:(lia)). pose proof (Z.mod_pos_bound t 10 ltac:(lia)).
  assert (0 < t / 10) by (apply Z.div_str_pos; lia).
  assert (0 < 10 ^ dec_len (t / 10)) by (apply Z.pow_pos_nonneg; lia).
  replace (a * 10 ^ (dec_len (t / 10) + 1) + t)
    with (10 * (a * 10 ^ dec_len (t / 10) + t / 10) + t mod 10)
    by (rewrite Z.pow_add_r, Z.pow_1_r by lia; lia).
  assert (Zwf 0 (t / 10) t) by (split; [lia|apply Z.div_lt; lia]).
  rewrite Z_to_dec_snoc; [|nia|lia]. rewrite IH; [|done|done|done].
  rewrite (Z.div_mod t 10) at 3 by lia. rewrite (Z_to_dec_snoc (t / 10)) by lia.
  by rewrite string_app_assoc.
Qed.

Lemma dec_len_lt x K : 0 <= x -> x < 10 ^ K -> 1 <= K -> dec_len x <= K.
Proof.
  intros Hx HK H1. destruct (Z.eq_dec x 0) as [->|Hne]; [done|].
  pose proof (dec_len_spec x ltac:(lia)) as [Hl _].
  destruct (Z.le_gt_cases (dec_len x) K) as [|Hgt]; [done|].
  assert (10 ^ K <= 10 ^ (dec_len x - 1)) by (apply Z.pow_le_mono_r; lia). lia.
Qed.

(** ** One stage of the search *)

(** If some multiple of [10^e] reads back as [x], one of the two
    multiples around [x] does: rounding is monotone. *)
Lemma reads_lo_or_hi x e m :
  0 < x -> round_double x = JInt x -> 0 <= e -> 0 <= m ->
  round_double (m * 10 ^ e) = JInt x ->
  reads_as (x / 10 ^ e) e x = true \/ reads_as (x / 10 ^ e + 1) e x = true.
Proof.
  intros Hx Hd He Hm Hr. assert (0 < 10 ^ e) by (apply Z.pow_pos_nonneg; lia).
  pose proof (Z.mul_div_le x (10 ^ e) ltac:(lia)).
  pose proof (Z.mul_succ_div_gt x (10 ^ e) ltac:(lia)).
  assert (0 <= x / 10 ^ e) by (apply Z.div_pos; lia).
  rewrite !reads_as_spec.
  destruct (Z.le_gt_cases m (x / 10 ^ e)).
  - left. apply (round_double_between (m * 10 ^ e) _ x); [nia|nia|done|done].
  - right. apply (round_double_between x _ (m * 10 ^ e)); [nia|nia|done|done].
Qed.

(** The search ends by the stage [K] at which some [K]-digit multiple
    reads back, with a candidate of at most [K] digits. *)
Lemma shortest_from_le fuel k K d x :
  0 < x -> round_double x = JInt x -> x < 10 ^ d -> 1 <= k <= K -> K <= d ->
  (Z.to_nat (d - k) < fuel)%nat ->
  (exists m, 0 <= m /\ round_double (m * 10 ^ (d - K)) = JInt x) ->
  0 <= fst (shortest_from fuel k d x) <= 10 ^ K.
Proof.
  intros Hx Hd Hxd Hk HK Hf [m [Hm Hr]]. revert k Hk Hf.
  induction fuel as [|fuel IH]; intros k Hk Hf; [lia|]. cbn [shortest_from].
  assert (0 < 10 ^ (d - k)) by (apply Z.pow_pos_nonneg; lia).
  assert (10 ^ d = 10 ^ (d - k) * 10 ^ k) by (rewrite <- Z.pow_add_r by lia; f_equal; lia).
  assert (x / 10 ^ (d - k) < 10 ^ k) by (apply Z.div_lt_upper_bound; lia).
  assert (0 <= x / 10 ^ (d - k)) by (apply Z.div_pos; lia).
  assert (10 ^ k <= 10 ^ K) by (apply Z.pow_le_mono_r; lia).
  destruct (reads_as (x / 10 ^ (d - k)) (d - k) x) eqn:Hlo,
           (reads_as (x / 10 ^ (d - k) + 1) (d - k) x) eqn:Hhi;
    [destruct (_ || _)| | |]; cbn [fst]; try lia.
  destruct (decide (k = K)) as [->|Hne].
  - exfalso. destruct (reads_lo_or_hi x (d - K) m) as [Hr'|Hr']; try done; lia || congruence.
  - apply IH; lia.
Qed.

Lemma shortest_lt x K :
  0 < x -> round_double x = JInt x -> 1 <= K <= dec_len x ->
  (exists m, 0 <= m /\ round_double (m * 10 ^ (dec_len x - K)) = JInt x) ->
  0 <= fst (shortest x) < 10 ^ K.
Proof.
  intros Hx Hd HK Hm. pose proof (dec_len_spec x Hx) as [_ Hxd].
  pose proof (shortest_from_le (Z.to_nat (dec_len x)) 1 K (dec_len x) x Hx Hd Hxd
                ltac:(lia) ltac:(lia) ltac:(lia) Hm) as Hle.
  unfold shortest. destruct (shortest_from _ _ _ _) as [s e]. cbn [fst] in Hle.
  assert (0 < 10 ^ (K - 1)) by (apply Z.pow_pos_nonneg; lia).
  assert (10 ^ K = 10 * 10 ^ (K - 1)) as EK by (rewrite <- Z.pow_succ_r by lia; f_equal; lia).
  destruct (Z.eqb_spec (s mod 10) 0) as [H0|H0]; cbn [fst].
  - split; [apply Z.div_pos; lia|]. apply Z.div_lt_upper_bound; lia.
  - destruct (Z.eq_dec s (10 ^ K)) as [->|]; [|lia].
    rewrite EK, (Z.mul_comm 10), Z.mod_mul in H0; lia.
Qed.

(** ** The fewest digits *)

(** ECMAScript's [Number::toString] for a positive integer-valued double
    [x]: integers [s], [e] with [s * 10^e] read back as [x] and the
    number of digits [k] of [s] ([10^(k-1) <= s < 10^k]) as small as
    possible. *)
Definition ecma_digits (x s e : Z) : Prop :=
  0 < s /\ 0 <= e /\ round_double (s * 10 ^ e) = JInt x /\
  forall s' e', 0 < s' -> 0 <= e' -> round_double (s' * 10 ^ e') = JInt x ->
    dec_len s <= dec_len s'.

(** A candidate [s' * 10^e'] fixes a stage [K <= dec_len s'] at which the
    search succeeds: below [10^(d-1)] (through [10^(d-1)] itself, which
    then reads back), with [e' >= d] (a multiple of [10^(d-1)]), or with
    its own exponent. *)
Lemma candidate_stage x s' e' :
  0 < x -> round_double x = JInt x -> 0 < s' -> 0 <= e' ->
  round_double (s' * 10 ^ e') = JInt x ->
  exists K, 1 <= K <= dec_len x /\ K <= dec_len s' /\
    exists m, 0 <= m /\ round_double (m * 10 ^ (dec_len x - K)) = JInt x.
Proof.
  intros Hx Hd Hs He Hr.
  pose proof (dec_len_spec x Hx) as [Hxl Hxu]. pose proof (dec_len_spec s' Hs) as [_ Hsu].
  pose proof (dec_len_pos x). pose proof (dec_len_pos s').
  assert (0 < 10 ^ e') by (apply Z.pow_pos_nonneg; lia).
  destruct (Z.lt_ge_cases (s' * 10 ^ e') (10 ^ (dec_len x - 1))) as [Hy|Hy].
  { exists 1. split_and!; [lia|lia|lia|exists 1; split; [lia|]].
    rewrite Z.mul_1_l. apply (round_double_between (s' * 10 ^ e') _ x); [nia|lia|done|done]. }
  destruct (Z.le_gt_cases (dec_len x) e') as [Hde|Hde].
  { exists 1. split_and!; [lia|lia|lia|exists (s' * 10 ^ (e' - (dec_len x - 1)))].
    split; [apply Z.mul_nonneg_nonneg; [lia|apply Z.pow_nonneg; lia]|].
    rewrite <- Z.mul_assoc, <- Z.pow_add_r by lia.
    by replace (e' - (dec_len x - 1) + (dec_len x - 1)) with e' by lia. }
  exists (dec_len x - e'). split_and!; [lia|lia| |].
  - destruct (Z.le_gt_cases (dec_len x - e') (dec_len s')) as [|Hgt]; [done|].
    assert (10 ^ (dec_len s' + e') <= 10 ^ (dec_len x - 1)) by (apply Z.pow_le_mono_r; lia).
    rewrite Z.pow_add_r in * by lia. nia.
  - exists s'. split; [lia|]. by replace (dec_len x - (dec_len x - e')) with e' by lia.
Qed.

Lemma shortest_fewest x s' e' :
  0 < x -> round_double x = JInt x -> 0 < s' -> 0 <= e' ->
  round_double (s' * 10 ^ e') = JInt x -> dec_len (fst (shortest x)) <= dec_len s'.
Proof.
  intros Hx Hd Hs He Hr.
  destruct (candidate_stage x s' e' Hx Hd Hs He Hr) as (K & HK & HKs & Hm).
  pose proof (shortest_lt x K Hx Hd HK Hm).
  transitivity K; [apply dec_len_lt; lia|done].
Qed.

(** [n + ''] on a positive integer-valued double [x] chooses its
    digits as ECMAScript's [Number::toString] specifies: the digits [s]
    and the exponent [e] it prints denote a number that reads back as
    [x], and no [s' * 10^e'] with fewer digits reads back as [x]. *)
Lemma shortest_ecma_digits x :
  0 < x -> round_double x = JInt x -> ecma_digits x (fst (shortest x)) (snd (shortest x)).
Proof.
  intros Hx Hd. pose proof (shortest_reads x Hx Hd) as Hsr.
  pose proof (shortest_fewest x) as Hf.
  destruct (shortest x) as [s e]. cbn [fst snd] in *.
  destruct Hsr as (Hs & He & Hr). split_and!; [done|done|done|].
  intros s' e'. by apply Hf.
Qed.

(** ** Monotonicity of [+] *)

(** The sum of a nonnegative integer and a time is monotone in the time,
    the rounding to doubles included. *)
Lemma num_add_monotone k t1 t2 v1 v2 :
  0 <= k -> 0 <= t1 <= t2 ->
  num_add (JInt k) (JInt t1) = JInt v1 -> num_add (JInt k) (JInt t2) = JInt v2 -> v1 <= v2.
Proof.
  cbn [num_add]. intros Hk Ht H1 H2.
  apply round_double_nonneg_int in H1; [|lia]. apply round_double_nonneg_int in H2; [|lia].
  subst. apply round_mag_mono. lia.
Qed.


