(* ===== verification/JsFraction.v ===== *)
(** * Doubles with a fraction

    JsNumber.v gives the numbers of the module a fraction where
    JavaScript has one: [JFrac m k] is the double [m / 2^k], produced by
    [round_pos_rat] (the double nearest to a positive fraction, the
    subnormals down to [2^-1074] included) and printed by
    [frac_to_js_string] ([Number::toString] with its decimal point,
    [0.000...] and negative-exponent forms).  Such numbers reach the
    module through [helper.number(n)] (line 23) and through a fractional
    [config.id] (line 63).

    This file relates the general rounding to the rounding of integers
    that the rest of the development uses: on an integer,
    [round_pos_rat] is [round_double] ([round_pos_rat_int]).  JsNumber.v
    checks the printing on the values ECMAScript's examples and the
    subnormal range make interesting ([frac_examples]). *)

From S2P Require Import Prelude JsNumber JsNumberDigits.

Local Open Scope Z_scope.

(** ** Lowest terms *)

Lemma Z_ctz_double z : z <> 0 -> Z_ctz (2 * z) = Z_ctz z + 1.
Proof.
  destruct z as [|p|p]; [done| |]; intros _.
  - change (2 * Z.pos p) with (Z.pos p~0). unfold Z_ctz. cbn [pos_ctz]. lia.
  - change (2 * Z.neg p) with (Z.neg p~0). unfold Z_ctz. cbn [pos_ctz]. lia.
Qed.

Lemma Z_ctz_mul_pow2 z n : z <> 0 -> Z_ctz (z * 2 ^ Z.of_nat n) = Z_ctz z + Z.of_nat n.
Proof.
  intros Hz. induction n as [|n IH]; [by rewrite Z.mul_1_r, Z.add_0_r|].
  rewrite Nat2Z.inj_succ, Z.pow_succ_r by lia.
  replace (z * (2 * 2 ^ Z.of_nat n)) with (2 * (z * 2 ^ Z.of_nat n)) by ring.
  rewrite Z_ctz_double, IH; [lia|].
  assert (0 < 2 ^ Z.of_nat n) by (apply Z.pow_pos_nonneg; lia). nia.
Qed.

Lemma Z_ctz_nonneg z : 0 <= Z_ctz z.
Proof. destruct z; cbn; lia. Qed.

(** [a * 2^j] over [2^j] is the integer [a]. *)
Lemma mk_num_shift a j : a <> 0 -> 0 <= j -> mk_num (a * 2 ^ j) j = JInt a.
Proof.
  intros Ha Hj. unfold mk_num.
  assert (0 < 2 ^ j) by (apply Z.pow_pos_nonneg; lia).
  rewrite (proj2 (Z.eqb_neq _ _)) by nia.
  assert (Z_ctz (a * 2 ^ j) = Z_ctz a + j) as ->.
  { rewrite <- (Z2Nat.id j) by done. by rewrite Z_ctz_mul_pow2. }
  pose proof (Z_ctz_nonneg a).
  replace (Z.min (Z_ctz a + j) j) with j by lia.
  rewrite Z.sub_diag, Z.div_mul by lia. done.
Qed.

(** ** The general rounding on integers *)

Lemma round_div_1 z : round_div z 1 = z.
Proof.
  unfold round_div. rewrite Z.div_1_r, Z.mod_1_r.
  by replace (2 * 0 <? 1) with true by reflexivity.
Qed.

Lemma ge_pow2_log2 a : 0 < a -> ge_pow2 a 1 (Z.log2 a) = true.
Proof.
  intros Ha. unfold ge_pow2.
  rewrite (proj2 (Z.leb_le 0 _)) by (apply Z.log2_nonneg).
  apply Z.leb_le. rewrite Z.mul_1_l. by apply Z.log2_spec.
Qed.

(** The rounding of a fraction, on an integer [a >= 0], is the rounding
    of integers: the same double, or [Infinity] for both. *)
Lemma round_pos_rat_int a : 0 <= a -> round_pos_rat a 1 = round_double a.
Proof.
  intros Ha. destruct (Z.eq_dec a 0) as [->|Hne]; [reflexivity|].
  unfold round_pos_rat. rewrite (proj2 (Z.eqb_neq a 0)) by done.
  change (Z.log2 1) with 0. rewrite Z.sub_0_r, ge_pow2_log2 by lia.
  pose proof (Z.log2_nonneg a).
  replace (Z.max (Z.log2 a - 52) (-1074)) with (Z.log2 a - 52) by lia.
  destruct (Z.leb_spec 0 (Z.log2 a - 52)) as [Hq|Hq].
  - rewrite round_double_nonneg by lia. unfold round_mag, round_at, round_sh.
    rewrite Z.mul_1_l, Z.max_r by lia. done.
  - rewrite round_div_1, mk_num_shift by lia. symmetry. apply round_double_exact.
    assert (a < 2 ^ 52).
    { apply Z.log2_lt_pow2; lia. }
    assert (2 ^ 52 < 2 ^ 53) by (apply Z.pow_lt_mono_r; lia). lia.
Qed.

