(* ===== verification/JsValue.v ===== *)
(** * JavaScript values, objects and operators used by src/index.js

    The values the module handles, an object heap shared by every
    reference to an object (so that the in-place writes of the rewrite
    loop are seen through every alias), and the operators of the source:
    [typeof] (line 49), [===] (line 54), truthiness (lines 14 and 39),
    property reads and writes (lines 48, 52, 54, 60), [for .. in] key
    enumeration (line 46) and binary [+] (lines 23, 27, 63).

    Numbers are the doubles of JsNumber.v (integers, fractions, [NaN] and
    the infinities), added with rounding to the nearest double
    ([num_add]) and printed by [Number::toString] ([num_to_string]).
    Property reads are those of plain objects: the keys the module reads
    ([timestamp], [colorize]) are not properties of [Object.prototype],
    which has no enumerable key for [for .. in] to visit. *)

From S2P Require Import Prelude JsNumber.

(** ** Values *)

Abbreviation loc := nat (only parsing).

Inductive value : Type :=
| VUndef
| VNull
| VBool (b : bool)
| VNum (n : jsnum)
| VStr (s : string)
| VObj (l : loc)
  (** the closure [function(){ ... }] built at lines 52-59, which
      captures [format] and the transport object *)
| VTsFun (format : string) (transport : value)
  (** an object owned by the logging backend (a winston [Logger]) *)
| VLogger (h : nat).

#[export] Instance value_eq_dec : EqDecision value.
Proof. solve_decision. Defined.

(** An object: its own enumerable properties in insertion order. *)
Abbreviation obj := (list (string * value)) (only parsing).
Abbreviation heap := (gmap loc obj) (only parsing).

Inductive exn : Type :=
| TypeError (msg : string)
| Error (msg : string).

#[export] Instance exn_eq_dec : EqDecision exn.
Proof. solve_decision. Defined.

(** ** Conversions *)

(** The text [Function.prototype.toString] returns for the closure of
    lines 52-59 (its source text, as written). *)
Definition ts_fun_source : string :=
  "function(){
                var str = dateFormat(new Date(), format);
                if (transport.colorize === 'true'){
                    str = chalk.gray(str);
                    return str;
                }
                return str;
            }".

(** [ToString] *)
Definition js_to_string (v : value) : string :=
  match v with
  | VUndef => "undefined"
  | VNull => "null"
  | VBool true => "true"
  | VBool false => "false"
  | VNum n => num_to_string n
  | VStr s => s
  | VObj _ | VLogger _ => "[object Object]"
  | VTsFun _ _ => ts_fun_source
  end.

(** [ToPrimitive] with the default hint: an object becomes the string its
    [toString] returns ([valueOf] returns the object itself). *)
Definition js_to_primitive (v : value) : value :=
  match v with
  | VObj _ | VLogger _ | VTsFun _ _ => VStr (js_to_string v)
  | _ => v
  end.

(** [ToNumber] on the primitives other than strings (the only ones the
    numeric branch of [+] receives). *)
Definition prim_to_number (v : value) : jsnum :=
  match v with
  | VNull => JInt 0
  | VBool true => JInt 1
  | VBool false => JInt 0
  | VNum n => n
  | _ => JNaN
  end.

Definition is_str (v : value) : bool :=
  match v with VStr _ => true | _ => false end.

(** Binary [+]: concatenation as soon as one primitive operand is a
    string, numeric addition otherwise. *)
Definition js_add (a b : value) : value :=
  let pa := js_to_primitive a in
  let pb := js_to_primitive b in
  if is_str pa || is_str pb
  then VStr (js_to_string pa ++ js_to_string pb)
  else VNum (num_add (prim_to_number pa) (prim_to_number pb)).

(** [typeof] *)
Definition js_typeof (v : value) : string :=
  match v with
  | VUndef => "undefined"
  | VNull | VObj _ | VLogger _ => "object"
  | VBool _ => "boolean"
  | VNum _ => "number"
  | VStr _ => "string"
  | VTsFun _ _ => "function"
  end.

(** [===]: same type and same value (numbers by their value, whatever
    the form [m / 2^k] they are written in); objects by reference; [NaN]
    is different from everything.  Two closures are compared by what they
    capture (closures carry no identity in the model; the module never
    compares them). *)
Definition js_strict_eq (a b : value) : bool :=
  match a, b with
  | VUndef, VUndef | VNull, VNull => true
  | VBool x, VBool y => Bool.eqb x y
  | VNum (JInt x), VNum (JInt y) => Z.eqb x y
  | VNum (JFrac m k), VNum (JFrac m' k') => Z.eqb (m * 2 ^ Z.pos k') (m' * 2 ^ Z.pos k)
  | VNum (JInt x), VNum (JFrac m k) | VNum (JFrac m k), VNum (JInt x) =>
      Z.eqb (x * 2 ^ Z.pos k) m
  | VNum (JInf x), VNum (JInf y) => Bool.eqb x y
  | VStr x, VStr y => String.eqb x y
  | VObj x, VObj y => Nat.eqb x y
  | VLogger x, VLogger y => Nat.eqb x y
  | VTsFun f x, VTsFun g y => bool_decide (VTsFun f x = VTsFun g y)
  | _, _ => false
  end.

(** Truthiness, as [if (v)] and [v || d] test it. *)
Definition js_truthy (v : value) : bool :=
  match v with
  | VUndef | VNull => false
  | VBool b => b
  | VNum (JInt z) => negb (Z.eqb z 0)
  | VNum (JFrac m _) => negb (Z.eqb m 0)
  | VNum JNaN => false
  | VNum (JInf _) => true
  | VStr s => negb (String.eqb s "")
  | VObj _ | VTsFun _ _ | VLogger _ => true
  end.

(** ** Property access on a heap *)

Definition heap_obj (h : heap) (l : loc) : obj := default [] (h !! l).

(** The one-character string at an index of a string, as [s[n]] reads
    it with the key [n] that [for .. in] produces. *)
Definition str_index (s : string) (k : string) : value :=
  match dec_to_Z k with
  | Some i =>
      if String.eqb (Z_to_dec i) k then
        match String.get (Z.to_nat i) s with
        | Some c => if (0 <=? i)%Z then VStr (String c EmptyString) else VUndef
        | None => VUndef
        end
      else VUndef
  | None => VUndef
  end.

(** [v[k]] (or [v.k]): a TypeError on [null] and [undefined]. *)
Definition js_get (h : heap) (v : value) (k : string) : exn + value :=
  match v with
  | VUndef => inl (TypeError ("Cannot read property '" ++ k ++ "' of undefined"))
  | VNull => inl (TypeError ("Cannot read property '" ++ k ++ "' of null"))
  | VObj l => inr (default VUndef (alist_get k (heap_obj h l)))
  | VStr s =>
      if String.eqb k "length" then inr (VNum (JInt (Z.of_nat (String.length s))))
      else inr (str_index s k)
  | _ => inr VUndef
  end.

(** [v[k] = x] in strict mode (line 5): a TypeError on primitives. *)
Definition js_set (h : heap) (v : value) (k : string) (x : value) : exn + heap :=
  match v with
  | VObj l => inr (<[l := alist_set k x (heap_obj h l)]> h)
  | VTsFun _ _ | VLogger _ => inr h
  | _ => inl (TypeError ("Cannot create property '" ++ k ++ "' on " ++ js_typeof v))
  end.

(** The keys [for (n in v)] visits: the own enumerable keys of an object
    in insertion order, the indices of a string, nothing otherwise (also
    for [null] and [undefined], which do not throw). *)
Definition for_in_keys (h : heap) (v : value) : list string :=
  match v with
  | VObj l => alist_keys (heap_obj h l)
  | VStr s => map (fun i => Z_to_dec (Z.of_nat i)) (seq 0 (String.length s))
  | _ => []
  end.

(** ** Lemmas *)

Lemma js_add_str_l s v :
  js_add (VStr s) v = VStr (s ++ js_to_string v).
Proof. by destruct v as [| |[]|[]| | | |]. Qed.

Lemma js_add_str_r v s :
  js_add v (VStr s) = VStr (js_to_string v ++ s).
Proof.
  destruct v as [| |[]|[]| | | |]; simpl; rewrite ?orb_true_r; done.
Qed.

Lemma js_add_int x y :
  js_add (VNum (JInt x)) (VNum (JInt y)) = VNum (round_double (x + y)).
Proof. reflexivity. Qed.

Lemma js_truthy_obj h_obj : js_truthy (VObj h_obj) = true.
Proof. reflexivity. Qed.

Lemma js_get_obj h l k :
  js_get h (VObj l) k = inr (default VUndef (alist_get k (heap_obj h l))).
Proof. reflexivity. Qed.

Lemma heap_obj_insert_eq h l o : heap_obj (<[l := o]> h) l = o.
Proof. unfold heap_obj. by rewrite lookup_insert_eq. Qed.

Lemma heap_obj_insert_ne h l l' o :
  l <> l' -> heap_obj (<[l := o]> h) l' = heap_obj h l'.
Proof. intros Hne. unfold heap_obj. by rewrite lookup_insert_ne. Qed.

#[export] Hint Rewrite dec_to_Z_Z_to_dec js_add_str_l js_add_str_r js_add_int
  heap_obj_insert_eq : tcl_rw.
#[export] Hint Resolve Z_to_dec_inj heap_obj_insert_ne : tcl.

Lemma js_strict_eq_str v s : js_strict_eq v (VStr s) = bool_decide (v = VStr s).
Proof.
  destruct v as [| |[]|[]|s'| | |]; try done. simpl.
  destruct (String.eqb_spec s' s) as [->|Hne]; [by rewrite bool_decide_true|].
  rewrite bool_decide_false; congruence.
Qed.

Lemma js_to_string_primitive v : js_to_string (js_to_primitive v) = js_to_string v.
Proof. by destruct v. Qed.

#[export] Hint Rewrite js_to_string_primitive : tcl_rw.
