(* ===== verification/Chalk.v ===== *)
(** * The styling collaborator: chalk

    [src/index.js] calls [chalk.underline], [chalk.cyan], [chalk.green]
    and [chalk.gray] (lines 16, 20, 24, 28, 55).  The module is written
    against the interface [Styler] (one function per style); [chalk1] is
    the instance of chalk 1.x, whose [applyStyle]:
    - returns its argument unchanged when colours are disabled (output is
      not a terminal) or when the string is empty;
    - otherwise replaces every occurrence of the style's close code inside
      the string by its open code (so a nested style is re-opened after
      an inner reset), and wraps the result in the open and close codes.
    The codes are those of ansi-styles 2.x. *)

From S2P Require Import Prelude.
From Stdlib Require Import Ascii.

Class Styler : Type := {
  underline : string -> string;
  cyan : string -> string;
  green : string -> string;
  gray : string -> string
}.

Record ansi_style : Type := AnsiStyle { ansi_open : string; ansi_close : string }.

Definition esc_char : ascii := ascii_of_nat 27.
Definition csi (code : string) : string := String esc_char ("[" ++ code ++ "m").

Definition ansi_underline : ansi_style := AnsiStyle (csi "4") (csi "24").
Definition ansi_cyan : ansi_style := AnsiStyle (csi "36") (csi "39").
Definition ansi_green : ansi_style := AnsiStyle (csi "32") (csi "39").
Definition ansi_gray : ansi_style := AnsiStyle (csi "90") (csi "39").

(** [s.replace(new RegExp(pat, 'g'), rep)] for a literal, non-empty
    [pat]: every occurrence, left to right, without overlap.  The fuel
    [String.length s] is enough because each step consumes at least one
    character of [s]. *)
Fixpoint replace_all_fuel (fuel : nat) (pat rep s : string) : string :=
  match fuel with
  | O => s
  | S fuel' =>
      match s with
      | EmptyString => EmptyString
      | String c s' =>
          if String.prefix pat s
          then rep ++ replace_all_fuel fuel'
                        pat rep (String.substring (String.length pat)
                                   (String.length s) s)
          else String c (replace_all_fuel fuel' pat rep s')
      end
  end.

Definition replace_all (pat rep s : string) : string :=
  replace_all_fuel (String.length s) pat rep s.

(** chalk 1.x [applyStyle] for one style. *)
Definition chalk_apply (enabled : bool) (sty : ansi_style) (s : string) : string :=
  if negb enabled || String.eqb s "" then s
  else ansi_open sty ++ replace_all (ansi_close sty) (ansi_open sty) s
         ++ ansi_close sty.

#[export] Instance chalk1 (enabled : bool) : Styler := {
  underline := chalk_apply enabled ansi_underline;
  cyan := chalk_apply enabled ansi_cyan;
  green := chalk_apply enabled ansi_green;
  gray := chalk_apply enabled ansi_gray
}.

(** [s] contains no escape character, so no ANSI code occurs in it. *)
Fixpoint no_esc (s : string) : bool :=
  match s with
  | EmptyString => true
  | String c s' => negb (Ascii.eqb c esc_char) && no_esc s'
  end.

(** ** Lemmas *)

Lemma prefix_esc_no_esc c s code :
  no_esc (String c s) = true -> String.prefix (csi code) (String c s) = false.
Proof.
  cbn [no_esc]. intros H. apply andb_prop in H as [Hc _].
  unfold csi. cbn [String.prefix].
  destruct (ascii_dec esc_char c) as [<-|]; [|done].
  by rewrite Ascii.eqb_refl in Hc.
Qed.

(** Replacing an ANSI code inside a string with no escape character
    changes nothing, whatever the fuel. *)
Lemma replace_all_fuel_no_esc fuel code rep s :
  no_esc s = true -> replace_all_fuel fuel (csi code) rep s = s.
Proof.
  revert s. induction fuel as [|fuel IH]; intros s Hs; [done|].
  destruct s as [|c s']; [done|]. cbn [replace_all_fuel].
  rewrite prefix_esc_no_esc by done.
  f_equal. apply IH. cbn [no_esc] in Hs. by apply andb_prop in Hs as [_ ?].
Qed.

Lemma replace_all_no_esc code rep s :
  no_esc s = true -> replace_all (csi code) rep s = s.
Proof. apply replace_all_fuel_no_esc. Qed.

(** chalk leaves the empty string alone, styled or not. *)
Lemma chalk_apply_empty en sty : chalk_apply en sty "" = "".
Proof. unfold chalk_apply. by rewrite orb_true_r. Qed.

Lemma chalk_apply_disabled sty s : chalk_apply false sty s = s.
Proof. reflexivity. Qed.

(** On a non-empty string with no escape character, an enabled chalk
    style is exactly the open code, the string and the close code. *)
Lemma chalk_apply_wrap sty code s :
  ansi_close sty = csi code -> s <> "" -> no_esc s = true ->
  chalk_apply true sty s = (ansi_open sty ++ s ++ ansi_close sty)%string.
Proof.
  intros Hc Hne Hs. unfold chalk_apply. simpl.
  destruct (String.eqb_spec s ""); [done|]. simpl.
  rewrite Hc, replace_all_no_esc by done. done.
Qed.

#[export] Hint Rewrite chalk_apply_empty chalk_apply_disabled : tcl_rw.
#[export] Hint Resolve replace_all_no_esc : tcl.
