(* ===== verification/Runtime.v ===== *)
(** * The world src/index.js runs in, and its collaborators

    The state of a run is a [world]: the object heap, the clock that
    [new Date()] reads, the working directory [process.cwd()] returns, the
    logging backend's registry of named loggers with the loggers it has
    created, and the trace of the [log] calls the backend received.  The
    module's code is written in the monad [M] of [Prelude] over this
    world, with the JavaScript exceptions [exn] of [JsValue].

    The collaborators the spec names are interfaces:
    - [DateFormat]: [dateFormat(date, pattern)] (line 53);
    - [Backend]: [winston.loggers.add(id, options)] (line 64) and
      [logger.log(...)] (line 73), with the laws [BackendLaws] the module's
      theorems rely on (the registry retrieves or creates, the backend
      leaves the heap alone, a log call on a logger is recorded);
    - [PathLib]: [path.relative] and [path.basename] (lines 15, 19);
    - [config]: the object given to the constructor, with its [id] and
      its [get(key, {recursive: true})] (lines 42-44, 63). *)

From S2P Require Import Prelude JsValue.

Record logger_rec : Type := LoggerRec { lg_id : string; lg_options : value }.

Inductive event : Type :=
| LogCall (h : nat) (args : list value).

Record world : Type := mkWorld {
  w_heap : heap;
  w_now : Z;
  w_cwd : string;
  w_registry : gmap string nat;
  w_loggers : list logger_rec;
  w_trace : list event
}.

Abbreviation M A := (st world exn A).

(** ** Primitive actions *)

Definition throw {A} (e : exn) : M A := st_throw e.

(** Lift a result of [JsValue] into the monad. *)
Definition lift {A} (r : exn + A) : M A :=
  match r with inl e => st_throw e | inr a => st_ret a end.

(** [new Date()]: the current time in milliseconds. *)
Definition now : M Z := fun w => (inr (w_now w), w).

Definition get_prop (v : value) (k : string) : M value :=
  fun w => lift (js_get (w_heap w) v k) w.

Definition set_heap (h : heap) (w : world) : world :=
  mkWorld h (w_now w) (w_cwd w) (w_registry w) (w_loggers w) (w_trace w).

Definition set_prop (v : value) (k : string) (x : value) : M unit :=
  fun w => match js_set (w_heap w) v k x with
           | inl e => (inl e, w)
           | inr h => (inr tt, set_heap h w)
           end.

Definition keys_of (v : value) : M (list string) :=
  fun w => (inr (for_in_keys (w_heap w) v), w).

Definition cwd : M string := fun w => (inr (w_cwd w), w).

(** The clock moves between calls of the module. *)
Definition tick (dt : Z) (w : world) : world :=
  mkWorld (w_heap w) (w_now w + dt) (w_cwd w) (w_registry w) (w_loggers w)
    (w_trace w).

(** ** Collaborators *)

Class DateFormat : Type := {
  dateFormat : Z -> string -> string
}.

Class Backend : Type := {
  (** [winston.loggers.add(id, options)] *)
  loggers_add : value -> value -> M value;
  (** [logger.log.apply(logger, args)] *)
  logger_log : value -> list value -> M unit
}.

Definition push_event (e : event) (w : world) : world :=
  mkWorld (w_heap w) (w_now w) (w_cwd w) (w_registry w) (w_loggers w)
    (w_trace w ++ [e]).

Class BackendLaws `{Backend} : Prop := {
  (** a name already registered gives back its logger, and nothing else
      happens *)
  add_hit : forall id opts w h,
    w_registry w !! js_to_string id = Some h ->
    loggers_add id opts w = (inr (VLogger h), w);
  (** registration touches neither the heap, the clock nor the trace *)
  add_frame : forall id opts w r w',
    loggers_add id opts w = (r, w') ->
    w_heap w' = w_heap w /\ w_now w' = w_now w /\ w_cwd w' = w_cwd w /\
    w_trace w' = w_trace w;
  (** a successful registration returns a logger registered under the
      name, and keeps the loggers registered before *)
  add_ok : forall id opts w v w',
    loggers_add id opts w = (inr v, w') ->
    exists h, v = VLogger h /\ w_registry w' !! js_to_string id = Some h /\
      (forall k h', w_registry w !! k = Some h' -> w_registry w' !! k = Some h');
  (** registration, successful or not, keeps every entry of the
      registry *)
  add_keep : forall id opts w r w' k h,
    loggers_add id opts w = (r, w') ->
    w_registry w !! k = Some h -> w_registry w' !! k = Some h;
  (** a call of [log] on a logger is recorded in the trace *)
  log_logger : forall h args w,
    logger_log (VLogger h) args w = (inr tt, push_event (LogCall h args) w)
}.

(** [path.relative(from, to)] resolves both paths against the working
    directory, its first argument here. *)
Class PathLib : Type := {
  path_relative : string -> string -> string -> string;
  path_basename : string -> string
}.

(** Node's [validateString(value, name)], with which [path.relative] and
    [path.basename] check each argument before any work (Node's message
    quotes the name in double quotes). *)
Definition validate_string (name : string) (v : value) : M string :=
  match v with
  | VStr s => st_ret s
  | _ => throw (TypeError ("The '" ++ name ++ "' argument must be of type string"))
  end.

Section PathCalls.
Context {PL : PathLib}.

(** [path.relative(from, to)] on JavaScript values: [from] checked, then
    [to], then both resolved against [process.cwd()]. *)
Definition path_relative_js (from to : value) : M string :=
  let! f := validate_string "from" from in
  let! t := validate_string "to" to in
  let! c := cwd in
  st_ret (path_relative c f t).

(** [path.basename(path)] on a JavaScript value. *)
Definition path_basename_js (p : value) : M string :=
  let! s := validate_string "path" p in
  st_ret (path_basename s).
End PathCalls.

(** The configuration object: its [id] field and its [get] method. *)
Record config : Type := Config {
  cfg_id : value;
  cfg_get : string -> bool -> M value
}.

(** A configuration whose [get] returns its stored tree itself (so that
    every caller shares the same transport objects). *)
Definition shared_config (id : value) (tree : value) : config :=
  Config id (fun _ _ => st_ret tree).

(** A configuration whose [get('log', ...)] reads without writing. *)
Definition cfg_readonly (c : config) : Prop :=
  forall w r w', cfg_get c "log" true w = (r, w') -> w' = w.

Lemma shared_config_readonly id tree : cfg_readonly (shared_config id tree).
Proof. by intros w r w' [= _ <-]. Qed.

(** ** Lemmas on the primitive actions *)

Lemma set_heap_same w : set_heap (w_heap w) w = w.
Proof. by destruct w. Qed.

Lemma get_prop_obj l k w :
  get_prop (VObj l) k w =
  (inr (default VUndef (alist_get k (heap_obj (w_heap w) l))), w).
Proof. reflexivity. Qed.

Lemma set_prop_obj l k x w :
  set_prop (VObj l) k x w =
  (inr tt, set_heap (<[l := alist_set k x (heap_obj (w_heap w) l)]> (w_heap w)) w).
Proof. reflexivity. Qed.

#[export] Hint Rewrite set_heap_same get_prop_obj set_prop_obj : tcl_rw.

Lemma set_heap_set_heap h1 h2 w : set_heap h2 (set_heap h1 w) = set_heap h2 w.
Proof. reflexivity. Qed.

#[export] Hint Rewrite set_heap_set_heap : tcl_rw.
