(* ===== verification/DateFormat.v ===== *)
(** * A model of the date formatter: dateformat's time-of-day masks

    [dateFormat(new Date(), format)] (line 53) is the [dateformat]
    package.  [hms_dateformat] models its masks for the time of day, read
    in UTC from the milliseconds since the epoch: [HH]/[H] hours (padded
    to two digits or not), [MM]/[M] minutes, [ss]/[s] seconds, [l]
    milliseconds (three digits); the mask letters are matched greedily,
    two letters before one, as dateformat's token expression does.  Every
    other character is copied.  The calendar masks ([d], [m], [yy], ...)
    are not modelled: patterns that use them are outside this instance,
    and no theorem of the development depends on the instance. *)

From S2P Require Import Prelude JsNumber JsValue Runtime.
From Stdlib Require Import Ascii.

Definition pad2 (n : Z) : string :=
  if (n <? 10)%Z then ("0" ++ Z_to_dec n)%string else Z_to_dec n.

Definition pad3 (n : Z) : string :=
  if (n <? 10)%Z then ("00" ++ Z_to_dec n)%string
  else if (n <? 100)%Z then ("0" ++ Z_to_dec n)%string else Z_to_dec n.

Record hms : Type := Hms { hrs : Z; mins : Z; secs : Z; millis : Z }.

(** [getUTCHours()], [getUTCMinutes()], ... of a time in milliseconds. *)
Definition hms_of (t : Z) : hms :=
  Hms ((t / 3600000) mod 24) ((t / 60000) mod 60) ((t / 1000) mod 60) (t mod 1000).

Fixpoint render_mask (x : hms) (pat : string) : string :=
  match pat with
  | String "H" (String "H" r) => pad2 (hrs x) ++ render_mask x r
  | String "H" r => Z_to_dec (hrs x) ++ render_mask x r
  | String "M" (String "M" r) => pad2 (mins x) ++ render_mask x r
  | String "M" r => Z_to_dec (mins x) ++ render_mask x r
  | String "s" (String "s" r) => pad2 (secs x) ++ render_mask x r
  | String "s" r => Z_to_dec (secs x) ++ render_mask x r
  | String "l" r => pad3 (millis x) ++ render_mask x r
  | String c r => String c (render_mask x r)
  | EmptyString => EmptyString
  end%string.

#[export] Instance hms_dateformat : DateFormat := {
  dateFormat := fun t pat => render_mask (hms_of t) pat
}.

(** The pattern of the spec's example. *)
Example hms_dateformat_example :
  dateFormat 45296789 "HH:MM:ss.l" = "12:34:56.789".
Proof. reflexivity. Qed.
