(* ===== verification/Winston.v ===== *)
(** * A model of the logging backend: winston's logger container

    The spec (sections 4.2, 6 and 9) describes the backend as a registry
    of named loggers: [winston.loggers.add(id, options)] retrieves the
    logger registered under [id] (as a property key, that is
    [ToString(id)]) or creates one from [options], throwing when a
    transport name is unknown; [logger.log(level, ...args)] hands the call
    to the transports.  [winston_backend] models this: creation checks
    each key of [options] other than [transports], capitalised, against
    winston's transports, allocates the next logger handle and records
    its name and options; a [log] call is appended to the trace.  The
    transports' output is not modelled.  [winston_laws] proves the laws
    [BackendLaws] for this model. *)

From S2P Require Import Prelude JsValue Runtime.
From Stdlib Require Import Ascii.

Definition known_transports : list string := ["Console"; "File"; "Http"; "Memory"].

Definition ascii_upper (c : ascii) : ascii :=
  let n := nat_of_ascii c in
  if (97 <=? n) && (n <=? 122) then ascii_of_nat (n - 32) else c.

(** [common.capitalize] *)
Definition capitalize (s : string) : string :=
  match s with
  | EmptyString => EmptyString
  | String c s' => String (ascii_upper c) s'
  end.

(** The first key of [options] that names no transport. *)
Definition unknown_transport (h : heap) (opts : value) : option string :=
  let ks := if js_truthy opts then for_in_keys h opts else [] in
  List.find (fun k => negb (String.eqb k "transports") &&
                      negb (bool_decide (capitalize k ∈ known_transports))) ks.

(** The test [this.loggers[id]] that opens [Container.add]. *)
Definition winston_find (id : value) : M (option nat) :=
  fun w => (inr (w_registry w !! js_to_string id), w).

(** The branch of [Container.add] taken on a miss: each key of [options]
    checked against the transports (and its transport built), then
    [this.loggers[id] = new winston.Logger(options)], which overwrites
    whatever a call made meanwhile stored under [id]. *)
Definition winston_create (id opts : value) : M value :=
  fun w =>
    let key := js_to_string id in
    match unknown_transport (w_heap w) opts with
    | Some k => (inl (Error ("Cannot add unknown transport: " ++ capitalize k)), w)
    | None =>
        let h := List.length (w_loggers w) in
        (inr (VLogger h),
         mkWorld (w_heap w) (w_now w) (w_cwd w) (<[key := h]> (w_registry w))
           (w_loggers w ++ [LoggerRec key opts]) (w_trace w))
    end.

(** [Container.add(id, options)]: the lookup, then the construction on a
    miss. *)
Definition winston_add (id opts : value) : M value :=
  let! r := winston_find id in
  match r with
  | Some h => st_ret (VLogger h)
  | None => winston_create id opts
  end.

Definition winston_log (lg : value) (args : list value) : M unit :=
  fun w =>
    match lg with
    | VLogger h => (inr tt, push_event (LogCall h args) w)
    | _ => (inl (TypeError "Cannot read property 'log' of a non-logger"), w)
    end.

(** [Container.add] as its two branches. *)
Lemma winston_add_eq id opts w :
  winston_add id opts w =
  match w_registry w !! js_to_string id with
  | Some h => (inr (VLogger h), w)
  | None => winston_create id opts w
  end.
Proof. unfold winston_add, winston_find, st_bind. simpl. by destruct (_ !! _). Qed.

#[export] Instance winston_backend : Backend := {
  loggers_add := winston_add;
  logger_log := winston_log
}.

(** Every handle in the registry names a logger that exists. *)
Definition registry_wf (w : world) : Prop :=
  forall k h, w_registry w !! k = Some h -> h < List.length (w_loggers w).

#[export] Instance winston_laws : BackendLaws.
Proof.
  split.
  - intros id opts w h Hh. simpl. unfold winston_add, winston_find, winston_create, st_bind; simpl. by rewrite Hh.
  - intros id opts w r w'. simpl. unfold winston_add, winston_find, winston_create, st_bind; simpl.
    destruct (w_registry w !! _); [by intros [= _ <-]|].
    destruct (unknown_transport _ _); by intros [= _ <-].
  - intros id opts w v w'. simpl. unfold winston_add, winston_find, winston_create, st_bind; simpl.
    destruct (w_registry w !! _) as [h|] eqn:E.
    + intros [= <- <-]. eauto.
    + destruct (unknown_transport _ _); [done|]. intros [= <- <-].
      eexists; split_and!; [done| |].
      * simpl. by rewrite lookup_insert_eq.
      * intros k h' Hk. simpl. rewrite lookup_insert_ne; [done|congruence].
  - intros id opts w r w' k h. simpl. unfold winston_add, winston_find, winston_create, st_bind; simpl.
    destruct (w_registry w !! _) eqn:E; [by intros [= _ <-]|].
    destruct (unknown_transport _ _); [by intros [= _ <-]|].
    intros [= _ <-] Hk. simpl. rewrite lookup_insert_ne; [done|congruence].
  - done.
Qed.

(** Registration keeps the registry well formed. *)
Lemma winston_add_wf id opts w r w' :
  registry_wf w -> winston_add id opts w = (r, w') -> registry_wf w'.
Proof.
  unfold winston_add, winston_find, winston_create, st_bind, registry_wf; simpl. intros Hwf.
  destruct (w_registry w !! _) as [h|] eqn:E; [by intros [= _ <-]|].
  destruct (unknown_transport _ _); [by intros [= _ <-]|].
  intros [= _ <-] k h'. simpl. rewrite length_app. simpl.
  rewrite lookup_insert. case_decide; [intros [= <-]; lia|].
  intros Hk. specialize (Hwf _ _ Hk). lia.
Qed.
