(* ===== verification/NodePath.v ===== *)
(** * A model of Node's POSIX path library: resolve, relative, basename

    [helper.path] and [helper.file] call [path.relative] and
    [path.basename].  [node_path] models them on lists of path segments:
    - [split_slash] is [s.split('/')], [join_slash] is [a.join('/')];
    - [norm_segs] is the normalisation of [path.resolve]: empty and ["."]
      segments are dropped, [".."] removes the last kept segment (and is
      dropped at the root);
    - [resolve_segs cwd p]: the segments of [path.resolve(p)], [p] read
      from the working directory [cwd] unless it starts with ['/'];
    - [relative_path cwd from to]: [""] when both resolve to the same
      path, otherwise one [".."] for each segment of [from] past the
      longest common prefix, then the rest of [to], joined by ['/'];
    - [basename]: the last non-empty segment ([path.basename] ignores
      trailing slashes).
    The round trip [resolve_relative] shows [relative] is right: resolving
    its result from [from] gives [to]. *)

From S2P Require Import Prelude Runtime.
From Stdlib Require Import Ascii.

Definition slash : ascii := "/"%char.

Fixpoint split_slash (s : string) : list string :=
  match s with
  | EmptyString => [""]
  | String c s' =>
      let rest := split_slash s' in
      if Ascii.eqb c slash then "" :: rest
      else match rest with
           | seg :: segs => String c seg :: segs
           | [] => [String c ""]
           end
  end.

Fixpoint join_slash (l : list string) : string :=
  match l with
  | [] => ""
  | [x] => x
  | x :: l' => (x ++ "/" ++ join_slash l')%string
  end.

(** The stack [acc] holds the kept segments, last first. *)
Fixpoint norm_segs (acc : list string) (segs : list string) : list string :=
  match segs with
  | [] => acc
  | s :: ss =>
      if String.eqb s "" || String.eqb s "." then norm_segs acc ss
      else if String.eqb s ".." then norm_segs (tail acc) ss
      else norm_segs (s :: acc) ss
  end.

Definition is_absolute (p : string) : bool :=
  match p with String c _ => Ascii.eqb c slash | EmptyString => false end.

Definition resolve_segs (cwd p : string) : list string :=
  let full := if is_absolute p then p else (cwd ++ "/" ++ p)%string in
  rev (norm_segs [] (split_slash full)).

Fixpoint common_len (a b : list string) : nat :=
  match a, b with
  | x :: a', y :: b' => if String.eqb x y then S (common_len a' b') else 0
  | _, _ => 0
  end.

Definition relative_path (cwd from to : string) : string :=
  if String.eqb from to then ""
  else
    let f := resolve_segs cwd from in
    let t := resolve_segs cwd to in
    if bool_decide (f = t) then ""
    else
      let c := common_len f t in
      join_slash (replicate (List.length f - c) ".." ++ drop c t).

Definition basename (p : string) : string :=
  default "" (last (filter (fun s => negb (String.eqb s "")) (split_slash p))).

#[export] Instance node_path : PathLib := {
  path_relative := relative_path;
  path_basename := basename
}.

(** A segment [path.resolve] keeps: no slash, not empty, not [.] or [..]. *)
Fixpoint no_slash (s : string) : bool :=
  match s with
  | EmptyString => true
  | String c s' => negb (Ascii.eqb c slash) && no_slash s'
  end.

Definition normal_seg (s : string) : bool :=
  no_slash s && negb (String.eqb s "") && negb (String.eqb s ".") &&
  negb (String.eqb s "..").

Example relative_example :
  relative_path "/srv" "/srv/app/lib" "/srv/app/test/unit" = "../test/unit".
Proof. reflexivity. Qed.

Example basename_example : basename "/srv/app/index.js/" = "index.js".
Proof. reflexivity. Qed.

(** ** Lemmas *)

Lemma norm_segs_app acc l1 l2 :
  norm_segs acc (l1 ++ l2) = norm_segs (norm_segs acc l1) l2.
Proof.
  revert acc. induction l1 as [|s l1 IH]; intros acc; [done|]. simpl.
  by repeat case_match.
Qed.

Lemma norm_segs_normal acc l :
  Forall (fun s => normal_seg s = true) l -> norm_segs acc l = rev l ++ acc.
Proof.
  revert acc. induction l as [|s l IH]; intros acc Hl; [done|].
  inversion Hl as [|? ? Hs Hl']; subst. unfold normal_seg in Hs.
  apply andb_prop in Hs as [Hs H3]. apply andb_prop in Hs as [Hs H2].
  apply andb_prop in Hs as [Hs H1]. apply negb_true_iff in H1, H2, H3.
  simpl. rewrite H1, H2, H3. simpl. rewrite IH by done.
  rewrite <- app_assoc. reflexivity.
Qed.

Lemma norm_segs_dots acc k :
  norm_segs acc (replicate k "..") = drop k acc.
Proof.
  revert acc. induction k as [|k IH]; intros acc; [done|]. simpl.
  rewrite IH. destruct acc; simpl; rewrite ?drop_nil; done.
Qed.

Lemma split_slash_no_slash s : Forall (fun x => no_slash x = true) (split_slash s).
Proof.
  induction s as [|c s IH]; simpl; [by repeat constructor|].
  destruct (Ascii.eqb c slash) eqn:Hc; [by constructor|].
  destruct (split_slash s) as [|seg segs]; [by repeat constructor; simpl; rewrite Hc|].
  inversion IH; subst. constructor; [|done]. simpl. by rewrite Hc.
Qed.

(** The segments [path.resolve] keeps are normal. *)
Lemma norm_segs_normal_inv acc l :
  Forall (fun s => normal_seg s = true) acc ->
  Forall (fun x => no_slash x = true) l ->
  Forall (fun s => normal_seg s = true) (norm_segs acc l).
Proof.
  revert acc. induction l as [|s l IH]; intros acc Hacc Hl; [done|].
  inversion Hl as [|? ? Hs Hl']; subst. simpl.
  destruct (String.eqb s "") eqn:E1, (String.eqb s ".") eqn:E2; simpl; try by apply IH.
  destruct (String.eqb s "..") eqn:E3.
  - apply IH; [|done]. destruct acc; [done|]. by inversion Hacc.
  - apply IH; [|done]. constructor; [|done].
    unfold normal_seg. by rewrite Hs, E1, E2, E3.
Qed.

Lemma resolve_segs_normal cwd p :
  Forall (fun s => normal_seg s = true) (resolve_segs cwd p).
Proof.
  unfold resolve_segs. apply Forall_rev, norm_segs_normal_inv; [done|].
  apply split_slash_no_slash.
Qed.

Lemma split_slash_single x : no_slash x = true -> split_slash x = [x].
Proof.
  induction x as [|c x IH]; [done|]. simpl. intros [Hc Hx]%andb_prop.
  apply negb_true_iff in Hc. by rewrite Hc, IH.
Qed.

Lemma split_slash_app x s :
  no_slash x = true -> split_slash (x ++ "/" ++ s)%string = x :: split_slash s.
Proof.
  induction x as [|c x IH]; [done|]. intros [Hc Hx]%andb_prop.
  apply negb_true_iff in Hc. rewrite string_app_cons. simpl. by rewrite Hc, IH.
Qed.

Lemma split_join l :
  l <> [] -> Forall (fun x => no_slash x = true) l -> split_slash (join_slash l) = l.
Proof.
  induction l as [|x [|y l] IH]; intros Hne Hl; [done| |].
  - inversion Hl; subst. by apply split_slash_single.
  - inversion Hl; subst. change (join_slash (x :: y :: l)) with
      (x ++ "/" ++ join_slash (y :: l))%string.
    rewrite split_slash_app by done. f_equal. by apply IH.
Qed.

Lemma common_len_spec a b :
  common_len a b <= List.length a /\ common_len a b <= List.length b /\
  take (common_len a b) a = take (common_len a b) b.
Proof.
  revert b. induction a as [|x a IH]; intros [|y b]; simpl; try (split_and!; done || lia).
  destruct (String.eqb_spec x y) as [->|]; simpl; [|split_and!; done || lia].
  destruct (IH b) as (H1 & H2 & H3). split_and!; [lia|lia|by rewrite H3].
Qed.

(** [path.resolve(base, rel)] for a relative [rel], on the segments of
    the resolved [base]. *)
Definition resolve_from (base : list string) (rel : string) : list string :=
  rev (norm_segs (rev base) (split_slash rel)).

Lemma resolve_from_empty base : resolve_from base "" = base.
Proof. unfold resolve_from. simpl. apply rev_involutive. Qed.

Lemma normal_no_slash l :
  Forall (fun s => normal_seg s = true) l -> Forall (fun x => no_slash x = true) l.
Proof.
  intros Hl. eapply Forall_impl; [exact Hl|]. intros s Hs. unfold normal_seg in Hs.
  by repeat apply andb_prop in Hs as [Hs _].
Qed.

(** Round trip: resolving [path.relative(from, to)] from [from] gives
    [to]. *)
Theorem resolve_relative cwd from to :
  resolve_from (resolve_segs cwd from) (relative_path cwd from to) =
  resolve_segs cwd to.
Proof.
  unfold relative_path.
  destruct (String.eqb_spec from to) as [->|_]; [apply resolve_from_empty|].
  set (f := resolve_segs cwd from). set (t := resolve_segs cwd to).
  case_bool_decide as Hft; [rewrite Hft; apply resolve_from_empty|].
  set (c := common_len f t). destruct (common_len_spec f t) as (Hcf & Hct & Htake).
  fold c in Hcf, Hct, Htake.
  assert (Forall (fun s => normal_seg s = true) (drop c t)) as Hrest
    by (apply Forall_drop, resolve_segs_normal).
  destruct (decide (replicate (List.length f - c) ".." ++ drop c t = [])) as [Hnil|Hne].
  - exfalso. apply app_eq_nil in Hnil as [Hr Hd].
    apply (f_equal List.length) in Hr, Hd. rewrite length_replicate in Hr.
    rewrite length_drop in Hd. apply Hft.
    rewrite <- (firstn_all f), <- (firstn_all t).
    replace (List.length f) with c by (simpl in *; lia).
    replace (List.length t) with c by (simpl in *; lia). done.
  - unfold resolve_from. rewrite split_join; [|done|].
    + rewrite norm_segs_app, norm_segs_dots, norm_segs_normal by done.
      rewrite skipn_rev, rev_app_distr, !rev_involutive.
      replace (List.length f - (List.length f - c)) with c by lia.
      rewrite Htake. apply take_drop.
    + apply Forall_app. split; [by apply Forall_replicate|by apply normal_no_slash].
Qed.
