(* ===== verification/Helper.v ===== *)
(** * The formatting helpers of src/index.js (lines 12-30)

    [helper] is a constant object of four functions, shared by every
    plugin ([this.helper = helper], line 35).  They are written against
    the [Styler] and [PathLib] interfaces:
    - [helper_path]: [from || process.cwd()], then [path.relative(from,
      dir)] ([Runtime.path_relative_js], which validates both arguments
      are strings and resolves them against the working directory),
      underlined;
    - [helper_file]: [path.basename(file)] ([Runtime.path_basename_js]),
      underlined;
    - [helper_number]: [n + ''], in cyan;
    - [helper_string]: ['`' + s + '`'], in green. *)

From S2P Require Import Prelude JsNumber JsValue Chalk Runtime NodePath.
From Stdlib Require Import DecimalString.

(** The object literal [var helper = { ... }] (lines 12-30): its four
    methods. *)
Record helper_obj : Type := HelperObj {
  h_path : value -> value -> M value;
  h_file : value -> M value;
  h_number : value -> value;
  h_string : value -> value
}.

Section Helper.
Context {STY : Styler} {PL : PathLib}.

(** [helper.path(dir, from)] *)
Definition helper_path (dir from : value) : M value :=
  let! from' := (if js_truthy from then st_ret from
                 else let! c := cwd in st_ret (VStr c)) in
  let! s := path_relative_js from' dir in
  st_ret (VStr (underline s)).

(** [helper.file(file)] *)
Definition helper_file (file : value) : M value :=
  let! s := path_basename_js file in
  st_ret (VStr (underline s)).

(** [helper.number(n)] *)
Definition helper_number (n : value) : value :=
  VStr (cyan (js_to_string (js_add n (VStr "")))).

(** [helper.string(s)] *)
Definition helper_string (s : value) : value :=
  VStr (green (js_to_string (js_add (js_add (VStr "`") s) (VStr "`")))).

Definition helper : helper_obj :=
  {| h_path := helper_path; h_file := helper_file;
     h_number := helper_number; h_string := helper_string |}.
End Helper.

(** ** Lemmas *)

Lemma no_esc_string_of_uint d : no_esc (NilEmpty.string_of_uint d) = true.
Proof. induction d; simpl; rewrite ?IHd; reflexivity. Qed.

(** The decimal numeral of an integer holds no escape character. *)
Lemma no_esc_Z_to_dec z : no_esc (Z_to_dec z) = true.
Proof.
  unfold Z_to_dec, NilEmpty.string_of_int.
  destruct (Z.to_int z); simpl; rewrite ?no_esc_string_of_uint; reflexivity.
Qed.

Lemma no_esc_zeros n : no_esc (zeros n) = true.
Proof. induction n as [|n IH]; [done|]. cbn [zeros no_esc]. by rewrite IH. Qed.

Lemma no_esc_app s t : no_esc (s ++ t) = no_esc s && no_esc t.
Proof.
  induction s as [|c s IH]; [done|]. rewrite string_app_cons. simpl.
  by rewrite IH, andb_assoc.
Qed.

(** [Number::toString] of an integer holds no escape character ... *)
Lemma no_esc_int_to_js_string z : no_esc (int_to_js_string z) = true.
Proof.
  unfold int_to_js_string. destruct (z =? 0)%Z; [done|].
  destruct (shortest (Z.abs z)) as [s e].
  pose proof (no_esc_Z_to_dec s) as Hs. remember (Z_to_dec s) as ds eqn:Hds.
  rewrite no_esc_app. apply andb_true_intro; split; [by destruct (z <? 0)%Z|].
  destruct (_ <=? _)%Z; [by rewrite no_esc_app, Hs, no_esc_zeros|].
  destruct ds as [|c rest]; [done|]. cbn [no_esc] in Hs |- *.
  apply andb_prop in Hs as [-> Hr].
  destruct (String.eqb rest ""); rewrite ?no_esc_app, ?Hr, ?no_esc_Z_to_dec; reflexivity.
Qed.

(** ... and is never empty. *)
Lemma int_to_js_string_nonempty z : int_to_js_string z <> "".
Proof.
  unfold int_to_js_string. destruct (z =? 0)%Z; [done|].
  destruct (shortest (Z.abs z)) as [s e].
  pose proof (Z_to_dec_nonempty s) as Hs. remember (Z_to_dec s) as ds eqn:Hds.
  destruct ds as [|c rest]; [done|].
  destruct (z <? 0)%Z, (_ <=? _)%Z; discriminate.
Qed.

Lemma no_esc_substring i j s : no_esc s = true -> no_esc (substring i j s) = true.
Proof.
  revert i j. induction s as [|c s IH]; intros [|i] [|j] Hs; try done;
    cbn [substring no_esc] in *; apply andb_prop in Hs as [Hc Hs]; [|by apply IH..].
  rewrite Hc. cbn [andb]. by apply IH.
Qed.

(** The layouts of [Number::toString] keep the digits free of escape
    characters ... *)
Lemma no_esc_format_digits ds n : no_esc ds = true -> no_esc (format_digits ds n) = true.
Proof.
  intros Hds. unfold format_digits.
  destruct (_ && _); [by rewrite no_esc_app, Hds, no_esc_zeros|].
  destruct (_ && _); [by rewrite !no_esc_app, !no_esc_substring|].
  destruct (_ && _); [by rewrite !no_esc_app, no_esc_zeros, Hds|].
  destruct ds as [|c rest]; [done|]. cbn [no_esc] in Hds |- *.
  apply andb_prop in Hds as [-> Hr].
  destruct (String.eqb rest ""), (0 <=? _)%Z; rewrite ?no_esc_app, ?Hr, ?no_esc_Z_to_dec; reflexivity.
Qed.

(** ... and non-empty. *)
Lemma format_digits_nonempty ds n : ds <> "" -> format_digits ds n <> "".
Proof.
  intros Hds. unfold format_digits.
  destruct (_ && _); [destruct ds; [done|discriminate]|].
  destruct (_ && _).
  { intros H. apply (f_equal String.length) in H. rewrite !string_length_app in H.
    cbn [String.length] in H. lia. }
  destruct (_ && _); [discriminate|].
  destruct ds; [done|discriminate].
Qed.

Lemma no_esc_num_to_string n : no_esc (num_to_string n) = true.
Proof.
  destruct n as [z|m k| |[]]; cbn [num_to_string]; try reflexivity.
  - apply no_esc_int_to_js_string.
  - unfold frac_to_js_string. destruct (frac_shortest _ _) as [s e].
    rewrite no_esc_app, no_esc_format_digits by apply no_esc_Z_to_dec.
    by destruct (m <? 0)%Z.
Qed.

Lemma num_to_string_nonempty n : num_to_string n <> "".
Proof.
  destruct n as [z|m k| |[]]; cbn [num_to_string]; try discriminate.
  - apply int_to_js_string_nonempty.
  - unfold frac_to_js_string. destruct (frac_shortest _ _) as [s e].
    pose proof (format_digits_nonempty (Z_to_dec s)
                  (Z.of_nat (String.length (Z_to_dec s)) + e) (Z_to_dec_nonempty s)).
    destruct (m <? 0)%Z; [discriminate|done].
Qed.

Lemma string_app_nonempty_l c s t : (String c s ++ t)%string <> "".
Proof. done. Qed.

Section HelperTheorems.
Context {STY : Styler} {PL : PathLib}.

(** [helper.number(n)] is [cyan] of [ToString(n)], for every value:
    [n + ''] is the string conversion. *)
Lemma helper_number_eq v : helper_number v = VStr (cyan (js_to_string v)).
Proof.
  unfold helper_number. rewrite js_add_str_r. simpl.
  by rewrite string_app_nil_r.
Qed.

(** [helper.string(s)] is [green] of the string between backquotes. *)
Lemma helper_string_eq v :
  helper_string v = VStr (green ("`" ++ js_to_string v ++ "`")).
Proof.
  unfold helper_string. rewrite js_add_str_l, js_add_str_r. simpl.
  by rewrite string_app_cons.
Qed.

(** C17. [helper.string(s)] is [green] of the string between backquotes. *)
Theorem helper_string_spec v :
  helper_string v = VStr (green ("`" ++ js_to_string v ++ "`")).
Proof. apply helper_string_eq. Qed.

(** With a falsy [from] ([undefined], [null], [''], [0], [false]),
    [helper.path] measures from the working directory. *)
Lemma helper_path_default_from d from w :
  js_truthy from = false ->
  helper_path (VStr d) from w =
  (inr (VStr (underline (path_relative (w_cwd w) (w_cwd w) d))), w).
Proof. intros Hf. unfold helper_path. by rewrite Hf. Qed.

End HelperTheorems.

(** ** With chalk's colours and Node's path library *)

(** C19. [helper.number(n)] on any number, colours on: [Number::toString]
    of [n] (integer, fraction, [NaN] or infinite) between cyan's open and
    close codes (the spec's [helper.number(42)] example, for every
    number). *)
Theorem helper_number_colored n :
  helper_number (STY := chalk1 true) (VNum n) =
  VStr (csi "36" ++ num_to_string n ++ csi "39").
Proof.
  rewrite helper_number_eq. simpl.
  rewrite (chalk_apply_wrap ansi_cyan "39");
    [done|done|apply num_to_string_nonempty|apply no_esc_num_to_string].
Qed.

(** C30. [helper.number(n)], colours on, on an integer [n] a double holds
    exactly ([|n| <= 2^53 - 1]): the exact decimal numeral of [n] (an
    optional minus sign and the digits, no exponent), which reads back as
    [n], between cyan's codes. *)
Theorem helper_number_safe z :
  js_safe z ->
  helper_number (STY := chalk1 true) (VNum (JInt z)) = VStr (csi "36" ++ Z_to_dec z ++ csi "39") /\
  dec_to_Z (Z_to_dec z) = Some z.
Proof.
  intros Hz. destruct (num_to_string_safe z Hz) as [Hs Hr].
  rewrite helper_number_eq. simpl. rewrite (chalk_apply_wrap ansi_cyan "39");
    [|done|apply (num_to_string_nonempty (JInt z))|apply (no_esc_num_to_string (JInt z))].
  split; [|by rewrite <- Hs]. cbn [num_to_string] in Hs. by rewrite Hs.
Qed.

(** C20. [helper.string(s)], colours on, on a string with no escape
    character: the string between backquotes, between green's codes. *)
Theorem helper_string_colored s :
  no_esc s = true ->
  helper_string (STY := chalk1 true) (VStr s) =
  VStr (csi "32" ++ "`" ++ s ++ "`" ++ csi "39").
Proof.
  intros Hs. rewrite helper_string_eq. simpl.
  rewrite (chalk_apply_wrap ansi_green "39"); [|done|apply string_app_nonempty_l|].
  - simpl. by rewrite !string_app_assoc.
  - rewrite string_app_cons. cbn [no_esc]. rewrite !no_esc_app, Hs. reflexivity.
Qed.

(** C21. [helper.path(dir, from)] with a non-empty string [from], on
    non-terminal output (no colours): the path it returns, resolved from
    [from], is [dir]. *)
Theorem helper_path_roundtrip d f w :
  f <> "" ->
  exists r, helper_path (STY := chalk1 false) (PL := node_path) (VStr d) (VStr f) w =
            (inr (VStr r), w) /\
    resolve_from (resolve_segs (w_cwd w) f) r = resolve_segs (w_cwd w) d.
Proof.
  intros Hf. unfold helper_path. simpl.
  destruct (String.eqb_spec f ""); [done|]. simpl.
  eexists. split; [reflexivity|]. apply resolve_relative.
Qed.

(** ** Witnesses *)

Lemma helper_number_safe_witness :
  helper_number (STY := chalk1 true) (VNum (JInt (-9007199254740991))) =
    VStr (csi "36" ++ "-9007199254740991" ++ csi "39") /\
  dec_to_Z "-9007199254740991" = Some (-9007199254740991)%Z.
Proof. apply helper_number_safe. unfold js_safe, js_max_safe. lia. Defined.

Lemma helper_string_colored_witness :
  helper_string (STY := chalk1 true) (VStr "x") = VStr (csi "32" ++ "`x`" ++ csi "39").
Proof. apply helper_string_colored. reflexivity. Defined.

Lemma helper_path_roundtrip_witness :
  exists r, helper_path (STY := chalk1 false) (PL := node_path) (VStr "/srv/app/test")
              (VStr "lib") (mkWorld ∅ 0 "/srv/app" ∅ [] []) = (inr (VStr r), mkWorld ∅ 0 "/srv/app" ∅ [] []) /\
    resolve_from (resolve_segs "/srv/app" "lib") r = resolve_segs "/srv/app" "/srv/app/test".
Proof. apply helper_path_roundtrip. discriminate. Defined.
