(* ===== verification/LoggerPlugin.v ===== *)
(** * LoggerPlugin: the facade of src/index.js (lines 32-110)

    A [plugin] is the object [new LoggerPlugin(config)] builds: its
    [config] and its cached [_logger] ([null] until the first call);
    [this.helper] is the constant [helper] object of [Helper].  The
    prototype's methods run in [PM], the monad whose state is [this] and
    the world, so that the write [this._logger = ...] and the heap writes
    persist when a later statement throws, as in JavaScript.  Over the
    collaborators [Styler], [DateFormat] and [Backend]:
    - [rewrite_transport]: the body of the immediately-invoked function of
      lines 47-60, which replaces a string [timestamp] by the closure
      [VTsFun format transport];
    - [rewrite_timestamps]: the [for (var n in logOptions)] loop of lines
      46-61, which reads [logOptions[n]] afresh at each key;
    - [call_timestamp]: a call of that closure (lines 52-59), as the
      backend makes it for each log line;
    - [log_id]: the identifier [this.config.id + time] (line 63);
    - [_getLogger] (lines 38-67), [log] (lines 69-74) and the six leveled
      methods (lines 76-110).

    The heap-level reading of the loop is [rewrite_at]/[rw_obj]: the loop
    rewrites each transport object it reaches, once, whatever the order
    and the aliasing of the transports.  [ts_policy] and
    [render_timestamp] are the spec's abstract timestamp policy, which the
    closures refine while [colorize] is left alone.  The module [Fixture]
    holds the concrete configuration the witnesses run on. *)

From S2P Require Import Prelude JsNumber JsNumberDigits JsValue Chalk Runtime DateFormat Winston NodePath Helper.

Record plugin : Type := Plugin { pl_config : config; pl_logger : value }.

Inductive level : Type := Silly | Debug | Verbose | Info | Warn | LError.

Definition level_name (lv : level) : string :=
  match lv with
  | Silly => "silly" | Debug => "debug" | Verbose => "verbose"
  | Info => "info" | Warn => "warn" | LError => "error"
  end.

Section Plugin.
Context {STY : Styler} {DF : DateFormat} {BE : Backend}.

(** [var LoggerPlugin = function(config){ ... }] *)
Definition LoggerPlugin (config : config) : plugin := Plugin config VNull.

(** [this.helper = helper] (line 35): every plugin's [helper] is the one
    constant object of Helper.v, which no code of the module writes
    again; it is therefore read from there rather than stored in
    [plugin]. *)
Definition pl_helper {PL : PathLib} (p : plugin) : helper_obj := helper.

(** [(function(transport){ ... })(logOptions[n])]: [typeof format !==
    'string'] holds exactly when [format] is not a [VStr]
    ([js_typeof_string]). *)
Definition rewrite_transport (transport : value) : M unit :=
  let! format := get_prop transport "timestamp" in
  match format with
  | VStr f => set_prop transport "timestamp" (VTsFun f transport)
  | _ => st_ret tt
  end.

(** [for (var n in logOptions){ (...)(logOptions[n]); }] *)
Definition rewrite_timestamps (logOptions : value) : M unit :=
  let! ks := keys_of logOptions in
  st_iter (fun n => let! t := get_prop logOptions n in rewrite_transport t) ks.

(** A call of the closure [transport.timestamp] with no argument. *)
Definition call_timestamp (fn : value) : M value :=
  match fn with
  | VTsFun format transport =>
      let! t := now in
      let str := dateFormat t format in
      let! c := get_prop transport "colorize" in
      if js_strict_eq c (VStr "true") then st_ret (VStr (gray str))
      else st_ret (VStr str)
  | _ => throw (TypeError (js_to_string fn ++ " is not a function"))
  end.

(** [this.config.id + (new Date()).getTime()] (line 63) *)
Definition log_id (c : config) (t : Z) : value := js_add (cfg_id c) (VNum (JInt t)).

(** A method runs with [this] and the world as its state, so that a
    write to [this] persists when a later statement throws. *)
Abbreviation PM A := (st (plugin * world) exn A).

(** [this] *)
Definition this : PM plugin := fun s => (inr s.1, s).

(** A statement that touches only the world. *)
Definition on_world {A} (m : M A) : PM A :=
  fun s => let (r, w') := m s.2 in (r, (s.1, w')).

(** [this._logger = v] *)
Definition set_logger (v : value) : PM unit :=
  fun s => (inr tt, (Plugin (pl_config s.1) v, s.2)).

(** [LoggerPlugin.prototype._getLogger] *)
Definition _getLogger : PM value :=
  let! p := this in
  if js_truthy (pl_logger p) then st_ret (pl_logger p)
  else
    let! logOptions := on_world (cfg_get (pl_config p) "log" true) in
    on_world (rewrite_timestamps logOptions) ;;
    let! t := on_world now in
    let logId := log_id (pl_config p) t in
    let! lg := on_world (loggers_add logId logOptions) in
    set_logger lg ;;
    let! p' := this in
    st_ret (pl_logger p').

(** [LoggerPlugin.prototype.log]: all the arguments, the level first,
    go to the logger. *)
Definition log (args : list value) : PM unit :=
  let! logger := _getLogger in
  on_world (logger_log logger args).

(** [silly], [debug], [verbose], [info], [warn], [error]: the level's
    name is put in front of the arguments ([args.unshift(level)]). *)
Definition leveled (lv : level) (args : list value) : PM unit :=
  log (VStr (level_name lv) :: args).

Definition silly := leveled Silly.
Definition debug := leveled Debug.
Definition verbose := leveled Verbose.
Definition info := leveled Info.
Definition warn := leveled Warn.
Definition error := leveled LError.
End Plugin.

(** ** The effect of the rewrite loop on the heap *)

(** The transport object at [l] after its visit. *)
Definition rw_obj (l : loc) (o : obj) : obj :=
  match alist_get "timestamp" o with
  | Some (VStr f) => alist_set "timestamp" (VTsFun f (VObj l)) o
  | _ => o
  end.

Definition rewrite_at (h : heap) (l : loc) : heap :=
  match h !! l with
  | Some o => <[l := rw_obj l o]> h
  | None => h
  end.

(** The transport objects [logOptions] (an object at [L]) names, in the
    order of its keys. *)
Definition targets (h : heap) (L : loc) : list loc :=
  omap (fun n => match alist_get n (heap_obj h L) with
                 | Some (VObj l) => Some l
                 | _ => None
                 end) (alist_keys (heap_obj h L)).

Definition js_nullish (v : value) : bool :=
  match v with VUndef | VNull => true | _ => false end.

(** The transport objects named by the keys [ks] of [logOptions]. *)
Definition tgt (h : heap) (L : loc) (ks : list string) : list loc :=
  omap (fun n => match alist_get n (heap_obj h L) with
                 | Some (VObj l) => Some l
                 | _ => None
                 end) ks.

(** What the visit of a key whose value was [v0] does to the heap. *)
Definition step_heap (hc : heap) (v0 : value) : heap :=
  match v0 with VObj l => rewrite_at hc l | _ => hc end.

(** ** Lemmas on the heap-level reading *)

Lemma rw_obj_idem l o : rw_obj l (rw_obj l o) = rw_obj l o.
Proof.
  unfold rw_obj. destruct (alist_get "timestamp" o) as [[]|] eqn:E; rewrite ?E; try done.
  by rewrite alist_get_set_eq.
Qed.

Lemma rw_obj_get_ne l o n :
  n <> "timestamp" -> alist_get n (rw_obj l o) = alist_get n o.
Proof.
  intros Hn. unfold rw_obj.
  destruct (alist_get "timestamp" o) as [[]|]; try done.
  apply alist_get_set_ne. congruence.
Qed.

Lemma rw_obj_keys l o : alist_keys (rw_obj l o) = alist_keys o.
Proof.
  unfold rw_obj. destruct (alist_get "timestamp" o) as [[]|] eqn:E; try done.
  apply alist_keys_set_present. by rewrite E.
Qed.

Lemma rw_obj_nil l : rw_obj l [] = [].
Proof. reflexivity. Qed.

Lemma lookup_rewrite_at h t l :
  rewrite_at h t !! l = if decide (l = t) then rw_obj l <$> h !! l else h !! l.
Proof.
  unfold rewrite_at. destruct (h !! t) as [o|] eqn:E; case_decide; subst.
  - by rewrite lookup_insert_eq, E.
  - by rewrite lookup_insert_ne.
  - by rewrite E.
  - done.
Qed.

(** After the visits of [ts], each object is rewritten once if it was
    visited, and left alone otherwise. *)
Lemma lookup_foldl_rewrite h ts l :
  foldl rewrite_at h ts !! l =
  if decide (l ∈ ts) then rw_obj l <$> h !! l else h !! l.
Proof.
  revert h. induction ts as [|t ts IH]; intros h; cbn [foldl].
  - rewrite decide_False; [done|]. apply not_elem_of_nil.
  - rewrite IH, lookup_rewrite_at.
    destruct (decide (l = t)) as [->|Hne].
    + destruct (decide (t ∈ t :: ts)) as [_|Hn];
        [|by destruct Hn; apply elem_of_cons; left].
      destruct (decide (t ∈ ts)), (h !! t); simpl; by rewrite ?rw_obj_idem.
    + destruct (decide (l ∈ t :: ts)) as [Hin'|Hin'], (decide (l ∈ ts)) as [Hin|Hin];
        try done; exfalso.
      * apply elem_of_cons in Hin' as [|]; done.
      * apply Hin', elem_of_cons. by right.
Qed.

Lemma heap_obj_foldl_rewrite h ts L :
  heap_obj (foldl rewrite_at h ts) L =
  if decide (L ∈ ts) then rw_obj L (heap_obj h L) else heap_obj h L.
Proof.
  unfold heap_obj. rewrite lookup_foldl_rewrite.
  case_decide; [by destruct (h !! L)|done].
Qed.

Lemma foldl_rewrite_app h ts1 ts2 :
  foldl rewrite_at h (ts1 ++ ts2) = foldl rewrite_at (foldl rewrite_at h ts1) ts2.
Proof. apply foldl_app. Qed.

#[export] Hint Rewrite rw_obj_idem rw_obj_keys lookup_foldl_rewrite
  heap_obj_foldl_rewrite : tcl_rw.

(** ** The rewrite of one transport *)

Lemma rewrite_transport_obj l w :
  rewrite_transport (VObj l) w = (inr tt, set_heap (rewrite_at (w_heap w) l) w).
Proof.
  unfold rewrite_transport, st_bind. rewrite get_prop_obj.
  unfold rewrite_at, rw_obj, heap_obj.
  destruct (w_heap w !! l) as [o|] eqn:E; simpl; [|by rewrite set_heap_same].
  destruct (alist_get "timestamp" o) as [[]|]; simpl;
    rewrite ?set_prop_obj; unfold heap_obj; rewrite ?E; try done;
    by rewrite insert_id, set_heap_same.
Qed.

(** Visiting any value that is not [null] or [undefined] succeeds and
    rewrites it when it is an object. *)
Lemma rewrite_transport_ok v w :
  js_nullish v = false ->
  rewrite_transport v w = (inr tt, set_heap (step_heap (w_heap w) v) w).
Proof.
  intros Hv. destruct v; try done; simpl; rewrite ?set_heap_same; try done.
  apply rewrite_transport_obj.
Qed.

Lemma rewrite_transport_nullish v w :
  js_nullish v = true -> exists msg, rewrite_transport v w = (inl (TypeError msg), w).
Proof. destruct v; try done; intros _; eexists; reflexivity. Qed.

(** The value [logOptions[n]] read during the loop is the value it had
    before the loop, except that [logOptions.timestamp] may have become a
    closure if [logOptions] is itself one of the transports: a change the
    visit does not see. *)
Lemma visit_value h L ts n v0 :
  alist_get n (heap_obj h L) = Some v0 ->
  exists vc, alist_get n (heap_obj (foldl rewrite_at h ts) L) = Some vc /\
    js_nullish vc = js_nullish v0 /\ (forall hc, step_heap hc vc = step_heap hc v0).
Proof.
  intros Hn. rewrite heap_obj_foldl_rewrite. case_decide; [|eauto].
  destruct (decide (n = "timestamp")) as [->|Hne].
  - unfold rw_obj. rewrite Hn. destruct v0; eauto.
    rewrite alist_get_set_eq. eauto.
  - rewrite rw_obj_get_ne by done. eauto.
Qed.

Lemma step_heap_foldl h ts L n v0 :
  alist_get n (heap_obj h L) = Some v0 ->
  step_heap (foldl rewrite_at h ts) v0 = foldl rewrite_at h (ts ++ tgt h L [n]).
Proof.
  intros Hn. unfold tgt. simpl. rewrite Hn, foldl_app.
  by destruct v0.
Qed.

(** ** The loop *)

Lemma tgt_cons h L n ks : tgt h L (n :: ks) = tgt h L [n] ++ tgt h L ks.
Proof. unfold tgt. simpl. by destruct (alist_get n (heap_obj h L)) as [[]|]. Qed.

Definition visit (L : loc) (n : string) : M unit :=
  let! t := get_prop (VObj L) n in rewrite_transport t.

Lemma iter_visit h L ks ts w :
  w_heap w = foldl rewrite_at h ts ->
  (forall n, n ∈ ks -> exists v, alist_get n (heap_obj h L) = Some v /\
                                 js_nullish v = false) ->
  st_iter (visit L) ks w =
  (inr tt, set_heap (foldl rewrite_at h (ts ++ tgt h L ks)) w).
Proof.
  revert ts w. induction ks as [|n ks IH]; intros ts w Hw Hks; cbn [st_iter].
  - by rewrite app_nil_r, <- Hw, set_heap_same.
  - destruct (Hks n) as (v0 & Hn & Hv0); [by apply elem_of_cons; left|].
    destruct (visit_value h L ts n v0 Hn) as (vc & Hc & Hnull & Hstep).
    unfold st_bind at 1, visit, st_bind at 1.
    rewrite get_prop_obj, Hw, Hc. simpl.
    rewrite rewrite_transport_ok by congruence. simpl.
    rewrite (IH (ts ++ tgt h L [n])).
    + by rewrite set_heap_set_heap, <- app_assoc, <- tgt_cons.
    + cbn [w_heap set_heap]. by rewrite Hstep, Hw, (step_heap_foldl h ts L n v0 Hn).
    + intros m Hm. apply Hks, elem_of_cons. by right.
Qed.

(** No value of [logOptions] is [null] or [undefined]. *)
Definition entries_defined (h : heap) (L : loc) : Prop :=
  forall n v, alist_get n (heap_obj h L) = Some v -> js_nullish v = false.

(** A boolean check of [entries_defined], for concrete heaps. *)
Lemma entries_defined_check h L :
  forallb (fun kv => negb (js_nullish kv.2)) (heap_obj h L) = true ->
  entries_defined h L.
Proof.
  intros Hall n v Hv. apply alist_get_In in Hv.
  rewrite forallb_forall in Hall. apply Hall in Hv. simpl in Hv.
  by destruct (js_nullish v).
Qed.

Lemma rewrite_timestamps_foldl L w :
  entries_defined (w_heap w) L ->
  rewrite_timestamps (VObj L) w =
  (inr tt, set_heap (foldl rewrite_at (w_heap w) (targets (w_heap w) L)) w).
Proof.
  intros Hdef. unfold rewrite_timestamps, keys_of, st_bind. simpl.
  apply (iter_visit (w_heap w) L _ [] w); [done|].
  intros n Hn. destruct (alist_get_keys _ _ Hn) as [v Hv]. eauto.
Qed.

Lemma targets_foldl h ts L : targets (foldl rewrite_at h ts) L = targets h L.
Proof.
  unfold targets. rewrite heap_obj_foldl_rewrite.
  case_decide; [|done]. rewrite rw_obj_keys. apply omap_ext_pw. intros n.
  destruct (decide (n = "timestamp")) as [->|Hne].
  - unfold rw_obj. destruct (alist_get "timestamp" (heap_obj h L)) as [[]|] eqn:E;
      rewrite ?E; try done. by rewrite alist_get_set_eq.
  - by rewrite rw_obj_get_ne.
Qed.

Lemma entries_defined_foldl h ts L :
  entries_defined h L -> entries_defined (foldl rewrite_at h ts) L.
Proof.
  intros Hdef n v Hv. rewrite heap_obj_foldl_rewrite in Hv. case_decide; [|eauto].
  destruct (decide (n = "timestamp")) as [->|Hne].
  - unfold rw_obj in Hv. destruct (alist_get "timestamp" (heap_obj h L)) as [[]|] eqn:E;
      try (by eapply Hdef). rewrite alist_get_set_eq in Hv. by simplify_eq.
  - rewrite rw_obj_get_ne in Hv by done. eauto.
Qed.

Lemma foldl_rewrite_twice h ts :
  foldl rewrite_at (foldl rewrite_at h ts) ts = foldl rewrite_at h ts.
Proof.
  apply map_eq. intros l. rewrite !lookup_foldl_rewrite.
  case_decide; [|done]. destruct (h !! l); simpl; by rewrite ?rw_obj_idem.
Qed.

Section Theorems.
Context {STY : Styler} {DF : DateFormat} {BE : Backend} {BL : BackendLaws}.

(** C2. The rewrite loop, on a [logOptions] object none of whose values is
    [null] or [undefined], succeeds; afterwards each object that is a value
    of [logOptions] holds what [rw_obj] makes of it (its string
    [timestamp] replaced by the closure over that very object) and every
    other object of the heap is unchanged, whatever the order of the keys
    and however the transports alias each other. *)
Theorem rewrite_timestamps_spec L w :
  entries_defined (w_heap w) L ->
  exists h', rewrite_timestamps (VObj L) w = (inr tt, set_heap h' w) /\
    forall l, h' !! l = if decide (l ∈ targets (w_heap w) L)
                        then rw_obj l <$> w_heap w !! l else w_heap w !! l.
Proof.
  intros Hdef. eexists. split; [by apply rewrite_timestamps_foldl|].
  intros l. apply lookup_foldl_rewrite.
Qed.
End Theorems.

Lemma elem_of_targets h L n l :
  alist_get n (heap_obj h L) = Some (VObj l) -> l ∈ targets h L.
Proof.
  intros Hn. apply list_elem_of_omap. exists n. split.
  - by eapply alist_get_in_keys.
  - by rewrite Hn.
Qed.

Lemma rewrite_timestamps_result L w r w' :
  entries_defined (w_heap w) L ->
  rewrite_timestamps (VObj L) w = (r, w') ->
  r = inr tt /\ w' = set_heap (foldl rewrite_at (w_heap w) (targets (w_heap w) L)) w.
Proof. intros Hdef. rewrite rewrite_timestamps_foldl by done. by intros [= <- <-]. Qed.

(** Reading the character at an index [for .. in] produced. *)
Lemma str_index_in_range s i :
  i < String.length s -> exists c, str_index s (Z_to_dec (Z.of_nat i)) = VStr c.
Proof.
  intros Hi. unfold str_index. rewrite dec_to_Z_Z_to_dec, String.eqb_refl, Nat2Z.id.
  destruct (string_get_lt s i Hi) as [c ->].
  eexists. rewrite (proj2 (Z.leb_le 0 _)); [done|lia].
Qed.

Section LoopTheorems.
Variable L : loc.

(** A transport object named by [logOptions] whose [timestamp] is
    a string [f] ends the loop with [timestamp] the closure over [f] and
    that transport object; its other properties are unchanged. *)
Lemma string_timestamp_closure w r w' n l f :
  entries_defined (w_heap w) L ->
  alist_get n (heap_obj (w_heap w) L) = Some (VObj l) ->
  alist_get "timestamp" (heap_obj (w_heap w) l) = Some (VStr f) ->
  rewrite_timestamps (VObj L) w = (r, w') ->
  r = inr tt /\
  alist_get "timestamp" (heap_obj (w_heap w') l) = Some (VTsFun f (VObj l)) /\
  (forall k, k <> "timestamp" ->
     alist_get k (heap_obj (w_heap w') l) = alist_get k (heap_obj (w_heap w) l)).
Proof.
  intros Hdef Hn Hts Hrun.
  destruct (rewrite_timestamps_result L w r w' Hdef Hrun) as [-> ->].
  cbn [w_heap set_heap]. rewrite heap_obj_foldl_rewrite.
  rewrite decide_True by (by eapply elem_of_targets).
  unfold rw_obj. rewrite Hts. split_and!; [done|apply alist_get_set_eq|].
  intros k Hk. apply alist_get_set_ne. congruence.
Qed.

(** C3. A transport object named by [logOptions] whose [timestamp] is
    a string [f] ends the loop with [timestamp] the closure over [f] and
    that transport object; its other properties are unchanged. *)
Theorem string_timestamp_rewritten w r w' n l f :
  entries_defined (w_heap w) L ->
  alist_get n (heap_obj (w_heap w) L) = Some (VObj l) ->
  alist_get "timestamp" (heap_obj (w_heap w) l) = Some (VStr f) ->
  rewrite_timestamps (VObj L) w = (r, w') ->
  r = inr tt /\
  alist_get "timestamp" (heap_obj (w_heap w') l) = Some (VTsFun f (VObj l)) /\
  (forall k, k <> "timestamp" ->
     alist_get k (heap_obj (w_heap w') l) = alist_get k (heap_obj (w_heap w) l)).
Proof. apply string_timestamp_closure. Qed.

(** The loop changes no object whose [timestamp] is not a string
    (absent, boolean, number, object or an earlier closure): such an
    object, and every object of the heap outside [logOptions]'s values,
    is left exactly as it was. *)
Lemma nonstring_timestamp_kept w r w' l :
  entries_defined (w_heap w) L ->
  (forall f, alist_get "timestamp" (heap_obj (w_heap w) l) <> Some (VStr f)) ->
  rewrite_timestamps (VObj L) w = (r, w') ->
  r = inr tt /\ w_heap w' !! l = w_heap w !! l.
Proof.
  intros Hdef Hts Hrun.
  destruct (rewrite_timestamps_result L w r w' Hdef Hrun) as [-> ->].
  split; [done|]. cbn [w_heap set_heap]. rewrite lookup_foldl_rewrite.
  case_decide; [|done]. unfold heap_obj in Hts.
  destruct (w_heap w !! l) as [o|]; [|done]. simpl. unfold rw_obj.
  destruct (alist_get "timestamp" o) as [[]|] eqn:E; try done.
  by destruct (Hts s).
Qed.

(** C4. The loop changes no object whose [timestamp] is not a string
    (absent, boolean, number, object or an earlier closure): such an
    object, and every object of the heap outside [logOptions]'s values,
    is left exactly as it was. *)
Theorem nonstring_timestamp_untouched w r w' l :
  entries_defined (w_heap w) L ->
  (forall f, alist_get "timestamp" (heap_obj (w_heap w) l) <> Some (VStr f)) ->
  rewrite_timestamps (VObj L) w = (r, w') ->
  r = inr tt /\ w_heap w' !! l = w_heap w !! l.
Proof. apply nonstring_timestamp_kept. Qed.

(** C5. The loop is idempotent: run again on the world it produced (as
    happens when a second plugin shares the same configuration tree),
    it succeeds and changes nothing; no closure is wrapped twice. *)
Theorem rewrite_timestamps_idempotent w w' :
  entries_defined (w_heap w) L ->
  rewrite_timestamps (VObj L) w = (inr tt, w') ->
  rewrite_timestamps (VObj L) w' = (inr tt, w').
Proof.
  intros Hdef Hrun.
  destruct (rewrite_timestamps_result L w _ w' Hdef Hrun) as [_ ->].
  rewrite rewrite_timestamps_foldl.
  - cbn [w_heap set_heap]. by rewrite targets_foldl, foldl_rewrite_twice,
      set_heap_set_heap.
  - by apply entries_defined_foldl.
Qed.
End LoopTheorems.

(** C6. When [logOptions] is not an object (a string, a number, a boolean,
    [null], [undefined], a function) the loop visits nothing it can
    change: it succeeds and leaves the world as it was. *)
Theorem rewrite_timestamps_nonobject v w :
  (forall l, v <> VObj l) -> rewrite_timestamps v w = (inr tt, w).
Proof.
  intros Hv. unfold rewrite_timestamps, keys_of, st_bind. simpl.
  apply st_iter_noop. intros n Hn.
  destruct v as [| | | |s|l| |]; simpl in Hn; try by apply elem_of_nil in Hn.
  - apply list_elem_of_fmap in Hn as (i & -> & Hi%elem_of_seq).
    destruct (str_index_in_range s i) as [c Hc]; [lia|].
    unfold st_bind, get_prop, js_get. cbn [w_heap].
    destruct (String.eqb _ "length"); simpl; [done|]. by rewrite Hc.
  - by destruct (Hv l).
Qed.

Lemma strict_eq_default_true o :
  js_strict_eq (default VUndef o) (VStr "true") = bool_decide (o = Some (VStr "true")).
Proof.
  rewrite js_strict_eq_str. destruct o as [v|]; simpl; [|done].
  apply bool_decide_ext. split; [by intros ->|congruence].
Qed.

Section GetLogger.
Context {STY : Styler} {DF : DateFormat} {BE : Backend} {BL : BackendLaws}.

(** Calling the closure made for a transport at [l] with pattern [f]
    formats the current time with [f] and returns it in gray exactly
    when, at the time of the call, the transport's [colorize] is the
    string ["true"]; otherwise the formatted time alone.  The call
    changes nothing. *)
Lemma call_timestamp_eq f l w :
  call_timestamp (VTsFun f (VObj l)) w =
  (inr (VStr (if bool_decide (alist_get "colorize" (heap_obj (w_heap w) l)
                              = Some (VStr "true"))
              then gray (dateFormat (w_now w) f)
              else dateFormat (w_now w) f)), w).
Proof.
  unfold call_timestamp, st_bind, now. rewrite get_prop_obj.
  rewrite strict_eq_default_true. by case_bool_decide.
Qed.

(** C7. Calling the closure made for a transport at [l] with pattern [f]
    formats the current time with [f] and returns it in gray exactly
    when, at the time of the call, the transport's [colorize] is the
    string ["true"]; otherwise the formatted time alone.  The call
    changes nothing. *)
Theorem call_timestamp_spec f l w :
  call_timestamp (VTsFun f (VObj l)) w =
  (inr (VStr (if bool_decide (alist_get "colorize" (heap_obj (w_heap w) l)
                              = Some (VStr "true"))
              then gray (dateFormat (w_now w) f)
              else dateFormat (w_now w) f)), w).
Proof. apply call_timestamp_eq. Qed.

Lemma getLogger_cached p w :
  js_truthy (pl_logger p) = true -> _getLogger (p, w) = (inr (pl_logger p), (p, w)).
Proof. intros Ht. unfold _getLogger, st_bind, this. cbn [fst]. by rewrite Ht. Qed.

(** Memoisation: a successful [_getLogger] leaves [this._logger]
    holding a truthy logger, the one returned, and every later call, on
    any world and even after the plugin's configuration is replaced,
    returns that same logger and does nothing else: no configuration
    read, no rewrite, no registration. *)
Lemma getLogger_caches p w lg p' w' :
  _getLogger (p, w) = (inr lg, (p', w')) ->
  pl_logger p' = lg /\ js_truthy lg = true /\
  forall c w2, _getLogger (Plugin c lg, w2) = (inr lg, (Plugin c lg, w2)).
Proof.
  intros Hrun.
  assert (pl_logger p' = lg /\ js_truthy lg = true) as [Hp Ht].
  { revert Hrun. unfold _getLogger, st_bind, this, on_world, set_logger, st_ret.
    cbn [fst snd]. destruct (js_truthy (pl_logger p)) eqn:Ht0; [by intros [= <- <- <-]|].
    repeat case_match; intros; simplify_eq; try done.
    match goal with H : loggers_add _ _ _ = (inr _, _) |- _ =>
      destruct (add_ok _ _ _ _ _ H) as (h & -> & _) end. done. }
  split_and!; [done|done|]. intros c w2. by apply getLogger_cached.
Qed.

(** C1. Memoisation: a successful [_getLogger] leaves [this._logger]
    holding a truthy logger, the one returned, and every later call, on
    any world and even after the plugin's configuration is replaced,
    returns that same logger and does nothing else: no configuration
    read, no rewrite, no registration. *)
Theorem getLogger_memo p w lg p' w' :
  _getLogger (p, w) = (inr lg, (p', w')) ->
  pl_logger p' = lg /\ js_truthy lg = true /\
  forall c w2, _getLogger (Plugin c lg, w2) = (inr lg, (Plugin c lg, w2)).
Proof. apply getLogger_caches. Qed.
End GetLogger.

Section FirstCall.
Context {BE : Backend} {BL : BackendLaws}.

(** The first call, up to the registration: read the configuration,
    run the loop, read the clock; [this._logger] is written only when the
    registration succeeds. *)
Lemma getLogger_unfold_first c L w :
  cfg_get c "log" true w = (inr (VObj L), w) ->
  entries_defined (w_heap w) L ->
  _getLogger (LoggerPlugin c, w) =
  let w1 := set_heap (foldl rewrite_at (w_heap w) (targets (w_heap w) L)) w in
  match loggers_add (log_id c (w_now w)) (VObj L) w1 with
  | (inr lg, w2) => (inr lg, (Plugin c lg, w2))
  | (inl e, w2) => (inl e, (LoggerPlugin c, w2))
  end.
Proof.
  intros Hcfg Hdef. unfold _getLogger, st_bind, this, on_world, set_logger, st_ret.
  cbn [fst snd LoggerPlugin pl_logger pl_config js_truthy]. rewrite Hcfg.
  cbn [fst snd]. rewrite (rewrite_timestamps_foldl L w Hdef). cbn [fst snd now w_now set_heap].
  by destruct (loggers_add _ _ _) as [[e|lg] w2].
Qed.

(** The first call on a fresh plugin whose configuration's [get]
    returns the object [logOptions] (none of its values [null] or
    [undefined]): the heap ends rewritten by the loop, nothing is logged;
    on success [this._logger] caches the logger returned, which the
    backend registry holds under [ToString(config.id + time)], the time
    being read once, after the loop; on failure nothing is cached. *)
Lemma getLogger_first_run c L w r p' w' :
  cfg_get c "log" true w = (inr (VObj L), w) ->
  entries_defined (w_heap w) L ->
  _getLogger (LoggerPlugin c, w) = (r, (p', w')) ->
  w_heap w' = foldl rewrite_at (w_heap w) (targets (w_heap w) L) /\
  w_now w' = w_now w /\ w_trace w' = w_trace w /\
  match r with
  | inr lg => exists h, lg = VLogger h /\ p' = Plugin c lg /\
      w_registry w' !! js_to_string (log_id c (w_now w)) = Some h
  | inl _ => p' = LoggerPlugin c
  end.
Proof.
  intros Hcfg Hdef. rewrite (getLogger_unfold_first c L w Hcfg Hdef). cbv zeta.
  set (w1 := set_heap _ w).
  destruct (loggers_add (log_id c (w_now w)) (VObj L) w1) as [[e|v] w2] eqn:E;
    intros [= <- <- <-]; apply add_frame in E as Hfr; destruct Hfr as (-> & -> & _ & ->);
    split_and!; try done.
  destruct (add_ok _ _ _ _ _ E) as (h & -> & Hreg & _). by exists h.
Qed.

(** C8. The first call on a fresh plugin whose configuration's [get]
    returns the object [logOptions] (none of its values [null] or
    [undefined]): the heap ends rewritten by the loop, nothing is logged;
    on success [this._logger] caches the logger returned, which the
    backend registry holds under [ToString(config.id + time)], the time
    being read once, after the loop; on failure nothing is cached. *)
Theorem getLogger_first c L w r p' w' :
  cfg_get c "log" true w = (inr (VObj L), w) ->
  entries_defined (w_heap w) L ->
  _getLogger (LoggerPlugin c, w) = (r, (p', w')) ->
  w_heap w' = foldl rewrite_at (w_heap w) (targets (w_heap w) L) /\
  w_now w' = w_now w /\ w_trace w' = w_trace w /\
  match r with
  | inr lg => exists h, lg = VLogger h /\ p' = Plugin c lg /\
      w_registry w' !! js_to_string (log_id c (w_now w)) = Some h
  | inl _ => p' = LoggerPlugin c
  end.
Proof. apply getLogger_first_run. Qed.
(** C18. Errors of the configuration propagate (the spec's error
    taxonomy (a)): when [config.get] throws, a leveled call throws the
    same exception, nothing reaches the backend, and the plugin is left
    without a logger, so that its next call asks the configuration
    again. *)
Theorem config_error_propagates lv c w e w1 args r s' :
  cfg_get c "log" true w = (inl e, w1) ->
  leveled lv args (LoggerPlugin c, w) = (r, s') -> r = inl e /\ s' = (LoggerPlugin c, w1).
Proof.
  intros Hcfg. unfold leveled, log.
  erewrite st_bind_err; [by intros [= <- <-]|].
  unfold _getLogger, st_bind, this, on_world.
  cbn [fst snd LoggerPlugin pl_logger pl_config js_truthy]. by rewrite Hcfg.
Qed.
End FirstCall.

(** ** The logger identifier *)

(** C9. With a string or an integer [config.id], loggers created at
    different milliseconds get different registry names, as long as the
    numbers printed stay below [2^53] in absolute value: the
    concatenation (or the exact sum) keeps the time apart. *)
Theorem log_id_distinct_times c t1 t2 :
  ((exists s, cfg_id c = VStr s) /\ js_safe t1 /\ js_safe t2) \/
  (exists k, cfg_id c = VNum (JInt k) /\ js_safe (k + t1) /\ js_safe (k + t2)) ->
  t1 <> t2 -> js_to_string (log_id c t1) <> js_to_string (log_id c t2).
Proof.
  unfold log_id. intros [[[s Hs] [H1 H2]]|[k (Hk & H1 & H2)]] Ht; rewrite ?Hs, ?Hk.
  - rewrite !js_add_str_l. simpl. intros Heq%string_app_inv_l.
    by apply Ht, int_to_js_string_inj_safe.
  - rewrite !js_add_int, !round_double_exact by (unfold js_safe, js_max_safe in *; lia).
    simpl. intros Heq%int_to_js_string_inj_safe; [lia|done|done].
Qed.

(** C10. A numeric [config.id] is added to the time, not concatenated:
    the plugin with id [k + d] created at [t - d] gets the same registry
    name as the plugin with id [k] created at [t]. *)
Theorem log_id_numeric_collision c1 c2 k d t :
  cfg_id c1 = VNum (JInt k) -> cfg_id c2 = VNum (JInt (k + d)) ->
  js_to_string (log_id c1 t) = js_to_string (log_id c2 (t - d)).
Proof.
  unfold log_id. intros -> ->. rewrite !js_add_int.
  by replace (k + d + (t - d))%Z with (k + t)%Z by lia.
Qed.

(** C29. The sum [config.id + time] is a double: from [2^53] on, where
    the doubles are the even integers, a numeric [config.id] such that
    [id + t] is a multiple of 4 gives the plugins created at the two
    consecutive milliseconds [t] and [t + 1] the same registry name, the
    odd sum rounding (a tie, to the even significand) onto the even one. *)
Theorem log_id_rounding_collision c k (t : Z) :
  cfg_id c = VNum (JInt k) -> (2 ^ 53 <= k + t < 2 ^ 54 - 2)%Z -> ((k + t) mod 4 = 0)%Z ->
  js_to_string (log_id c t) = js_to_string (log_id c (t + 1)).
Proof.
  unfold log_id. intros -> Hb H4. rewrite !js_add_int, Z.add_assoc.
  by destruct (round_double_tie (k + t) Hb H4) as [-> ->].
Qed.

(** A missing [config.id] makes every identifier [NaN]: all such
    plugins, at every time, ask the backend for the logger named "NaN". *)
Lemma log_id_undefined c t :
  cfg_id c = VUndef -> js_to_string (log_id c t) = "NaN".
Proof. unfold log_id. by intros ->. Qed.


(** C12. With string ids, the name does not separate the id from the
    time: for every string [s] and time [t > 0], the plugin with id
    [s + '1'] created at [t] and the plugin with id [s] created at the
    time whose digits are ['1'] followed by those of [t] get the same
    registry name (["app1"] at [23] and ["app"] at [123]), as long as
    that time is below [2^53]. *)
Theorem log_id_string_collision c1 c2 s t :
  cfg_id c1 = VStr (s ++ "1") -> cfg_id c2 = VStr s -> (0 < t)%Z ->
  js_safe (10 ^ dec_len t + t) ->
  js_to_string (log_id c1 t) = js_to_string (log_id c2 (10 ^ dec_len t + t)%Z).
Proof.
  unfold log_id. intros -> -> Ht Hs. rewrite !js_add_str_l. cbn [js_to_string num_to_string].
  pose proof (dec_len_pos t). assert (0 < 10 ^ dec_len t)%Z by (apply Z.pow_pos_nonneg; lia).
  rewrite !int_to_js_string_safe by (unfold js_safe in *; lia).
  rewrite <- (Z.mul_1_l (10 ^ dec_len t)%Z), Z_to_dec_prepend by lia.
  by rewrite string_app_assoc.
Qed.

(** ** Logging, errors and sharing *)

Section Logging.
Context {BE : Backend} {BL : BackendLaws}.

Lemma log_cached p h args w :
  pl_logger p = VLogger h ->
  log args (p, w) = (inr tt, (p, push_event (LogCall h args) w)).
Proof.
  intros Hp. unfold log. rewrite (st_bind_ok _ _ _ _ _ (getLogger_cached p w ltac:(by rewrite Hp))).
  unfold on_world. cbn [fst snd]. by rewrite Hp, log_logger.
Qed.

(** C13. On a plugin holding its logger, each leveled method hands the
    backend exactly one [log] call whose arguments are the method's level
    name followed by the caller's arguments, and changes nothing else. *)
Theorem leveled_methods c h args w :
  let s := (Plugin c (VLogger h), w) in
  silly args s = (inr tt, (s.1, push_event (LogCall h (VStr "silly" :: args)) w)) /\
  debug args s = (inr tt, (s.1, push_event (LogCall h (VStr "debug" :: args)) w)) /\
  verbose args s = (inr tt, (s.1, push_event (LogCall h (VStr "verbose" :: args)) w)) /\
  info args s = (inr tt, (s.1, push_event (LogCall h (VStr "info" :: args)) w)) /\
  warn args s = (inr tt, (s.1, push_event (LogCall h (VStr "warn" :: args)) w)) /\
  error args s = (inr tt, (s.1, push_event (LogCall h (VStr "error" :: args)) w)).
Proof. split_and!; by apply log_cached. Qed.

Lemma rewrite_timestamps_error L w ks1 n ks2 v :
  alist_keys (heap_obj (w_heap w) L) = ks1 ++ n :: ks2 ->
  (forall m, m ∈ ks1 -> exists v', alist_get m (heap_obj (w_heap w) L) = Some v' /\
                                  js_nullish v' = false) ->
  alist_get n (heap_obj (w_heap w) L) = Some v -> js_nullish v = true ->
  exists msg, rewrite_timestamps (VObj L) w =
    (inl (TypeError msg),
     set_heap (foldl rewrite_at (w_heap w) (tgt (w_heap w) L ks1)) w).
Proof.
  intros Hks H1 Hn Hv. unfold rewrite_timestamps, keys_of, st_bind. simpl.
  rewrite Hks. fold (visit L). rewrite st_iter_app.
  rewrite (st_bind_ok _ _ _ _ _ (iter_visit (w_heap w) L ks1 [] w eq_refl H1)).
  cbn [st_iter]. rewrite app_nil_l.
  destruct (visit_value (w_heap w) L (tgt (w_heap w) L ks1) n v Hn)
    as (vc & Hc & Hnull & _).
  unfold st_bind at 1. cbn [w_heap set_heap]. rewrite Hc. cbn [default id].
  destruct (rewrite_transport_nullish vc
              (set_heap (foldl rewrite_at (w_heap w) (tgt (w_heap w) L ks1)) w))
    as [msg ->]; [congruence|]. by exists msg.
Qed.

(** C14. A [null] or [undefined] transport makes the first call throw
    a TypeError: the transports before it in key order have already been
    rewritten (the writes persist), nothing is registered, nothing is
    logged, and no logger is cached, so the next call starts over. *)
Theorem getLogger_null_transport c L w ks1 n ks2 v r p' w' :
  cfg_get c "log" true w = (inr (VObj L), w) ->
  alist_keys (heap_obj (w_heap w) L) = ks1 ++ n :: ks2 ->
  (forall m, m ∈ ks1 -> exists v', alist_get m (heap_obj (w_heap w) L) = Some v' /\
                                  js_nullish v' = false) ->
  alist_get n (heap_obj (w_heap w) L) = Some v -> js_nullish v = true ->
  _getLogger (LoggerPlugin c, w) = (r, (p', w')) ->
  (exists msg, r = inl (TypeError msg)) /\ p' = LoggerPlugin c /\
  w' = set_heap (foldl rewrite_at (w_heap w) (tgt (w_heap w) L ks1)) w.
Proof.
  intros Hcfg Hks H1 Hn Hv. unfold _getLogger, st_bind, this, on_world.
  cbn [fst snd LoggerPlugin pl_logger pl_config js_truthy]. rewrite Hcfg. cbn [fst snd].
  destruct (rewrite_timestamps_error L w ks1 n ks2 v Hks H1 Hn Hv) as [msg ->].
  intros [= <- <- <-]. eauto.
Qed.

(** C15. Two plugins whose configurations have the same [id], created
    within the same millisecond, share one logger: the second call finds
    the first plugin's logger in the registry and returns it; the second
    configuration's transports are rewritten but never registered. *)
Theorem same_id_same_ms_share_logger c1 c2 L1 L2 w lg p1 w1 :
  cfg_get c1 "log" true w = (inr (VObj L1), w) ->
  entries_defined (w_heap w) L1 ->
  _getLogger (LoggerPlugin c1, w) = (inr lg, (p1, w1)) ->
  cfg_id c2 = cfg_id c1 ->
  cfg_get c2 "log" true w1 = (inr (VObj L2), w1) ->
  entries_defined (w_heap w1) L2 ->
  _getLogger (LoggerPlugin c2, w1) =
  (inr lg, (Plugin c2 lg,
            set_heap (foldl rewrite_at (w_heap w1) (targets (w_heap w1) L2)) w1)).
Proof.
  intros Hc1 Hd1 Hrun1 Hid Hc2 Hd2.
  destruct (getLogger_first_run c1 L1 w _ _ w1 Hc1 Hd1 Hrun1)
    as (_ & Hnow & _ & h & -> & _ & Hh).
  rewrite (getLogger_unfold_first c2 L2 w1 Hc2 Hd2). cbv zeta.
  rewrite (add_hit _ _ _ h); [done|].
  cbn [w_registry set_heap]. unfold log_id. by rewrite Hid, Hnow.
Qed.

(** A first call whose identifier is already registered returns the
    registered logger. *)
Lemma getLogger_registered c L w h :
  cfg_get c "log" true w = (inr (VObj L), w) ->
  entries_defined (w_heap w) L ->
  w_registry w !! js_to_string (log_id c (w_now w)) = Some h ->
  _getLogger (LoggerPlugin c, w) =
  (inr (VLogger h), (Plugin c (VLogger h),
     set_heap (foldl rewrite_at (w_heap w) (targets (w_heap w) L)) w)).
Proof.
  intros Hcfg Hdef Hh. rewrite (getLogger_unfold_first c L w Hcfg Hdef). cbv zeta.
  by rewrite (add_hit _ _ _ h).
Qed.

(** C25. Whenever a later plugin's identifier names the same registry
    entry as an earlier plugin's (same id in the same millisecond, two
    missing ids at any times, ['app1'] at 23 and ['app'] at 123, numeric
    ids offset by the time difference), the later plugin gets the earlier
    plugin's logger and its own transports are never registered, as long
    as the registry still holds the entry. *)
Theorem name_collision_shares_logger c1 c2 L1 L2 w lg p1 w1 w2 :
  cfg_get c1 "log" true w = (inr (VObj L1), w) ->
  entries_defined (w_heap w) L1 ->
  _getLogger (LoggerPlugin c1, w) = (inr lg, (p1, w1)) ->
  js_to_string (log_id c2 (w_now w2)) = js_to_string (log_id c1 (w_now w)) ->
  w_registry w2 !! js_to_string (log_id c1 (w_now w)) =
    w_registry w1 !! js_to_string (log_id c1 (w_now w)) ->
  cfg_get c2 "log" true w2 = (inr (VObj L2), w2) ->
  entries_defined (w_heap w2) L2 ->
  _getLogger (LoggerPlugin c2, w2) =
  (inr lg, (Plugin c2 lg,
            set_heap (foldl rewrite_at (w_heap w2) (targets (w_heap w2) L2)) w2)).
Proof.
  intros Hc1 Hd1 Hrun1 Hname Hreg2 Hc2 Hd2.
  destruct (getLogger_first_run c1 L1 w _ _ w1 Hc1 Hd1 Hrun1) as (_ & _ & _ & h & -> & _ & Hh).
  apply getLogger_registered; [done|done|]. by rewrite Hname, Hreg2.
Qed.

(** C26. The spec's example: on a fresh plugin whose [config.id] is the
    string [s], a successful first [info(args)] hands the backend exactly
    one call [log('info', args...)] on a logger registered under [s]
    followed by the time in milliseconds. *)
Theorem first_info_logs c L w s args p' w' :
  cfg_id c = VStr s ->
  cfg_get c "log" true w = (inr (VObj L), w) ->
  entries_defined (w_heap w) L ->
  info args (LoggerPlugin c, w) = (inr tt, (p', w')) ->
  exists h, w_trace w' = w_trace w ++ [LogCall h (VStr "info" :: args)] /\
    w_registry w' !! (s ++ int_to_js_string (w_now w))%string = Some h.
Proof.
  intros Hid Hcfg Hdef. unfold info, leveled, log.
  destruct (_getLogger (LoggerPlugin c, w)) as [r [p1 w1]] eqn:Hget.
  destruct (getLogger_first_run c L w r p1 w1 Hcfg Hdef Hget) as (_ & _ & Htr & Hr).
  destruct r as [e|lg]; [by rewrite (st_bind_err _ _ _ _ _ Hget)|].
  destruct Hr as (h & -> & _ & Hh). rewrite (st_bind_ok _ _ _ _ _ Hget).
  unfold on_world. cbn [fst snd]. rewrite log_logger. intros [= <- <-].
  exists h. cbn [push_event w_trace w_registry]. rewrite Htr. split; [done|].
  unfold log_id in Hh. by rewrite Hid, js_add_str_l in Hh.
Qed.

End Logging.

(** ** The plugin's life

    A run interleaves calls of the plugin's methods with what the rest of
    the program does: the clock moves, other code writes objects of the
    heap, [this.config] is replaced.  [plugin_step] is one such step;
    [rtc plugin_step] a run. *)

Inductive env_step : world -> world -> Prop :=
| EnvTick w dt : (0 <= dt)%Z -> env_step w (tick dt w)
| EnvHeap w h : env_step w (set_heap h w).

Section Lifecycle.
Context {BE : Backend}.

Inductive plugin_step : plugin * world -> plugin * world -> Prop :=
| StepGetLogger s r s' : _getLogger s = (r, s') -> plugin_step s s'
| StepLog args s r s' : log args s = (r, s') -> plugin_step s s'
| StepLeveled lv args s r s' : leveled lv args s = (r, s') -> plugin_step s s'
| StepEnv p w w' : env_step w w' -> plugin_step (p, w) (p, w')
| StepConfig p c w : plugin_step (p, w) (Plugin c (pl_logger p), w).

Lemma log_cached_plugin args p w r s' :
  js_truthy (pl_logger p) = true -> log args (p, w) = (r, s') -> s'.1 = p.
Proof.
  intros Ht. unfold log. rewrite (st_bind_ok _ _ _ _ _ (getLogger_cached p w Ht)).
  unfold on_world. cbn [fst snd]. destruct (logger_log _ _ _). by intros [= _ <-].
Qed.

Lemma plugin_step_keeps_logger s s' :
  plugin_step s s' -> js_truthy (pl_logger s.1) = true ->
  pl_logger s'.1 = pl_logger s.1.
Proof.
  destruct s as [p w].
  intros Hst Ht; inversion Hst as [? r ? Hrun|args ? r ? Hrun|lv args ? r ? Hrun| |];
    subst; cbn [fst] in *; try done.
  - rewrite getLogger_cached in Hrun by done. by injection Hrun as _ <-.
  - by rewrite (log_cached_plugin args p w r s').
  - by rewrite (log_cached_plugin (VStr (level_name lv) :: args) p w r s').
Qed.

(** C24. Once [this._logger] is set, no run of the program changes it:
    whatever methods are called, however the clock moves, whatever other
    code writes to the heap, and even when [this.config] is replaced, the
    plugin keeps the same logger. *)
Theorem cached_logger_stable s s' :
  rtc plugin_step s s' -> js_truthy (pl_logger s.1) = true ->
  pl_logger s'.1 = pl_logger s.1.
Proof.
  induction 1 as [s|s1 s2 s3 Hst Hrun IH]; intros Ht; [done|].
  pose proof (plugin_step_keeps_logger s1 s2 Hst Ht) as Heq.
  rewrite <- Heq. apply IH. by rewrite Heq.
Qed.
End Lifecycle.

(** ** The closure with chalk's colours *)

Section Colours.
Context {DF : DateFormat}.

(** C16. With colours enabled and [colorize: 'true'], the closure
    returns the formatted time between gray's open and close codes, as
    the spec's testable properties ask, whenever the formatted time is
    not empty and holds no escape character. *)
Theorem colorized_timestamp_gray f l w :
  alist_get "colorize" (heap_obj (w_heap w) l) = Some (VStr "true") ->
  dateFormat (w_now w) f <> "" -> no_esc (dateFormat (w_now w) f) = true ->
  call_timestamp (STY := chalk1 true) (VTsFun f (VObj l)) w =
  (inr (VStr (csi "90" ++ dateFormat (w_now w) f ++ csi "39")), w).
Proof.
  intros Hc Hne Hesc. rewrite call_timestamp_eq, Hc, bool_decide_true by done.
  simpl. by rewrite (chalk_apply_wrap ansi_gray "39").
Qed.

End Colours.

(** ** Refinement of the spec's timestamp policy

    The spec's design notes describe each transport by a policy fixed at
    construction: [Raw] (the timestamp option is kept as it is) or
    [Formatted pattern colorized], rendered per log line by
    [render_timestamp].  The code meets this contract as long as the
    transport's [colorize] is not changed after construction
    ([timestamp_refines_policy]); when it is, the closure follows the new
    value ([timestamp_policy_follows_colorize]). *)

Inductive ts_policy : Type :=
| Raw (v : value)
| Formatted (pattern : string) (colorized : bool).

Definition policy_of (o : obj) : ts_policy :=
  match alist_get "timestamp" o with
  | Some (VStr f) =>
      Formatted f (bool_decide (alist_get "colorize" o = Some (VStr "true")))
  | other => Raw (default VUndef other)
  end.

Definition render_timestamp {STY : Styler} {DF : DateFormat} (p : ts_policy) (t : Z) : option string :=
  match p with
  | Formatted f c => Some (if c then gray (dateFormat t f) else dateFormat t f)
  | Raw _ => None
  end.

Section Refinement.
Context {STY : Styler} {DF : DateFormat}.

(** C22. Refinement: after the loop, a transport whose policy is
    [Formatted] holds a closure, and calling it at any later time, while
    [colorize] keeps its value, returns what [render_timestamp] makes of
    the policy at that time; a transport whose policy is [Raw v] keeps
    [v] as its timestamp. *)
Theorem timestamp_refines_policy L w w' n l w2 :
  entries_defined (w_heap w) L ->
  alist_get n (heap_obj (w_heap w) L) = Some (VObj l) ->
  rewrite_timestamps (VObj L) w = (inr tt, w') ->
  alist_get "colorize" (heap_obj (w_heap w2) l) =
    alist_get "colorize" (heap_obj (w_heap w) l) ->
  match policy_of (heap_obj (w_heap w) l) with
  | Formatted f c =>
      exists fn, alist_get "timestamp" (heap_obj (w_heap w') l) = Some fn /\
        fst (call_timestamp fn w2) =
          inr (VStr (default "" (render_timestamp (Formatted f c) (w_now w2))))
  | Raw v =>
      default VUndef (alist_get "timestamp" (heap_obj (w_heap w') l)) = v
  end.
Proof.
  intros Hdef Hn Hrun Hcol. unfold policy_of.
  destruct (alist_get "timestamp" (heap_obj (w_heap w) l)) as [v|] eqn:Hts.
  - destruct v as [| | | |f| | |];
      try (destruct (nonstring_timestamp_kept L w _ w' l Hdef
                       ltac:(by rewrite Hts) Hrun) as [_ Heq];
           unfold heap_obj in *; by rewrite Heq, Hts).
    destruct (string_timestamp_closure L w _ w' n l f Hdef Hn Hts Hrun)
      as (_ & Hnew & _).
    eexists. split; [exact Hnew|]. rewrite call_timestamp_eq. simpl.
    by rewrite Hcol.
  - destruct (nonstring_timestamp_kept L w _ w' l Hdef
                ltac:(by rewrite Hts) Hrun) as [_ Heq].
    unfold heap_obj in *. by rewrite Heq, Hts.
Qed.
End Refinement.

Lemma no_esc_csi code s : no_esc (csi code ++ s) = false.
Proof. unfold csi. rewrite string_app_cons. cbn [no_esc]. by rewrite Ascii.eqb_refl. Qed.

Section Divergence.
Context {DF : DateFormat}.

(** C23. The policy is not fixed at construction: a transport built with
    [colorize: 'true'] whose [colorize] is changed afterwards gets a plain
    timestamp from its closure, not the gray one its construction-time
    policy renders (colours on, a non-empty formatted time). *)
Theorem timestamp_policy_follows_colorize f l w w2 :
  alist_get "timestamp" (heap_obj (w_heap w) l) = Some (VStr f) ->
  alist_get "colorize" (heap_obj (w_heap w) l) = Some (VStr "true") ->
  alist_get "colorize" (heap_obj (w_heap w2) l) <> Some (VStr "true") ->
  dateFormat (w_now w2) f <> "" -> no_esc (dateFormat (w_now w2) f) = true ->
  fst (call_timestamp (STY := chalk1 true) (VTsFun f (VObj l)) w2) =
    inr (VStr (dateFormat (w_now w2) f)) /\
  fst (call_timestamp (STY := chalk1 true) (VTsFun f (VObj l)) w2) <>
    inr (VStr (default "" (render_timestamp (STY := chalk1 true)
                (policy_of (heap_obj (w_heap w) l)) (w_now w2)))).
Proof.
  intros Hts Hc Hc2 Hne Hesc. rewrite call_timestamp_eq, bool_decide_false by done.
  unfold policy_of. rewrite Hts, Hc, bool_decide_true by done. simpl.
  split; [done|]. rewrite (chalk_apply_wrap ansi_gray "39") by done.
  intros [= Heq]. rewrite Heq in Hesc. by rewrite no_esc_csi in Hesc.
Qed.
End Divergence.

(** ** Witnesses

    A configuration [log] tree with a console transport (a string
    timestamp, [colorize: 'true']) and a file transport (a boolean
    timestamp), run with the winston model, the time-of-day formatter and
    colours enabled. *)

Module Fixture.
Definition heap0 : heap :=
  list_to_map [
    (1, [("console", VObj 2); ("file", VObj 3)]);
    (2, [("timestamp", VStr "HH:MM:ss"); ("colorize", VStr "true")]);
    (3, [("timestamp", VBool true); ("filename", VStr "app.log")]);
    (4, [("console", VObj 5)]);
    (5, [("timestamp", VStr "ss")]);
    (6, [("console", VObj 2); ("bad", VNull); ("file", VObj 3)])].

Definition w0 : world := mkWorld heap0 45296789 "/srv/app" ∅ [] [].
Definition c0 : config := shared_config (VStr "app") (VObj 1).
Definition c_other : config := shared_config (VStr "app") (VObj 4).
Definition c_bad : config := shared_config (VStr "app") (VObj 6).
Definition c_err : config := Config (VStr "app") (fun _ _ => throw (Error "no log")).
Definition run0 := _getLogger (LoggerPlugin c0, w0).
Definition w1 : world := snd (snd run0).
End Fixture.
Import Fixture.

Lemma rewrite_timestamps_spec_witness :
  exists h', rewrite_timestamps (VObj 1) w0 = (inr tt, set_heap h' w0) /\
    forall l, h' !! l = if decide (l ∈ targets (w_heap w0) 1)
                        then rw_obj l <$> w_heap w0 !! l else w_heap w0 !! l.
Proof.
  apply rewrite_timestamps_spec. apply entries_defined_check. vm_compute. reflexivity.
Defined.

Lemma string_timestamp_rewritten_witness :
  let R := rewrite_timestamps (VObj 1) w0 in
  fst R = inr tt /\
  alist_get "timestamp" (heap_obj (w_heap (snd R)) 2) = Some (VTsFun "HH:MM:ss" (VObj 2)) /\
  (forall k, k <> "timestamp" ->
     alist_get k (heap_obj (w_heap (snd R)) 2) = alist_get k (heap_obj (w_heap w0) 2)).
Proof.
  apply (string_timestamp_rewritten 1 w0 _ _ "console").
  - apply entries_defined_check. vm_compute. reflexivity.
  - vm_compute. reflexivity.
  - vm_compute. reflexivity.
  - vm_compute. reflexivity.
Defined.

Lemma nonstring_timestamp_untouched_witness :
  let R := rewrite_timestamps (VObj 1) w0 in
  fst R = inr tt /\ w_heap (snd R) !! 3 = w_heap w0 !! 3.
Proof.
  apply (nonstring_timestamp_untouched 1 w0).
  - apply entries_defined_check. vm_compute. reflexivity.
  - intros f. vm_compute. discriminate.
  - vm_compute. reflexivity.
Defined.

Lemma rewrite_timestamps_idempotent_witness :
  rewrite_timestamps (VObj 1) (snd (rewrite_timestamps (VObj 1) w0)) =
  (inr tt, snd (rewrite_timestamps (VObj 1) w0)).
Proof.
  apply (rewrite_timestamps_idempotent 1 w0).
  - apply entries_defined_check. vm_compute. reflexivity.
  - vm_compute. reflexivity.
Defined.

Lemma rewrite_timestamps_nonobject_witness :
  rewrite_timestamps (VStr "abc") w0 = (inr tt, w0).
Proof. apply rewrite_timestamps_nonobject. discriminate. Defined.

Lemma getLogger_memo_witness :
  pl_logger (Plugin c0 (VLogger 0)) = VLogger 0 /\ js_truthy (VLogger 0) = true /\
  forall c w2, _getLogger (Plugin c (VLogger 0), w2) = (inr (VLogger 0), (Plugin c (VLogger 0), w2)).
Proof.
  apply (getLogger_memo (LoggerPlugin c0) w0 _ _ w1). vm_compute. reflexivity.
Defined.

Lemma getLogger_first_witness :
  w_heap w1 = foldl rewrite_at (w_heap w0) (targets (w_heap w0) 1) /\
  w_now w1 = w_now w0 /\ w_trace w1 = w_trace w0 /\
  match fst run0 with
  | inr lg => exists h, lg = VLogger h /\ fst (snd run0) = Plugin c0 lg /\
      w_registry w1 !! js_to_string (log_id c0 (w_now w0)) = Some h
  | inl _ => fst (snd run0) = LoggerPlugin c0
  end.
Proof.
  apply (getLogger_first c0 1 w0).
  - reflexivity.
  - apply entries_defined_check. vm_compute. reflexivity.
  - vm_compute. reflexivity.
Defined.

Lemma log_id_distinct_times_witness :
  js_to_string (log_id c0 1000) <> js_to_string (log_id c0 1001).
Proof.
  apply log_id_distinct_times; [|lia].
  left. split; [by exists "app"|unfold js_safe, js_max_safe; lia].
Defined.

Lemma log_id_numeric_collision_witness :
  js_to_string (log_id (shared_config (VNum (JInt 5)) (VObj 1)) 1000) =
  js_to_string (log_id (shared_config (VNum (JInt 7)) (VObj 1)) (1000 - 2)).
Proof. apply (log_id_numeric_collision _ _ 5 2 1000); reflexivity. Defined.

Lemma log_id_rounding_collision_witness :
  js_to_string (log_id (shared_config (VNum (JInt (2 ^ 53))) (VObj 1)) 1700000000000) =
  js_to_string (log_id (shared_config (VNum (JInt (2 ^ 53))) (VObj 1)) (1700000000000 + 1)).
Proof.
  apply (log_id_rounding_collision _ (2 ^ 53)); [reflexivity|lia|reflexivity].
Defined.


Lemma log_id_string_collision_witness :
  js_to_string (log_id (shared_config (VStr "app1") (VObj 1)) 23) =
  js_to_string (log_id c0 (10 ^ dec_len 23 + 23)%Z).
Proof.
  apply (log_id_string_collision _ _ "app"); [reflexivity|reflexivity|lia|].
  vm_compute. split; discriminate.
Defined.

Lemma getLogger_null_transport_witness :
  let R := _getLogger (LoggerPlugin c_bad, w0) in
  (exists msg, fst R = inl (TypeError msg)) /\ fst (snd R) = LoggerPlugin c_bad /\
  snd (snd R) = set_heap (foldl rewrite_at (w_heap w0) (tgt (w_heap w0) 6 ["console"])) w0.
Proof.
  apply (getLogger_null_transport c_bad 6 w0 ["console"] "bad" ["file"] VNull).
  - reflexivity.
  - vm_compute. reflexivity.
  - intros m Hm. apply list_elem_of_singleton in Hm as ->.
    exists (VObj 2). split; vm_compute; reflexivity.
  - vm_compute. reflexivity.
  - reflexivity.
  - vm_compute. reflexivity.
Defined.

Lemma same_id_same_ms_share_logger_witness :
  _getLogger (LoggerPlugin c_other, w1) =
  (inr (VLogger 0), (Plugin c_other (VLogger 0),
   set_heap (foldl rewrite_at (w_heap w1) (targets (w_heap w1) 4)) w1)).
Proof.
  apply (same_id_same_ms_share_logger c0 c_other 1 4 w0 (VLogger 0) (Plugin c0 (VLogger 0))).
  - reflexivity.
  - apply entries_defined_check. vm_compute. reflexivity.
  - vm_compute. reflexivity.
  - reflexivity.
  - reflexivity.
  - apply entries_defined_check. vm_compute. reflexivity.
Defined.

Lemma colorized_timestamp_gray_witness :
  call_timestamp (STY := chalk1 true) (VTsFun "HH:MM:ss" (VObj 2)) w0 =
  (inr (VStr (csi "90" ++ "12:34:56" ++ csi "39")), w0).
Proof.
  rewrite (colorized_timestamp_gray "HH:MM:ss" 2 w0).
  - reflexivity.
  - vm_compute. reflexivity.
  - vm_compute. discriminate.
  - vm_compute. reflexivity.
Defined.


Lemma leveled_methods_witness :
  let s := (Plugin c0 (VLogger 0), w0) in
  info [VStr "hello"] s = (inr tt, (s.1, push_event (LogCall 0 [VStr "info"; VStr "hello"]) w0)).
Proof. apply (leveled_methods c0 0 [VStr "hello"] w0). Defined.


Lemma timestamp_refines_policy_witness :
  let w' := snd (rewrite_timestamps (VObj 1) w0) in
  exists fn, alist_get "timestamp" (heap_obj (w_heap w') 2) = Some fn /\
    fst (call_timestamp (STY := chalk1 true) fn (tick 1000 w')) =
      inr (VStr (default "" (render_timestamp (STY := chalk1 true)
                  (Formatted "HH:MM:ss" true) (w_now (tick 1000 w'))))).
Proof.
  apply (timestamp_refines_policy (STY := chalk1 true) 1 w0 _ "console" 2).
  - apply entries_defined_check. vm_compute. reflexivity.
  - vm_compute. reflexivity.
  - vm_compute. reflexivity.
  - vm_compute. reflexivity.
Defined.

(** The console transport after construction, with [colorize] turned off. *)
Definition w_uncolored : world :=
  set_heap (<[2 := [("timestamp", VTsFun "HH:MM:ss" (VObj 2)); ("colorize", VStr "false")]]>
              (w_heap w1)) w1.

Lemma timestamp_policy_follows_colorize_witness :
  fst (call_timestamp (STY := chalk1 true) (VTsFun "HH:MM:ss" (VObj 2)) w_uncolored) =
    inr (VStr (dateFormat (w_now w_uncolored) "HH:MM:ss")) /\
  fst (call_timestamp (STY := chalk1 true) (VTsFun "HH:MM:ss" (VObj 2)) w_uncolored) <>
    inr (VStr (default "" (render_timestamp (STY := chalk1 true)
                (policy_of (heap_obj (w_heap w0) 2)) (w_now w_uncolored)))).
Proof.
  apply (timestamp_policy_follows_colorize "HH:MM:ss" 2 w0 w_uncolored).
  - vm_compute. reflexivity.
  - vm_compute. reflexivity.
  - vm_compute. discriminate.
  - vm_compute. discriminate.
  - vm_compute. reflexivity.
Defined.

Lemma cached_logger_stable_witness :
  pl_logger (Plugin c_other (VLogger 0),
             push_event (LogCall 0 [VStr "x"]) (tick 5 w0)).1 =
  pl_logger (Plugin c0 (VLogger 0), w0).1.
Proof.
  apply cached_logger_stable; [|reflexivity].
  apply (rtc_l _ _ (Plugin c_other (VLogger 0), w0)); [apply (StepConfig (Plugin c0 (VLogger 0)) c_other w0)|].
  apply (rtc_l _ _ (Plugin c_other (VLogger 0), tick 5 w0)); [by constructor; constructor|].
  apply (rtc_l _ _ (Plugin c_other (VLogger 0), push_event (LogCall 0 [VStr "x"]) (tick 5 w0))).
  - apply (StepLog [VStr "x"] _ (inr tt)). reflexivity.
  - apply rtc_refl.
Defined.

(** The world after a plugin with no [id] made its logger. *)
Definition w_noid : world :=
  snd (snd (_getLogger (LoggerPlugin (shared_config VUndef (VObj 1)), w0))).

Lemma name_collision_shares_logger_witness :
  let w2 := tick 1000 w_noid in
  _getLogger (LoggerPlugin (shared_config VUndef (VObj 4)), w2) =
  (inr (VLogger 0), (Plugin (shared_config VUndef (VObj 4)) (VLogger 0),
     set_heap (foldl rewrite_at (w_heap w2) (targets (w_heap w2) 4)) w2)).
Proof.
  apply (name_collision_shares_logger (shared_config VUndef (VObj 1)) _ 1 4
           w0 (VLogger 0) (Plugin (shared_config VUndef (VObj 1)) (VLogger 0))
           w_noid).
  - reflexivity.
  - apply entries_defined_check. vm_compute. reflexivity.
  - vm_compute. reflexivity.
  - vm_compute. reflexivity.
  - vm_compute. reflexivity.
  - reflexivity.
  - apply entries_defined_check. vm_compute. reflexivity.
Defined.

Lemma first_info_logs_witness :
  exists h, w_trace (snd (snd (info [VStr "hello"] (LoggerPlugin c0, w0)))) =
    w_trace w0 ++ [LogCall h [VStr "info"; VStr "hello"]] /\
    w_registry (snd (snd (info [VStr "hello"] (LoggerPlugin c0, w0)))) !!
      ("app" ++ int_to_js_string (w_now w0))%string = Some h.
Proof.
  apply (first_info_logs c0 1 w0 "app" [VStr "hello"]
           (fst (snd (info [VStr "hello"] (LoggerPlugin c0, w0))))).
  - reflexivity.
  - reflexivity.
  - apply entries_defined_check. vm_compute. reflexivity.
  - vm_compute. reflexivity.
Defined.

Lemma config_error_propagates_witness :
  fst (info [VStr "hello"] (LoggerPlugin c_err, w0)) = inl (Error "no log") /\
  snd (info [VStr "hello"] (LoggerPlugin c_err, w0)) = (LoggerPlugin c_err, w0).
Proof.
  apply (config_error_propagates Info c_err w0 (Error "no log") w0 [VStr "hello"]);
    [reflexivity|apply surjective_pairing].
Defined.
