(* ===== verification/Reentrancy.v ===== *)
(** * [_getLogger] step by step, and reentrant calls of it

    [_getLogger] (src/index.js, lines 38-67) calls code of other modules
    twice: the configuration's [get] (line 42) and winston's
    [loggers.add] (line 64).  Either may call back into the plugin (a
    [get] that logs, a transport whose constructor logs), and the spec
    (section 5) asks what then becomes of the one-logger-per-facade
    invariant of its section 3.  winston 2.x's [Container.add] first
    tests [this.loggers[id]] and only then builds the transports and the
    logger, storing it with [this.loggers[id] = new winston.Logger(...)];
    a call back made while the transports are built comes after the
    test.  Winston.v splits [winston_add] into that test
    ([winston_find]) and that construction ([winston_create]).

    - [gl_frame] is where one activation of [_getLogger] stands:
      [GLEntry] before the guard of line 39, [GLGet] in the call of
      [this.config.get] (line 42), [GLLoop logOptions ks] in the loop of
      line 46 with the keys [ks] left to visit, [GLAdd logOptions logId]
      at the call of [winston.loggers.add] (line 64), [GLBuild logOptions
      logId] inside it after its registry test missed, and the two ends
      [GLReturn] and [GLThrow].
    - [gl_step] runs the code from one such point to the next, reading
      [this] afresh at each line that names it, in the monad [PM] of
      [LoggerPlugin], over the winston model; [gl_iter] iterates it.
      [gl_reaches_getLogger]: the steps of one activation compute
      [_getLogger]; [gl_sn_all]: no activation takes infinitely many
      steps.
    - [rstate] is a stack of activations over one plugin and one world;
      [rstep] lets the innermost one step, return, or (while it is in a
      call to [get] or in the construction branch of [loggers.add]) be
      re-entered by a new activation; [rstep_clock] adds the clock
      moving.  [activations_finish]: once no new call starts, every
      activation returns or throws.
    - [reentrant_build_two_loggers]: for every configuration whose [get]
      returns a transport object and every world whose registry lacks the
      name, a call made back into the plugin from a transport constructor
      of the first [loggers.add] registers a first logger; the outer
      [add], its test already passed, builds a second one, overwrites the
      registry entry and caches it: two loggers for one plugin, within one
      millisecond. *)

From S2P Require Import Prelude JsValue Runtime Winston LoggerPlugin.

Existing Instance winston_backend.

(** ** Frames *)

Inductive gl_frame : Type :=
| GLEntry
| GLGet
| GLLoop (logOptions : value) (ks : list string)
| GLAdd (logOptions : value) (logId : value)
| GLBuild (logOptions : value) (logId : value)
| GLReturn (v : value)
| GLThrow (e : exn).

#[export] Instance gl_frame_eq_dec : EqDecision gl_frame.
Proof. solve_decision. Defined.

Definition gl_final (fr : gl_frame) : bool :=
  match fr with GLReturn _ | GLThrow _ => true | _ => false end.

(** An activation standing in a call to another module's code that may
    call back: [get], or the construction of the transports in [add]. *)
Definition at_call (fr : gl_frame) : bool :=
  match fr with GLGet | GLBuild _ _ => true | _ => false end.

(** The end frame of an outcome of [_getLogger]. *)
Definition frame_of (r : exn + value) : gl_frame :=
  match r with inl e => GLThrow e | inr v => GLReturn v end.

(** [(function(transport){ ... })(logOptions[n])], one turn of the loop. *)
Definition loop_visit (logOptions : value) (n : string) : M unit :=
  let! t := get_prop logOptions n in rewrite_transport t.

Section SmallStep.

(** Run the code up to the next point; an exception ends the activation. *)
Definition seg (m : st (plugin * world) exn gl_frame) (s : plugin * world) : gl_frame * (plugin * world) :=
  let (r, s') := m s in
  (match r with inl e => GLThrow e | inr fr => fr end, s').

Definition gl_step (fr : gl_frame) (s : plugin * world) : gl_frame * (plugin * world) :=
  match fr with
  | GLEntry =>
      seg (let! p := this in
           if js_truthy (pl_logger p) then st_ret (GLReturn (pl_logger p))
           else st_ret GLGet) s
  | GLGet =>
      seg (let! p := this in
           let! logOptions := on_world (cfg_get (pl_config p) "log" true) in
           let! ks := on_world (keys_of logOptions) in
           st_ret (GLLoop logOptions ks)) s
  | GLLoop logOptions (n :: ks) =>
      seg (on_world (loop_visit logOptions n) ;; st_ret (GLLoop logOptions ks)) s
  | GLLoop logOptions [] =>
      seg (let! t := on_world now in
           let! p := this in
           st_ret (GLAdd logOptions (log_id (pl_config p) t))) s
  | GLAdd logOptions logId =>
      seg (let! r := on_world (winston_find logId) in
           match r with
           | Some h =>
               set_logger (VLogger h) ;;
               let! p' := this in
               st_ret (GLReturn (pl_logger p'))
           | None => st_ret (GLBuild logOptions logId)
           end) s
  | GLBuild logOptions logId =>
      seg (let! lg := on_world (winston_create logId logOptions) in
           set_logger lg ;;
           let! p' := this in
           st_ret (GLReturn (pl_logger p'))) s
  | GLReturn _ | GLThrow _ => (fr, s)
  end.

Fixpoint gl_iter (n : nat) (fr : gl_frame) (s : plugin * world)
  : gl_frame * (plugin * world) :=
  match n with
  | O => (fr, s)
  | S n' => let (fr', s') := gl_step fr s in gl_iter n' fr' s'
  end.

(** One step of an activation that has not ended. *)
Definition gl_rel : relation (gl_frame * (plugin * world)) :=
  fun x y => gl_final x.1 = false /\ gl_step x.1 x.2 = y.
End SmallStep.

(** ** The steps, one frame at a time *)

Section StepLemmas.

Lemma gl_step_entry p w :
  gl_step GLEntry (p, w) =
  (if js_truthy (pl_logger p) then GLReturn (pl_logger p) else GLGet, (p, w)).
Proof. unfold gl_step, seg, st_bind, this, on_world, st_ret, set_logger, keys_of, now; cbn [fst snd]. by destruct (js_truthy (pl_logger p)). Qed.

Lemma gl_step_get p w :
  gl_step GLGet (p, w) =
  match cfg_get (pl_config p) "log" true w with
  | (inl e, w1) => (GLThrow e, (p, w1))
  | (inr lo, w1) => (GLLoop lo (for_in_keys (w_heap w1) lo), (p, w1))
  end.
Proof. unfold gl_step, seg, st_bind, this, on_world, st_ret, set_logger, keys_of, now; cbn [fst snd]. by destruct (cfg_get _ _ _ _) as [[e|lo] w1]. Qed.

Lemma gl_step_visit lo n ks p w :
  gl_step (GLLoop lo (n :: ks)) (p, w) =
  match loop_visit lo n w with
  | (inl e, w1) => (GLThrow e, (p, w1))
  | (inr _, w1) => (GLLoop lo ks, (p, w1))
  end.
Proof. unfold gl_step, seg, st_bind, this, on_world, st_ret, set_logger, keys_of, now; cbn [fst snd]. by destruct (loop_visit lo n w) as [[e|[]] w1]. Qed.

Lemma gl_step_loop_end lo p w :
  gl_step (GLLoop lo []) (p, w) = (GLAdd lo (log_id (pl_config p) (w_now w)), (p, w)).
Proof. reflexivity. Qed.

Lemma gl_step_add lo id p w :
  gl_step (GLAdd lo id) (p, w) =
  match w_registry w !! js_to_string id with
  | Some h => (GLReturn (VLogger h), (Plugin (pl_config p) (VLogger h), w))
  | None => (GLBuild lo id, (p, w))
  end.
Proof. unfold gl_step, seg, st_bind, this, on_world, st_ret, set_logger, winston_find; cbn [fst snd]. by destruct (w_registry w !! _). Qed.

Lemma gl_step_build lo id p w :
  gl_step (GLBuild lo id) (p, w) =
  match winston_create id lo w with
  | (inl e, w1) => (GLThrow e, (p, w1))
  | (inr lg, w1) => (GLReturn lg, (Plugin (pl_config p) lg, w1))
  end.
Proof. unfold gl_step, seg, st_bind, this, on_world, st_ret, set_logger; cbn [fst snd]. by destruct (winston_create id lo w) as [[e|lg] w1]. Qed.

Lemma gl_step_final fr s : gl_final fr = true -> gl_step fr s = (fr, s).
Proof. by destruct fr. Qed.

Lemma gl_iter_final n fr s : gl_final fr = true -> gl_iter n fr s = (fr, s).
Proof.
  intros Hf. induction n as [|n IH]; [done|]. simpl. by rewrite gl_step_final.
Qed.

Lemma gl_iter_add n m fr s :
  gl_iter (n + m) fr s = let (fr', s') := gl_iter n fr s in gl_iter m fr' s'.
Proof.
  revert fr s. induction n as [|n IH]; intros fr s; [done|]. simpl.
  destruct (gl_step fr s) as [fr' s']. apply IH.
Qed.

(** An activation that has ended stays where it is. *)
Lemma gl_iter_stable n m fr s :
  gl_final (gl_iter n fr s).1 = true -> n <= m -> gl_iter m fr s = gl_iter n fr s.
Proof.
  intros Hf Hnm. replace m with (n + (m - n)) by lia. rewrite gl_iter_add.
  destruct (gl_iter n fr s) as [fr' s']. by apply gl_iter_final.
Qed.

(** The loop of line 46, one key per step. *)
Lemma gl_iter_loop lo ks p w :
  gl_iter (List.length ks) (GLLoop lo ks) (p, w) =
  match st_iter (loop_visit lo) ks w with
  | (inl e, w1) => (GLThrow e, (p, w1))
  | (inr _, w1) => (GLLoop lo [], (p, w1))
  end.
Proof.
  revert w. induction ks as [|n ks IH]; intros w; [done|].
  cbn [List.length gl_iter st_iter]. rewrite gl_step_visit. unfold st_bind at 1.
  destruct (loop_visit lo n w) as [[e|[]] w1]; [by rewrite gl_iter_final|].
  apply IH.
Qed.
End StepLemmas.

(** The loop of lines 46-61 is [st_iter] of [loop_visit] over the keys. *)
Lemma rewrite_timestamps_visit lo w :
  rewrite_timestamps lo w = st_iter (loop_visit lo) (for_in_keys (w_heap w) lo) w.
Proof. reflexivity. Qed.

(** [_getLogger] on a plugin with no logger yet, statement by statement. *)
Lemma getLogger_uncached p w :
  js_truthy (pl_logger p) = false ->
  _getLogger (p, w) =
  match cfg_get (pl_config p) "log" true w with
  | (inl e, w1) => (inl e, (p, w1))
  | (inr lo, w1) =>
      match st_iter (loop_visit lo) (for_in_keys (w_heap w1) lo) w1 with
      | (inl e, w2) => (inl e, (p, w2))
      | (inr _, w2) =>
          match loggers_add (log_id (pl_config p) (w_now w2)) lo w2 with
          | (inl e, w3) => (inl e, (p, w3))
          | (inr lg, w3) => (inr lg, (Plugin (pl_config p) lg, w3))
          end
      end
  end.
Proof.
  intros Ht. unfold _getLogger, st_bind, this, on_world, set_logger, st_ret.
  cbn [fst snd]. rewrite Ht.
  destruct (cfg_get _ _ _ _) as [[e|lo] w1]; [done|]. cbn [fst snd].
  rewrite rewrite_timestamps_visit.
  destruct (st_iter (loop_visit lo) _ w1) as [[e|[]] w2]; [done|].
  cbn [now fst snd]. by destruct (loggers_add _ _ _) as [[e|lg] w3].
Qed.

(** The steps of one activation reach the outcome of [_getLogger]. *)
Lemma gl_reaches_getLogger p w :
  exists n, gl_iter n GLEntry (p, w) =
            (frame_of (_getLogger (p, w)).1, (_getLogger (p, w)).2).
Proof.
  destruct (js_truthy (pl_logger p)) eqn:Ht.
  { exists 1. cbn [gl_iter]. by rewrite gl_step_entry, Ht, getLogger_cached by done. }
  rewrite getLogger_uncached by done.
  destruct (cfg_get (pl_config p) "log" true w) as [[e|lo] w1] eqn:Hget.
  { exists 2. cbn [gl_iter]. by rewrite gl_step_entry, Ht; cbn [gl_iter]; rewrite gl_step_get, Hget. }
  set (ks := for_in_keys (w_heap w1) lo).
  exists (2 + (List.length ks + 3)).
  rewrite gl_iter_add. cbn [gl_iter]. rewrite gl_step_entry, Ht. cbn [gl_iter].
  rewrite gl_step_get, Hget. fold ks.
  rewrite gl_iter_add, gl_iter_loop.
  destruct (st_iter (loop_visit lo) ks w1) as [[e|[]] w2]; [by rewrite gl_iter_final|].
  cbn [gl_iter]. rewrite gl_step_loop_end. cbn [gl_iter]. rewrite gl_step_add.
  cbn [loggers_add winston_backend]. rewrite winston_add_eq.
  destruct (w_registry w2 !! _) as [h|]; [reflexivity|].
  cbn [gl_iter]. rewrite gl_step_build.
  by destruct (winston_create _ _ _) as [[e|lg] w3].
Qed.

(** ** Termination of an activation *)

Section Termination.

Lemma gl_sn_final fr s : gl_final fr = true -> sn gl_rel (fr, s).
Proof. intros Hf. constructor. intros y [Hf' _]. cbn in Hf'. congruence. Qed.

Lemma gl_sn_intro x :
  (gl_final x.1 = false -> sn gl_rel (gl_step x.1 x.2)) -> sn gl_rel x.
Proof. intros H. constructor. intros y [Hf <-]. by apply H. Qed.

Lemma gl_sn_build lo id s : sn gl_rel (GLBuild lo id, s).
Proof.
  apply gl_sn_intro. intros _. destruct s as [p w]. cbn [fst snd]. rewrite gl_step_build.
  destruct (winston_create id lo w) as [[e|lg] w1]; by apply gl_sn_final.
Qed.

Lemma gl_sn_add lo id s : sn gl_rel (GLAdd lo id, s).
Proof.
  apply gl_sn_intro. intros _. destruct s as [p w]. cbn [fst snd]. rewrite gl_step_add.
  destruct (w_registry w !! _); [by apply gl_sn_final|apply gl_sn_build].
Qed.

Lemma gl_sn_loop lo ks s : sn gl_rel (GLLoop lo ks, s).
Proof.
  revert s. induction ks as [|n ks IH]; intros [p w]; apply gl_sn_intro; intros _;
    cbn [fst snd].
  - rewrite gl_step_loop_end. apply gl_sn_add.
  - rewrite gl_step_visit.
    destruct (loop_visit lo n w) as [[e|[]] w1]; [by apply gl_sn_final|apply IH].
Qed.

Lemma gl_sn_get s : sn gl_rel (GLGet, s).
Proof.
  apply gl_sn_intro. intros _. destruct s as [p w]. cbn [fst snd]. rewrite gl_step_get.
  destruct (cfg_get _ _ _ _) as [[e|lo] w1]; [by apply gl_sn_final|apply gl_sn_loop].
Qed.

(** Every point of an activation is strongly normalising. *)
Lemma gl_sn_all x : sn gl_rel x.
Proof.
  destruct x as [fr s]. destruct fr as [| |lo ks|lo id|lo id|v|e].
  - apply gl_sn_intro. intros _. destruct s as [p w]. cbn [fst snd].
    rewrite gl_step_entry. destruct (js_truthy _); [by apply gl_sn_final|apply gl_sn_get].
  - apply gl_sn_get.
  - apply gl_sn_loop.
  - apply gl_sn_add.
  - apply gl_sn_build.
  - by apply gl_sn_final.
  - by apply gl_sn_final.
Qed.

End Termination.

(** ** Nested activations over one plugin

    The stack holds the activations, innermost first; [rs_done] the end
    frames of the activations that have returned, in order. *)

Record rstate : Type := RState {
  rs_stack : list gl_frame;
  rs_this : plugin;
  rs_world : world;
  rs_done : list gl_frame
}.

Section Machine.

(** The innermost activation runs to its next point, or returns. *)
Inductive run_step : relation rstate :=
| RRun fr st p w d fr' p' w' :
    gl_final fr = false -> gl_step fr (p, w) = (fr', (p', w')) ->
    run_step (RState (fr :: st) p w d) (RState (fr' :: st) p' w' d)
| RReturn fr st p w d :
    gl_final fr = true ->
    run_step (RState (fr :: st) p w d) (RState st p w (d ++ [fr])).

(** ... or a new activation starts: from the program when none runs, or
    from the code of [get] or [loggers.add] an activation is calling. *)
Inductive rstep : relation rstate :=
| RProgress x y : run_step x y -> rstep x y
| RCall p w d : rstep (RState [] p w d) (RState [GLEntry] p w d)
| RReenter fr st p w d :
    at_call fr = true ->
    rstep (RState (fr :: st) p w d) (RState (GLEntry :: fr :: st) p w d).

(** ... and the clock may move at any time. *)
Inductive rstep_clock : relation rstate :=
| RSame x y : rstep x y -> rstep_clock x y
| RTick st p w d dt :
    (0 <= dt)%Z -> rstep_clock (RState st p w d) (RState st p (tick dt w) d).

(** [run_step] as a function, to run the machine. *)
Definition run_next (x : rstate) : option rstate :=
  match rs_stack x with
  | [] => None
  | fr :: st =>
      if gl_final fr then Some (RState st (rs_this x) (rs_world x) (rs_done x ++ [fr]))
      else let '(fr', (p', w')) := gl_step fr (rs_this x, rs_world x) in
           Some (RState (fr' :: st) p' w' (rs_done x))
  end.

Fixpoint run_n (n : nat) (x : rstate) : rstate :=
  match n with
  | O => x
  | S n' => match run_next x with Some y => run_n n' y | None => x end
  end.

Definition enter (x : rstate) : rstate :=
  RState (GLEntry :: rs_stack x) (rs_this x) (rs_world x) (rs_done x).

Definition tick_rs (dt : Z) (x : rstate) : rstate :=
  RState (rs_stack x) (rs_this x) (tick dt (rs_world x)) (rs_done x).
End Machine.

Section MachineLemmas.

Lemma run_next_step x y : run_next x = Some y -> run_step x y.
Proof.
  destruct x as [[|fr st] p w d]; [done|]. unfold run_next. cbn [rs_stack rs_this rs_world rs_done].
  destruct (gl_final fr) eqn:Hf.
  - intros [= <-]. by constructor.
  - destruct (gl_step fr (p, w)) as [fr' [p' w']] eqn:E. intros [= <-]. by econstructor.
Qed.

Lemma run_n_rtc n x : rtc run_step x (run_n n x).
Proof.
  revert x. induction n as [|n IH]; intros x; [done|]. cbn [run_n].
  destruct (run_next x) as [y|] eqn:E; [|done].
  eapply rtc_l; [by apply run_next_step|apply IH].
Qed.

Lemma run_rtc_clock x y : rtc run_step x y -> rtc rstep_clock x y.
Proof. induction 1; [done|]. eapply rtc_l; [by do 2 constructor|done]. Qed.

Lemma run_rtc_rstep x y : rtc run_step x y -> rtc rstep x y.
Proof. induction 1; [done|]. eapply rtc_l; [by constructor|done]. Qed.

Lemma enter_rstep x :
  match rs_stack x with [] => True | fr :: _ => at_call fr = true end ->
  rstep x (enter x).
Proof. destruct x as [[|fr st] p w d]; intros H; by constructor. Qed.

(** An activation on the stack can always move. *)
Lemma run_progress x : rs_stack x <> [] -> exists y, run_step x y.
Proof.
  destruct x as [[|fr st] p w d]; [done|]. intros _.
  destruct (gl_final fr) eqn:Hf; [eexists; by apply RReturn|].
  destruct (gl_step fr (p, w)) as [fr' [p' w']] eqn:E. eexists. by eapply RRun.
Qed.

Lemma run_step_count x y :
  run_step x y ->
  List.length (rs_done y) + List.length (rs_stack y) =
  List.length (rs_done x) + List.length (rs_stack x).
Proof. destruct 1; cbn; rewrite ?length_app; cbn; lia. Qed.

Lemma run_sn_cons st :
  (forall p w d, sn run_step (RState st p w d)) ->
  forall x, sn gl_rel x -> forall d, sn run_step (RState (x.1 :: st) x.2.1 x.2.2 d).
Proof.
  intros IH x Hsn. induction Hsn as [[fr [p w]] _ IHsn]. intros d.
  constructor. intros y Hy. unfold flip in Hy.
  inversion Hy as [? ? ? ? ? fr' p' w' Hf Hs|]; subst; cbn in *.
  - apply (IHsn (fr', (p', w'))). by split.
  - apply IH.
Qed.

Lemma run_sn_stack st p w d : sn run_step (RState st p w d).
Proof.
  revert p w d. induction st as [|fr st IH]; intros p w d.
  - constructor. intros y Hy. unfold flip in Hy. inversion Hy.
  - apply (run_sn_cons st IH (fr, (p, w))), gl_sn_all.
Qed.
End MachineLemmas.

Section Liveness.

(** Once no new call starts, no run of the stack is infinite, and the
    stack can always be run down to empty, each activation on it having
    returned or thrown (one end frame recorded for each). *)
Lemma activations_finish x :
  sn run_step x /\
  exists y, rtc run_step x y /\ rs_stack y = [] /\
    List.length (rs_done y) = List.length (rs_done x) + List.length (rs_stack x).
Proof.
  assert (sn run_step x) as Hsn by (destruct x; apply run_sn_stack).
  split; [done|]. induction Hsn as [x _ IH].
  destruct (decide (rs_stack x = [])) as [Hnil|Hne].
  - exists x. rewrite Hnil. split_and!; [done|done|cbn; lia].
  - destruct (run_progress x Hne) as [y Hy].
    destruct (IH y Hy) as (z & Hyz & Hz & Hlen). exists z.
    split_and!; [by eapply rtc_l|done|]. rewrite Hlen. by apply run_step_count.
Qed.
End Liveness.

(** ** Statements that write the heap only *)

Definition heap_only (w w' : world) : Prop := w' = set_heap (w_heap w') w.

#[export] Instance heap_only_preorder : PreOrder heap_only.
Proof.
  split.
  - intros w. unfold heap_only. by rewrite set_heap_same.
  - intros w1 w2 w3 H12 H23. unfold heap_only in *.
    rewrite H23 at 1. rewrite H12. apply set_heap_set_heap.
Qed.

Lemma get_prop_heap_only v k : st_keeps heap_only (get_prop v k).
Proof.
  intros w r w'. unfold get_prop, lift.
  destruct (js_get _ _ _); intros [= _ <-]; reflexivity.
Qed.

Lemma set_prop_heap_only v k x : st_keeps heap_only (set_prop v k x).
Proof.
  intros w r w'. unfold set_prop.
  destruct (js_set _ _ _ _); intros [= _ <-]; [reflexivity|done].
Qed.

#[export] Hint Resolve get_prop_heap_only set_prop_heap_only : tcl.

Lemma rewrite_transport_heap_only t : st_keeps heap_only (rewrite_transport t).
Proof.
  unfold rewrite_transport. st_keeps_step; [by auto with tcl|].
  intros []; auto with tcl.
Qed.

Lemma loop_visit_heap_only lo n : st_keeps heap_only (loop_visit lo n).
Proof.
  st_keeps_step; [by auto with tcl|]. intros t. apply rewrite_transport_heap_only.
Qed.

#[export] Hint Resolve rewrite_transport_heap_only loop_visit_heap_only : tcl.

(** ** A call back from the construction of the transports *)

(** The registry name of the logger a plugin with configuration [c]
    creates at time [t]. *)
Definition reg_name (c : config) (t : Z) : string := js_to_string (log_id c t).

(** The world after the loop of lines 46-61 over the object [VObj L]. *)
Definition loop_world (L : loc) (w : world) : world :=
  set_heap (foldl rewrite_at (w_heap w) (targets (w_heap w) L)) w.

Lemma loop_world_idem L w : loop_world L (loop_world L w) = loop_world L w.
Proof.
  unfold loop_world. cbn [w_heap set_heap].
  by rewrite targets_foldl, foldl_rewrite_twice, set_heap_set_heap.
Qed.

(** The loop keeps the keys of [logOptions], so winston checks the same
    transport names. *)
Lemma unknown_transport_loop_world L w :
  unknown_transport (w_heap (loop_world L w)) (VObj L) = unknown_transport (w_heap w) (VObj L).
Proof.
  unfold unknown_transport, loop_world. cbn [w_heap set_heap for_in_keys].
  rewrite heap_obj_foldl_rewrite. case_decide; [|done]. by rewrite rw_obj_keys.
Qed.

(** The steps of an activation run by the innermost frame of the stack. *)
Lemma gl_iter_run n fr st p w d fr' p' w' :
  gl_iter n fr (p, w) = (fr', (p', w')) ->
  rtc run_step (RState (fr :: st) p w d) (RState (fr' :: st) p' w' d).
Proof.
  revert fr p w. induction n as [|n IH]; intros fr p w; cbn [gl_iter].
  { by intros [= <- <- <-]. }
  destruct (gl_final fr) eqn:Hf.
  { rewrite gl_step_final, gl_iter_final by done. by intros [= <- <- <-]. }
  destruct (gl_step fr (p, w)) as [fr1 [p1 w1]] eqn:Hs. intros E.
  eapply rtc_l; [by eapply RRun|]. by apply IH.
Qed.

(** A fresh activation whose [get] returns [VObj L] and whose name
    misses the registry reaches the construction branch of [add], the
    loop done. *)
Lemma gl_iter_to_build c L w :
  cfg_get c "log" true w = (inr (VObj L), w) -> entries_defined (w_heap w) L ->
  w_registry w !! reg_name c (w_now w) = None ->
  exists n, gl_iter n GLEntry (LoggerPlugin c, w) =
    (GLBuild (VObj L) (log_id c (w_now w)), (LoggerPlugin c, loop_world L w)).
Proof.
  intros Hcfg Hdef Hmiss. set (ks := for_in_keys (w_heap w) (VObj L)).
  exists (2 + (List.length ks + 2)).
  rewrite gl_iter_add. cbn [gl_iter]. rewrite gl_step_entry. cbn [gl_iter].
  rewrite gl_step_get. cbn [LoggerPlugin pl_config]. rewrite Hcfg. fold ks.
  rewrite gl_iter_add, gl_iter_loop. unfold ks.
  rewrite <- rewrite_timestamps_visit, rewrite_timestamps_foldl by done.
  cbn [gl_iter]. rewrite gl_step_loop_end. cbn [gl_iter]. rewrite gl_step_add.
  cbn [w_registry w_now set_heap]. cbn [LoggerPlugin pl_config]. unfold reg_name in Hmiss. by rewrite Hmiss.
Qed.

(** The construction branch of [add] on a name it registers afresh. *)
Lemma winston_create_new id L w :
  unknown_transport (w_heap w) (VObj L) = None ->
  winston_create id (VObj L) w =
  (inr (VLogger (List.length (w_loggers w))),
   mkWorld (w_heap w) (w_now w) (w_cwd w)
     (<[js_to_string id := List.length (w_loggers w)]> (w_registry w))
     (w_loggers w ++ [LoggerRec (js_to_string id) (VObj L)]) (w_trace w)).
Proof. intros Hu. unfold winston_create. by rewrite Hu. Qed.

(** C27. Reentrancy breaks the spec's one logger per facade (section 3),
    within one millisecond: for every configuration whose [get] returns
    the same transport object [logOptions] (no value [null] or
    [undefined], only known transports) and every world whose registry
    lacks the plugin's name, a run exists where a transport constructor
    of the first [winston.loggers.add] calls the plugin back: the inner
    activation registers and returns a first logger, the outer [add],
    past its test of [this.loggers[id]], builds a second, stores it over
    the first under the same name and [this._logger] caches it; winston
    then holds two more loggers, the clock not having moved. *)
Theorem reentrant_build_two_loggers c L w0 :
  (forall w, cfg_get c "log" true w = (inr (VObj L), w)) ->
  entries_defined (w_heap w0) L ->
  unknown_transport (w_heap w0) (VObj L) = None ->
  w_registry w0 !! reg_name c (w_now w0) = None ->
  exists x, rtc rstep (RState [] (LoggerPlugin c) w0 []) x /\
    rs_stack x = [] /\ w_now (rs_world x) = w_now w0 /\
    exists h1 h2, h1 <> h2 /\
      rs_done x = [GLReturn (VLogger h1); GLReturn (VLogger h2)] /\
      pl_logger (rs_this x) = VLogger h2 /\
      w_registry (rs_world x) !! reg_name c (w_now w0) = Some h2 /\
      List.length (w_loggers (rs_world x)) = List.length (w_loggers w0) + 2.
Proof.
  intros Hcfg Hdef Hunk Hmiss. set (w1 := loop_world L w0).
  destruct (gl_iter_to_build c L w0) as [n1 Hn1]; [done..|].
  destruct (gl_iter_to_build c L w1) as [n2 Hn2]; [done|by apply entries_defined_foldl|done|].
  change (w_now w1) with (w_now w0) in Hn2. unfold w1 in Hn2. rewrite loop_world_idem in Hn2. fold w1 in Hn2.
  assert (unknown_transport (w_heap w1) (VObj L) = None) as Hu1
    by (by unfold w1; rewrite unknown_transport_loop_world).
  eexists. split.
  { eapply rtc_l; [apply RCall|].
    eapply rtc_trans; [apply run_rtc_rstep, (gl_iter_run n1 _ []), Hn1|].
    eapply rtc_l; [by apply RReenter|].
    eapply rtc_trans; [apply run_rtc_rstep, (gl_iter_run n2), Hn2|].
    eapply rtc_l; [apply RProgress; eapply RRun; [done|by rewrite gl_step_build, winston_create_new]|].
    eapply rtc_l; [by apply RProgress, RReturn|].
    eapply rtc_l; [apply RProgress; eapply RRun; [done|by rewrite gl_step_build, winston_create_new]|].
    eapply rtc_l; [by apply RProgress, RReturn|]. apply rtc_refl. }
  cbn. rewrite !length_app. cbn [List.length]. split_and!; [done|done|].
  exists (List.length (w_loggers w0)), (List.length (w_loggers w0) + 1).
  split_and!; [lia|done|done| |lia]. unfold reg_name. by rewrite lookup_insert_eq.
Qed.

(** ** Witnesses *)

Lemma reentrant_build_two_loggers_witness :
  exists x, rtc rstep (RState [] (LoggerPlugin Fixture.c0) Fixture.w0 []) x /\
    rs_stack x = [] /\ w_now (rs_world x) = w_now Fixture.w0 /\
    exists h1 h2, h1 <> h2 /\
      rs_done x = [GLReturn (VLogger h1); GLReturn (VLogger h2)] /\
      pl_logger (rs_this x) = VLogger h2 /\
      w_registry (rs_world x) !! reg_name Fixture.c0 (w_now Fixture.w0) = Some h2 /\
      List.length (w_loggers (rs_world x)) = List.length (w_loggers Fixture.w0) + 2.
Proof.
  apply (reentrant_build_two_loggers Fixture.c0 1 Fixture.w0).
  - done.
  - apply entries_defined_check. vm_compute. reflexivity.
  - vm_compute. reflexivity.
  - vm_compute. reflexivity.
Defined.
