(* ===== verification/Invariants.v ===== *)
(** * Invariants of a plugin's life: one logger

    [facade_creates_at_most_one_logger] (a bound on a resource): along
    any sequential run of [plugin_step] over the winston model (method
    calls of the plugin, the clock moving, other code writing the heap,
    [this.config] replaced by configurations whose [get] only reads), the
    plugin adds at most one logger to winston's container, whatever fails
    on the way; the spec's section 3 promises exactly one per facade.
    ([Reentrancy] shows the bound fails when calls nest.) *)

From S2P Require Import Prelude JsValue Chalk Runtime DateFormat Winston LoggerPlugin Reentrancy.

(** ** Loggers created *)

Definition loggers_count (w : world) : nat := List.length (w_loggers w).

Lemma winston_add_count id opts w r w' :
  winston_add id opts w = (r, w') ->
  (exists e, r = inl e /\ w' = w) \/
  (exists h, r = inr (VLogger h) /\ loggers_count w' <= loggers_count w + 1).
Proof.
  unfold winston_add, winston_find, winston_create, st_bind; simpl.
  destruct (w_registry w !! _) as [h|].
  { intros [= <- <-]. right. exists h. split; [done|lia]. }
  destruct (unknown_transport _ _); intros [= <- <-]; [left; by eexists|right].
  eexists. split; [done|]. unfold loggers_count. cbn. rewrite length_app. cbn. lia.
Qed.

Lemma winston_log_count lg args w r w' :
  winston_log lg args w = (r, w') -> loggers_count w' = loggers_count w.
Proof.
  unfold winston_log. destruct lg; intros [= _ <-]; done.
Qed.

Lemma heap_only_count w w' : heap_only w w' -> loggers_count w' = loggers_count w.
Proof. intros H. by rewrite H. Qed.

(** A plugin without a logger has added none; a plugin with one, at
    most one. *)
Definition seq_inv (base : nat) (s : plugin * world) : Prop :=
  if js_truthy (pl_logger s.1) then loggers_count s.2 <= base + 1
  else loggers_count s.2 = base.

Lemma seq_inv_same base p w w' :
  loggers_count w' = loggers_count w -> seq_inv base (p, w) -> seq_inv base (p, w').
Proof. unfold seq_inv. cbn. intros ->. done. Qed.

Section Winston.
Existing Instance winston_backend.

Lemma getLogger_seq_inv base p w r s' :
  cfg_readonly (pl_config p) -> seq_inv base (p, w) ->
  _getLogger (p, w) = (r, s') -> seq_inv base s'.
Proof.
  intros Hc Hinv. destruct (js_truthy (pl_logger p)) eqn:Ht.
  { rewrite getLogger_cached by done. by intros [= _ <-]. }
  rewrite getLogger_uncached by done.
  destruct (cfg_get _ _ _ _) as [[e|lo] w1] eqn:Hg; apply Hc in Hg as ->;
    [by intros [= _ <-]|].
  destruct (st_iter (loop_visit lo) _ w) as [[e|[]] w2] eqn:Hl;
    apply (st_keeps_iter heap_only _ _ (loop_visit_heap_only lo)) in Hl;
    apply heap_only_count in Hl;
    [intros [= _ <-]; by apply (seq_inv_same _ _ w)|].
  destruct (loggers_add _ _ _) as [r3 w3] eqn:Ha. cbn in Ha.
  apply winston_add_count in Ha as [(e & -> & ->)|(h & -> & Hle)];
    intros [= _ <-]; [by apply (seq_inv_same _ _ w)|].
  unfold seq_inv in *. cbn in *. rewrite Ht in Hinv. lia.
Qed.

Lemma log_seq_inv base args p w r s' :
  cfg_readonly (pl_config p) -> seq_inv base (p, w) ->
  log args (p, w) = (r, s') -> seq_inv base s'.
Proof.
  intros Hc Hinv. unfold log.
  destruct (_getLogger (p, w)) as [[e|lg] [p1 w1]] eqn:Hget.
  - rewrite (st_bind_err _ _ _ _ _ Hget). intros [= _ <-].
    by apply (getLogger_seq_inv base p w (inl e)).
  - rewrite (st_bind_ok _ _ _ _ _ Hget). unfold on_world. cbn [fst snd].
    destruct (logger_log lg args w1) as [r2 w2] eqn:Hl. intros [= _ <-].
    apply winston_log_count in Hl. apply (seq_inv_same _ _ w1); [done|].
    by apply (getLogger_seq_inv base p w (inr lg)).
Qed.

(** One step of the plugin's life whose configuration afterwards is
    read-only. *)
Definition ro_step (s s' : plugin * world) : Prop :=
  plugin_step s s' /\ cfg_readonly (pl_config s'.1).

Lemma ro_step_inv base s s' :
  cfg_readonly (pl_config s.1) -> seq_inv base s -> ro_step s s' -> seq_inv base s'.
Proof.
  destruct s as [p w]. intros Hc Hinv [Hst _].
  inversion Hst as [? r ? Hrun|args ? r ? Hrun|lv args ? r ? Hrun|? ? w' Henv|];
    subst; cbn [fst] in *.
  - by eapply getLogger_seq_inv.
  - by eapply log_seq_inv.
  - by eapply log_seq_inv.
  - apply (seq_inv_same _ _ w); [|done]. by destruct Henv.
  - done.
Qed.

(** C28. A plugin adds at most one logger to winston's container along
    any sequential run of its life (calls of [_getLogger], [log] and the
    leveled methods, failing or not, the clock moving, heap writes,
    [this.config] replaced by read-only configurations): the spec's
    "one Logger per facade lifetime", as a bound. *)
Theorem facade_creates_at_most_one_logger c w s' :
  cfg_readonly c ->
  rtc ro_step (LoggerPlugin c, w) s' ->
  loggers_count s'.2 <= loggers_count w + 1.
Proof.
  intros Hc Hrun.
  assert (cfg_readonly (pl_config s'.1) /\ seq_inv (loggers_count w) s') as [_ Hinv].
  { apply (rtc_ind_r (R := ro_step) (fun s => cfg_readonly (pl_config s.1) /\
                               seq_inv (loggers_count w) s) (LoggerPlugin c, w));
      [by split|..|done].
    intros y z _ Hyz [Hy Hinv]. split; [apply Hyz|]. by eapply ro_step_inv. }
  unfold seq_inv in Hinv. destruct (js_truthy _); lia.
Qed.
End Winston.

(** ** Witnesses

    A run of the fixture plugin: [info('hello')] builds and uses the
    logger, the clock moves, [this.config] is replaced, [log('again')]. *)
Module LifeRun.
Import Fixture.
Definition s0 : plugin * world := (LoggerPlugin c0, w0).
Definition s1 : plugin * world := snd (info (BE := winston_backend) [VStr "hello"] s0).
Definition s2 : plugin * world := (s1.1, tick 5 s1.2).
Definition s3 : plugin * world := (Plugin c_other (pl_logger s2.1), s2.2).
Definition s4 : plugin * world := snd (log (BE := winston_backend) [VStr "again"] s3).
End LifeRun.

Lemma facade_creates_at_most_one_logger_witness :
  loggers_count LifeRun.s4.2 <= loggers_count Fixture.w0 + 1.
Proof.
  apply (facade_creates_at_most_one_logger Fixture.c0); [apply shared_config_readonly|].
  apply (rtc_l _ _ LifeRun.s1); [split|].
  { apply (StepLeveled Info [VStr "hello"] _ (fst (info [VStr "hello"] LifeRun.s0))).
    vm_compute. reflexivity. }
  { replace (pl_config LifeRun.s1.1) with Fixture.c0 by (vm_compute; reflexivity).
    apply shared_config_readonly. }
  apply (rtc_l _ _ LifeRun.s2); [split; [by repeat constructor|]|].
  { replace (pl_config LifeRun.s2.1) with Fixture.c0 by (vm_compute; reflexivity).
    apply shared_config_readonly. }
  apply (rtc_l _ _ LifeRun.s3); [split; [constructor|apply shared_config_readonly]|].
  apply (rtc_l _ _ LifeRun.s4); [split|apply rtc_refl].
  { apply (StepLog [VStr "again"] _ (fst (log [VStr "again"] LifeRun.s3))).
    vm_compute. reflexivity. }
  { replace (pl_config LifeRun.s4.1) with Fixture.c_other by (vm_compute; reflexivity).
    apply shared_config_readonly. }
Defined.
